(** * Dublin property / planning pipeline: a shallow embedding

  The Python sources embedded here are
    - [csv_processor.py]        (module [CsvProcessor])
    - [csv_processor_cases.py]  (module [CsvProcessorCases])
    - [merger.py]               (module [Merger])
    - [scrapping_board_na_pleanala.py] (module [Scraper])

  Python [str] values are modelled by [string]; the character
  classification used by [str.upper], [str.title], [str.strip] and by the
  [re] module ([\s], [\d], [\b], IGNORECASE) is Python's on code points
  0..127.  Code points above 127 are treated as caseless, non-word and
  non-space characters, so statements that depend on classification carry
  an [is_ascii] hypothesis.

  Floating point values are Rocq's primitive binary64 floats, which is the
  representation CPython uses for [float]. *)

From Stdlib Require Import ZArith Bool Ascii String DecimalString List Permutation Lia.
From Stdlib Require Import PrimFloat SpecFloat FloatOps.
From stdpp Require Import base option list strings.

Set Warnings "-inexact-float".
Local Open Scope string_scope.

(** ** Python string primitives *)
Module PyStr.

Definition code (c : ascii) : nat := nat_of_ascii c.

Definition in_range (lo hi c : ascii) : bool :=
  (code lo <=? code c)%nat && (code c <=? code hi)%nat.

Definition is_digit (c : ascii) : bool := in_range "0" "9" c.
Definition is_upper (c : ascii) : bool := in_range "A" "Z" c.
Definition is_lower (c : ascii) : bool := in_range "a" "z" c.
Definition is_alpha (c : ascii) : bool := is_upper c || is_lower c.

(** [\w]: alphanumeric or underscore. *)
Definition is_word (c : ascii) : bool :=
  is_alpha c || is_digit c || Ascii.eqb c "_".

(** [str.isspace] / [\s]: TAB, LF, VT, FF, CR, the separators 0x1C..0x1F
    and the space. *)
Definition is_space (c : ascii) : bool :=
  ((9 <=? code c)%nat && (code c <=? 13)%nat)
  || ((28 <=? code c)%nat && (code c <=? 32)%nat).

Definition is_ascii_char (c : ascii) : bool := (code c <? 128)%nat.

Definition upper_char (c : ascii) : ascii :=
  if is_lower c then ascii_of_nat (code c - 32) else c.
Definition lower_char (c : ascii) : ascii :=
  if is_upper c then ascii_of_nat (code c + 32) else c.

Fixpoint map_str (f : ascii -> ascii) (s : string) : string :=
  match s with
  | EmptyString => EmptyString
  | String c s' => String (f c) (map_str f s')
  end.

Fixpoint forall_str (p : ascii -> bool) (s : string) : bool :=
  match s with
  | EmptyString => true
  | String c s' => p c && forall_str p s'
  end.


Definition is_ascii (s : string) : bool := forall_str is_ascii_char s.

(** [str.upper] and [str.lower]. *)
Definition upper : string -> string := map_str upper_char.
Definition lower : string -> string := map_str lower_char.

(** [str.title]: a cased character is upper-cased when the previous
    character is not cased and lower-cased when it is. *)
Fixpoint title_from (prev_cased : bool) (s : string) : string :=
  match s with
  | EmptyString => EmptyString
  | String c s' =>
      String (if prev_cased then lower_char c else upper_char c)
             (title_from (is_alpha c) s')
  end.
Definition title : string -> string := title_from false.

(** [needle in hay]. *)
Fixpoint contains (hay needle : string) : bool :=
  String.prefix needle hay ||
  match hay with
  | EmptyString => false
  | String _ hay' => contains hay' needle
  end.

Fixpoint drop (n : nat) (s : string) : string :=
  match n, s with
  | O, _ => s
  | S n', String _ s' => drop n' s'
  | S _, EmptyString => EmptyString
  end.

Fixpoint take (n : nat) (s : string) : string :=
  match n, s with
  | O, _ => EmptyString
  | S n', String c s' => String c (take n' s')
  | S _, EmptyString => EmptyString
  end.

(** [s.split(sep)[0]] for a non-empty [sep]: the text before the first
    occurrence of [sep], or all of [s]. *)
Fixpoint split_head (sep s : string) : string :=
  if String.prefix sep s then EmptyString
  else match s with
       | EmptyString => EmptyString
       | String c s' => String c (split_head sep s')
       end.

Fixpoint lstrip (s : string) : string :=
  match s with
  | EmptyString => EmptyString
  | String c s' => if is_space c then lstrip s' else s
  end.

(** Right strip: drop the trailing run of whitespace. *)
Fixpoint rstrip (s : string) : string :=
  match s with
  | EmptyString => EmptyString
  | String c s' =>
      match rstrip s' with
      | EmptyString => if is_space c then EmptyString else String c EmptyString
      | r => String c r
      end
  end.

(** [str.strip()]. *)
Definition strip (s : string) : string := rstrip (lstrip s).

(** [sep.join(parts)]. *)
Fixpoint join (sep : string) (parts : list string) : string :=
  match parts with
  | [] => EmptyString
  | [p] => p
  | p :: ps => p ++ sep ++ join sep ps
  end.

End PyStr.

(** ** The fragment of Python's [re] used by the sources

  A backtracking matcher with Python's priorities: alternatives are tried
  left to right, greedy repeats prefer one more iteration, lazy repeats
  prefer to stop.  The first successful path is the match. *)
Module Re.
Import PyStr.

Inductive citem :=
| IChar (c : ascii)
| IRange (lo hi : ascii)
| IDigit                  (* \d *)
| ISpace.                 (* \s *)

Inductive cset :=
| CAny                                 (* .  : anything but a newline *)
| CSet (neg : bool) (items : list citem).

Inductive regex :=
| REps
| RChar (cs : cset)
| RSeq (r1 r2 : regex)
| RAlt (r1 r2 : regex)
| RStar (greedy : bool) (r : regex)
| RGroup (n : nat) (r : regex)         (* capturing group number n *)
| RBol                                 (* ^  *)
| REol                                 (* $  *)
| RWordB.                              (* \b *)

(** Derived forms. *)
Definition chr (c : ascii) : regex := RChar (CSet false [IChar c]).
Fixpoint lit (s : string) : regex :=
  match s with
  | EmptyString => REps
  | String c EmptyString => chr c
  | String c s' => RSeq (chr c) (lit s')
  end.
Definition rplus (r : regex) : regex := RSeq r (RStar true r).
Definition rstar (r : regex) : regex := RStar true r.
Definition rlazy (r : regex) : regex := RStar false r.
Definition ropt (r : regex) : regex := RAlt r REps.
Fixpoint rrep (n : nat) (r : regex) : regex :=
  match n with
  | O => REps
  | 1%nat => r
  | S n' => RSeq r (rrep n' r)
  end.
Fixpoint rcat (rs : list regex) : regex :=
  match rs with
  | [] => REps
  | [r] => r
  | r :: rs' => RSeq r (rcat rs')
  end.
Fixpoint ralt (rs : list regex) : regex :=
  match rs with
  | [] => REps
  | [r] => r
  | r :: rs' => RAlt r (ralt rs')
  end.
Definition cls (items : list citem) : regex := RChar (CSet false items).
Definition ncls (items : list citem) : regex := RChar (CSet true items).
Definition rany : regex := RChar CAny.
Definition rspace : regex := cls [ISpace].
Definition rdigit : regex := cls [IDigit].

Definition item_base (it : citem) (c : ascii) : bool :=
  match it with
  | IChar x => Ascii.eqb x c
  | IRange lo hi => in_range lo hi c
  | IDigit => is_digit c
  | ISpace => is_space c
  end.

(** With IGNORECASE a set item accepts a character when it accepts the
    character itself or one of its case variants. *)
Definition item_match (ic : bool) (it : citem) (c : ascii) : bool :=
  item_base it c
  || (ic && (item_base it (lower_char c) || item_base it (upper_char c))).

Definition cset_match (ic : bool) (cs : cset) (c : ascii) : bool :=
  match cs with
  | CAny => negb (Ascii.eqb c "010")
  | CSet neg items => xorb neg (existsb (fun it => item_match ic it c) items)
  end.

(** Captured groups: the text of the last participation of each group. *)
Definition caps := list (nat * string).

Fixpoint cap_get (n : nat) (cs : caps) : option string :=
  match cs with
  | [] => None
  | (m, t) :: cs' => if (m =? n)%nat then Some t else cap_get n cs'
  end.

Definition is_word_opt (o : option ascii) : bool :=
  match o with Some c => is_word c | None => false end.

Definition next_char (s : string) : option ascii :=
  match s with EmptyString => None | String c _ => Some c end.

Definition cont := option ascii -> string -> caps -> option (string * caps).

(** [rmatch ic r prev s cs k]: match [r] at the position whose previous
    character is [prev] and whose remaining input is [s]; [k] is the rest
    of the pattern.  A repeat makes an iteration only if it consumes
    input, so the remaining length bounds the number of iterations. *)
Fixpoint rmatch (ic : bool) (r : regex) (prev : option ascii) (s : string)
         (cs : caps) (k : cont) {struct r} : option (string * caps) :=
  match r with
  | REps => k prev s cs
  | RChar c =>
      match s with
      | String x s' => if cset_match ic c x then k (Some x) s' cs else None
      | EmptyString => None
      end
  | RSeq r1 r2 =>
      rmatch ic r1 prev s cs (fun p' s' cs' => rmatch ic r2 p' s' cs' k)
  | RAlt r1 r2 =>
      match rmatch ic r1 prev s cs k with
      | Some res => Some res
      | None => rmatch ic r2 prev s cs k
      end
  | RStar greedy r1 =>
      (fix loop (fuel : nat) (prev : option ascii) (s : string) (cs : caps)
         {struct fuel} : option (string * caps) :=
         match fuel with
         | O => k prev s cs
         | S fuel' =>
             let iter :=
               rmatch ic r1 prev s cs
                 (fun p' s' cs' =>
                    if (String.length s' <? String.length s)%nat
                    then loop fuel' p' s' cs' else None) in
             if greedy then
               match iter with
               | Some res => Some res
               | None => k prev s cs
               end
             else
               match k prev s cs with
               | Some res => Some res
               | None => iter
               end
         end) (String.length s) prev s cs
  | RGroup n r1 =>
      rmatch ic r1 prev s cs
        (fun p' s' cs' =>
           k p' s' ((n, take (String.length s - String.length s') s) :: cs'))
  | RBol => match prev with None => k prev s cs | Some _ => None end
  | REol =>
      match s with
      | EmptyString => k prev s cs
      | String "010" EmptyString => k prev s cs
      | _ => None
      end
  | RWordB =>
      if xorb (is_word_opt prev) (is_word_opt (next_char s))
      then k prev s cs else None
  end.

Record mres := MRes {
  m_pre  : string;          (* text skipped before the match *)
  m_text : string;          (* group 0 *)
  m_prev : option ascii;    (* character before the end of the match *)
  m_rest : string;          (* input after the match *)
  m_caps : caps }.

Fixpoint last_char (prev : option ascii) (t : string) : option ascii :=
match t with
| EmptyString => prev
| String c t' => last_char (Some c) t'
end.

(** One anchored attempt.  [must_advance] forbids the empty match. *)
Definition match_at (ic : bool) (r : regex) (must_advance : bool)
           (prev : option ascii) (s : string) : option mres :=
  match rmatch ic r prev s []
          (fun _ s' cs' =>
             if must_advance && (String.length s' =? String.length s)%nat
             then None else Some (s', cs')) with
  | Some (s', cs') =>
      let t := take (String.length s - String.length s') s in
      Some (MRes EmptyString t (last_char prev t) s' cs')
  | None => None
  end.

(** Leftmost match at or after the current position. *)
Fixpoint search_from (ic : bool) (r : regex) (must_advance : bool)
         (prev : option ascii) (s : string) : option mres :=
  match match_at ic r must_advance prev s with
  | Some m => Some m
  | None =>
      match s with
      | EmptyString => None
      | String c s' =>
          match search_from ic r false (Some c) s' with
          | Some m => Some (MRes (String c (m_pre m)) (m_text m) (m_prev m)
                                 (m_rest m) (m_caps m))
          | None => None
          end
      end
  end.

(** [re.match] and [re.search] on a whole string. *)
Definition re_match (ic : bool) (r : regex) (s : string) : option mres :=
  match_at ic r false None s.
Definition re_search (ic : bool) (r : regex) (s : string) : option mres :=
  search_from ic r false None s.

Definition group (n : nat) (m : mres) : string :=
  match n with
  | O => m_text m
  | _ => match cap_get n (m_caps m) with Some t => t | None => EmptyString end
  end.

(** Replacement templates: literal text and group references. *)
Inductive titem := TLit (s : string) | TGroup (n : nat).

Fixpoint expand (tpl : list titem) (m : mres) : string :=
  match tpl with
  | [] => EmptyString
  | TLit s :: tpl' => s ++ expand tpl' m
  | TGroup n :: tpl' => group n m ++ expand tpl' m
  end.

(** The substitution loop of [re.sub]: after an empty match the next
    attempt at the same position must consume input. *)
Fixpoint sub_loop (fuel : nat) (ic : bool) (r : regex) (tpl : list titem)
         (must_advance : bool) (prev : option ascii) (s : string) : string :=
  match fuel with
  | O => s
  | S fuel' =>
      match search_from ic r must_advance prev s with
      | None => s
      | Some m =>
          m_pre m ++ expand tpl m ++
          sub_loop fuel' ic r tpl
            (match m_text m with EmptyString => true | _ => false end)
            (m_prev m) (m_rest m)
      end
  end.

Definition re_sub (ic : bool) (r : regex) (tpl : list titem) (s : string) : string :=
  sub_loop (2 * String.length s + 2) ic r tpl false None s.

(** [re.findall] for a pattern with exactly one group: the group's text
    for every non-overlapping match. *)
Fixpoint findall_loop (fuel : nat) (ic : bool) (r : regex)
         (must_advance : bool) (prev : option ascii) (s : string) : list string :=
  match fuel with
  | O => []
  | S fuel' =>
      match search_from ic r must_advance prev s with
      | None => []
      | Some m =>
          group 1 m ::
          findall_loop fuel' ic r
            (match m_text m with EmptyString => true | _ => false end)
            (m_prev m) (m_rest m)
      end
  end.

Definition re_findall1 (ic : bool) (r : regex) (s : string) : list string :=
  findall_loop (2 * String.length s + 2) ic r false None s.

End Re.

(** ** Python values, exceptions, standard output and the outside world *)
Module Py.

(** The values a cell or an argument can hold.  [VObj o] is any other
    object, [o] being what [str()] returns on it ([None] when [__str__]
    raises). *)
Inductive pyval :=
| VStr (s : string)
| VNaN                         (* float('nan'): pandas' missing value *)
| VNone
| VObj (o : option string).

(** [str(v)]; [None] when it raises. *)
Definition py_str (v : pyval) : option string :=
  match v with
  | VStr s => Some s
  | VNaN => Some "nan"
  | VNone => Some "None"
  | VObj o => o
  end.

(** Instances of [Exception]. *)
Inductive exn :=
| GeocoderTimedOut (msg : string)
| GeocoderServiceError (msg : string)
| AttributeError (msg : string)
| KeyError (key : string)
| IndexError (msg : string)
| ValueError (msg : string)
| OSError (msg : string)
| OtherError (msg : string).

Inductive result (A : Type) :=
| Ok (a : A)
| Raise (e : exn).
Arguments Ok {A} a.
Arguments Raise {A} e.

Definition is_ok {A} (r : result A) : bool :=
  match r with Ok _ => true | Raise _ => false end.

(** A raw address as the frames hold it: a string, or [None] for the
    missing value NaN (numpy's single [nan] object). *)
Definition key := option string.

Definition key_val (k : key) : pyval :=
  match k with Some s => VStr s | None => VNaN end.

(** [bool(address)]: the empty string is falsy, NaN is truthy. *)
Definition key_truthy (k : key) : bool :=
  match k with Some EmptyString => false | _ => true end.

(** A cached coordinate pair: each half a float or null. *)
Definition coords := (option float * option float)%type.

(** One constructor per [print] statement of the sources. *)
Inductive message :=
| MsgFailedGeocode (address : pyval) (e : exn)
| MsgCouldNotFind (address : pyval)
| MsgProcessingFirst (n : Z)
| MsgProcessingUnique (n : nat)
| MsgSuccessRate (ok total : nat)
| MsgUpdating
| MsgStatistics (total_rows with_coords : nat)
| MsgSample
| MsgComplete (output_file : string)
| MsgNoCsvFound (dir : string)
| MsgFound (n : nat)
| MsgReadOk (file : string)
| MsgReadError (file : string) (e : exn)
| MsgNoFrames
| MsgMerged (output_file : string) (rows : nat)
| MsgError (e : exn)
| MsgScraping (url : string)
| MsgFetchFailed (status : nat)
| MsgSaved (n : nat) (file : string)
| MsgTotalCases (n : nat)
| MsgRemoved (n : nat)
| MsgUnique (n : nat).

(** What the program does to the outside world, in order. *)
Inductive event :=
| EvSleep (seconds : nat)
| EvCall (address : key)        (* ghost: get_coordinates is entered *)
| EvGeocode (query : string)
| EvPrint (m : message)
| EvSaveCache (content : list (string * coords))
| EvHttpGet (url : string).

Definition trace := list event.

End Py.

(** ** The pandas operations the sources use *)
Module Pandas.
Import Py.

(** A frame is column oriented: the row labels, and the named columns
    in order, each holding one cell per row. *)
Record frame (A : Type) := Frame {
  index : list nat;
  cols : list (string * list A) }.
Arguments Frame {A} _ _.
Arguments index {A} _.
Arguments cols {A} _.

(** Cells of a processed frame. *)
Inductive cell :=
| CStr (s : string)
| CNaN
| CNone
| CInt (n : Z)
| CFloat (f : float).

Definition cell_of_key (k : key) : cell :=
  match k with Some s => CStr s | None => CNaN end.

Definition columns {A} (df : frame A) : list string := map fst (cols df).
Definition nrows {A} (df : frame A) : nat := length (index df).

Fixpoint lookup_col {A} (cs : list (string * list A)) (name : string) : option (list A) :=
  match cs with
  | [] => None
  | (c, l) :: cs' => if String.eqb c name then Some l else lookup_col cs' name
  end.

(** [df[name]]: KeyError on an unknown label. *)
Definition get_col {A} (df : frame A) (name : string) : result (list A) :=
  match lookup_col (cols df) name with
  | Some l => Ok l
  | None => Raise (KeyError name)
  end.

(** [df.iloc[:, i]]: IndexError past the last column. *)
Definition iloc_col {A} (df : frame A) (i : nat) : result (list A) :=
  match nth_error (cols df) i with
  | Some (_, l) => Ok l
  | None => Raise (IndexError "single positional indexer is out-of-bounds")
  end.

Fixpoint replace_col {A} (cs : list (string * list A)) (name : string) (vals : list A)
  : list (string * list A) :=
  match cs with
  | [] => [(name, vals)]
  | (c, l) :: cs' =>
      if String.eqb c name then (c, vals) :: cs'
      else (c, l) :: replace_col cs' name vals
  end.

(** [df[name] = values]: overwrite the column in place, or add it last. *)
Definition set_col {A} (df : frame A) (name : string) (vals : list A) : frame A :=
  Frame (index df) (replace_col (cols df) name vals).

(** [df[name] = scalar]. *)
Definition set_col_const {A} (df : frame A) (name : string) (v : A) : frame A :=
  set_col df name (repeat v (nrows df)).

(** [df.head(n)]: the first [n] rows, or all but the last [-n]. *)
Definition head {A} (n : Z) (df : frame A) : frame A :=
  let k := if (0 <=? n)%Z then Z.to_nat n
           else (nrows df - Z.to_nat (- n))%nat in
  Frame (firstn k (index df)) (map (fun '(c, l) => (c, firstn k l)) (cols df)).

Fixpoint mapM {A B} (f : A -> result B) (l : list A) : result (list B) :=
  match l with
  | [] => Ok []
  | a :: l' =>
      match f a with
      | Raise e => Raise e
      | Ok b => match mapM f l' with
                | Raise e => Raise e
                | Ok bs => Ok (b :: bs)
                end
      end
  end.

(** [df[names]]: the named columns in the given order. *)
Definition select {A} (df : frame A) (names : list string) : result (frame A) :=
  match mapM (fun n => match lookup_col (cols df) n with
                       | Some l => Ok (n, l)
                       | None => Raise (KeyError n)
                       end) names with
  | Raise e => Raise e
  | Ok cs => Ok (Frame (index df) cs)
  end.

(** [Series.unique()]: first occurrences, in order. *)
Fixpoint unique (l : list key) : list key :=
  match l with
  | [] => []
  | k :: l' => k :: filter (fun k' => k' <> k) (unique l')
  end.

(** [Series.dropna()]. *)
Definition dropna (l : list key) : list key :=
  filter (fun k => is_Some k) l.

(** [pd.concat(dfs, axis=0, ignore_index=True)]: the columns are the
    union of the frames' columns in order of first appearance, a frame
    that lacks a column contributes missing cells to it, and the rows
    are relabelled 0..n-1. *)
Definition union_columns {A} (dfs : list (frame A)) : list string :=
  remove_dups (concat (map columns dfs)).

Definition column_or_missing {A} (d : A) (name : string) (df : frame A) : list A :=
  match lookup_col (cols df) name with
  | Some l => l
  | None => repeat d (nrows df)
  end.

Definition concat_rows {A} (d : A) (dfs : list (frame A)) : frame A :=
  Frame (seq 0 (list_sum (map nrows dfs)))
        (map (fun c => (c, concat (map (column_or_missing d c) dfs)))
             (union_columns dfs)).

(** [drop_duplicates(subset=[field])] on rows given as records: keep the
    first row of every value of the field. *)
Fixpoint drop_duplicates_from {R} (field : R -> string) (seen : list string) (l : list R) : list R :=
  match l with
  | [] => []
  | r :: l' =>
      if bool_decide (field r ∈ seen) then drop_duplicates_from field seen l'
      else r :: drop_duplicates_from field (field r :: seen) l'
  end.
Definition drop_duplicates {R} (field : R -> string) (l : list R) : list R :=
  drop_duplicates_from field [] l.

End Pandas.

(** ** The environment and the state of the outside world *)
Module World.
Import Py Pandas.

(** What [geolocator.geocode(query)] does: no result, a location, or an
    exception. *)
Inductive geo_reply :=
| GeoNone
| GeoLoc (latitude longitude : float)
| GeoRaise (e : exn).

(** The JSON cache file: absent, unreadable as JSON, or an object whose
    members are listed in file order. *)
Inductive cache_file :=
| NoFile
| Corrupt (e : exn)
| Json (members : list (string * coords)).

Record date := Date { year : Z; month : Z; day : Z }.

(** A scraped case, as [scrape_cases_from_html] builds it. *)
Record case := Case {
  c_type : string; c_title : string; reference : string; c_status : string;
  c_description : string; date_lodged : string; date_signed : string;
  eiar : string; nis : string; parties : string }.

(** Everything the program does not decide itself.  The geocoder and the
    web server may answer differently at every call, so they see the
    history. *)
Record env := Env {
  env_geocode : trace -> string -> geo_reply;
  (* pd.read_csv(path, dtype=str): cells are strings or missing *)
  env_read_csv_str : string -> result (frame key);
  (* pd.read_csv(path, encoding='latin-1') *)
  env_read_csv : string -> result (frame cell);
  (* pd.to_datetime(text, format='%d/%m/%Y'); None is a ValueError *)
  env_to_datetime : string -> option date;
  (* repr of a float *)
  env_float_repr : float -> string;
  (* the exception DataFrame.to_csv raises on this path, if any *)
  env_to_csv_error : string -> option exn;
  (* the order in which a Python set of addresses is iterated *)
  env_set_order : list key -> list key;
  (* Path(directory).glob('*.csv') *)
  env_glob_csv : string -> result (list string);
  (* requests.get(url): status code and body *)
  env_http_get : trace -> string -> result (nat * string);
  (* BeautifulSoup extraction of the cases of a page *)
  env_cases_of_html : string -> result (list case) }.

Record world := MkWorld {
  w_trace : trace;
  w_cache_file : cache_file;
  (* CSV files written so far, the most recent first *)
  w_csv : list (string * frame cell);
  (* the cases file of the scraper *)
  w_cases_csv : option (list case) }.

(** State and exceptions. *)
Definition M (A : Type) : Type := world -> result A * world.

Definition ret {A} (a : A) : M A := fun w => (Ok a, w).
Definition throw {A} (e : exn) : M A := fun w => (Raise e, w).
Definition bind {A B} (c : M A) (k : A -> M B) : M B :=
  fun w => match c w with
           | (Ok a, w') => k a w'
           | (Raise e, w') => (Raise e, w')
           end.
Definition lift {A} (r : result A) : M A := fun w => (r, w).

(** [try: c except Exception as e: h e]. *)
Definition try_except {A} (c : M A) (h : exn -> M A) : M A :=
  fun w => match c w with
           | (Ok a, w') => (Ok a, w')
           | (Raise e, w') => h e w'
           end.

Definition emit (ev : event) : M unit :=
  fun w => (Ok tt, MkWorld (w_trace w ++ [ev])%list (w_cache_file w) (w_csv w) (w_cases_csv w)).
Definition print (m : message) : M unit := emit (EvPrint m).

Definition with_trace {A} (f : trace -> A * trace) : M A :=
  fun w => let '(a, t) := f (w_trace w) in
           (Ok a, MkWorld t (w_cache_file w) (w_csv w) (w_cases_csv w)).

(** [df.to_csv(path, index=False)]. *)
Definition to_csv (e : env) (df : frame cell) (path : string) : M unit :=
  fun w => match env_to_csv_error e path with
           | Some err => (Raise err, w)
           | None => (Ok tt, MkWorld (w_trace w) (w_cache_file w)
                                ((path, df) :: w_csv w) (w_cases_csv w))
           end.

(** Python dictionaries keep insertion order: an association list with
    one entry per key. *)
Definition dict := list (key * coords).

Fixpoint dict_get (k : key) (d : dict) : option coords :=
  match d with
  | [] => None
  | (k', v) :: d' => if bool_decide (k' = k) then Some v else dict_get k d'
  end.

Definition dict_mem (k : key) (d : dict) : bool :=
  match dict_get k d with Some _ => true | None => false end.

(** [d[k] = v]: replace the value of an existing key in place, or append
    a new entry. *)
Fixpoint dict_set (k : key) (v : coords) (d : dict) : dict :=
  match d with
  | [] => [(k, v)]
  | (k', v') :: d' =>
      if bool_decide (k' = k) then (k, v) :: d' else (k', v') :: dict_set k v d'
  end.

Definition dict_keys (d : dict) : list key := map fst d.

(** [json.load]: the members become entries, a repeated name keeping its
    last value. *)
Definition json_load (members : list (string * coords)) : dict :=
  fold_left (fun d '(s, v) => dict_set (Some s) v d) members [].

(** [json.dump]: one member per entry, in order; a float key is written
    with its JSON text, [NaN] for the missing value. *)
Definition json_key (k : key) : string :=
  match k with Some s => s | None => "NaN" end.
Definition json_dump (d : dict) : list (string * coords) :=
  map (fun '(k, v) => (json_key k, v)) d.

Notation "x <- c ;; k" := (bind c (fun x => k))
  (at level 100, c at next level, right associativity).
Notation "c ;;; k" := (bind c (fun _ => k))
  (at level 100, right associativity).

End World.

(** ** csv_processor.py *)
Module CsvProcessor.
Import PyStr Re Py Pandas World.

Definition load_cache : M dict :=
  fun w => match w_cache_file w with
           | NoFile => (Ok [], w)
           | Corrupt e => (Raise e, w)
           | Json members => (Ok (json_load members), w)
           end.

(** The write is taken to succeed: a run in which [open] or [json.dump]
    fails on the cache file is not described by this model. *)
Definition save_cache (cache : dict) : M unit :=
  fun w => (Ok tt, MkWorld (w_trace w ++ [EvSaveCache (json_dump cache)])%list
                           (Json (json_dump cache)) (w_csv w) (w_cases_csv w)).

(** The binary64 nearest to an integer (round to nearest, ties to even;
    infinity on overflow). *)
Definition float_of_Z (n : Z) : float :=
  SF2Prim (binary_normalize 53 1024 n 0 false).

Definition digit_value (c : ascii) : Z := Z.of_nat (code c - code "0").

Fixpoint decimal_value (acc : Z) (s : string) : Z :=
  match s with
  | EmptyString => acc
  | String c s' => decimal_value (10 * acc + digit_value c) s'
  end.

(** [float(s)] on a string of decimal digits: ValueError ([None]) on
    the empty string. *)
Definition float_of_digits (s : string) : option float :=
  match s with
  | EmptyString => None
  | _ => if forall_str is_digit s then Some (float_of_Z (decimal_value 0 s)) else None
  end.

Definition not_digit : regex := ncls [IRange "0" "9"].     (* [^0-9] *)

Definition clean_price (price_str : pyval) : option float :=
  match py_str price_str with
  | None => None
  | Some text =>
      let number := re_sub false not_digit [] text in
      match float_of_digits number with
      | Some f => Some (f / 100)%float
      | None => None
      end
  end.

Definition area_mappings : list (string * string) :=
  [ ("DUBLIN 1", "D1"); ("DUBLIN 2", "D2"); ("DUBLIN 3", "D3"); ("DUBLIN 4", "D4");
    ("DUBLIN 5", "D5"); ("DUBLIN 6", "D6"); ("DUBLIN 7", "D7"); ("DUBLIN 8", "D8");
    ("DUBLIN 9", "D9"); ("DUBLIN 10", "D10"); ("DUBLIN 11", "D11"); ("DUBLIN 12", "D12");
    ("DUBLIN 13", "D13"); ("DUBLIN 14", "D14"); ("DUBLIN 15", "D15"); ("DUBLIN 16", "D16");
    ("DUBLIN 17", "D17"); ("DUBLIN 18", "D18"); ("DUBLIN 20", "D20"); ("DUBLIN 22", "D22");
    ("DUBLIN 24", "D24");
    ("BAC", "Dublin");
    ("BAILE ATHA CLIATH", "Dublin");
    ("CO DUBLIN", "County Dublin");
    ("CO. DUBLIN", "County Dublin") ].

(** The text of a key interpolated into a pattern: every character
    stands for itself except the dot, which matches any character. *)
Fixpoint interpolated (s : string) : regex :=
  match s with
  | EmptyString => REps
  | String c s' =>
      let r := if Ascii.eqb c "." then rany else chr c in
      match s' with
      | EmptyString => r
      | _ => RSeq r (interpolated s')
      end
  end.

(** fr'\b{old}\b' *)
Definition word_pattern (old : string) : regex :=
  rcat [RWordB; interpolated old; RWordB].

Definition standardize_dublin_areas (address : string) : string :=
  fold_left (fun address '(old, new) =>
               re_sub true (word_pattern old) [TLit new] address)
            area_mappings address.

Definition prefixes_to_remove : list regex :=
  [ (* ^(APT|APARTMENT|UNIT|NO\.|FLAT)\s*\.?\s*\d+\s*,?\s* *)
    rcat [RBol;
          RGroup 1 (ralt [lit "APT"; lit "APARTMENT"; lit "UNIT"; lit "NO."; lit "FLAT"]);
          rstar rspace; ropt (chr "."); rstar rspace; rplus rdigit;
          rstar rspace; ropt (chr ","); rstar rspace];
    (* ^\d+[A-Z]?\s*,?\s* *)
    rcat [RBol; rplus rdigit; ropt (cls [IRange "A" "Z"]);
          rstar rspace; ropt (chr ","); rstar rspace];
    (* APT\.?\s*\d+\s*-?\s* *)
    rcat [lit "APT"; ropt (chr "."); rstar rspace; rplus rdigit;
          rstar rspace; ropt (chr "-"); rstar rspace] ].

Definition replacements : list (string * string) :=
  [ ("RD", "ROAD"); ("ST", "STREET"); ("AVE", "AVENUE"); ("APTS", "APARTMENTS");
    ("DR", "DRIVE"); ("LN", "LANE"); ("CT", "COURT"); ("CRES", "CRESCENT");
    ("SQ", "SQUARE"); ("PK", "PARK"); ("GDNS", "GARDENS"); ("APT", "APARTMENT") ].

Definition clean_address (address : pyval) : string :=
  match address with
  | VStr address =>
      let address := upper address in
      let address :=
        fold_left (fun address prefix => re_sub true prefix [] address)
                  prefixes_to_remove address in
      let address :=
        fold_left (fun address '(abbr, full) =>
                     re_sub false (word_pattern abbr) [TLit full] address)
                  replacements address in
      (* \s+,\s+ *)
      let address :=
        re_sub false (rcat [rplus rspace; chr ","; rplus rspace]) [TLit ", "] address in
      (* \s+ *)
      let address := re_sub false (rplus rspace) [TLit " "] address in
      let address := standardize_dublin_areas address in
      let address :=
        if negb (contains address "DUBLIN") && negb (contains address "D\d{1,2}")
        then address ++ ", DUBLIN" else address in
      let address :=
        if negb (contains address "IRELAND") then address ++ ", IRELAND" else address in
      title address
  | _ => EmptyString
  end.

(** The rewrites of the cleaned address, in the order they are tried;
    [None] is an exception raised by the rewrite itself. *)
Definition tries : list (string -> option string) :=
  [ (fun addr => Some addr);
    (* re.sub(r',.*Dublin', ', Dublin', addr) *)
    (fun addr => Some (re_sub false (rcat [chr ","; rstar rany; lit "Dublin"])
                              [TLit ", Dublin"] addr));
    (* re.match(r'^([^,]+,[^,]+)', addr).group(1) + ', Dublin, Ireland' *)
    (fun addr =>
       match re_match false
               (rcat [RBol; RGroup 1 (rcat [rplus (ncls [IChar ","]); chr ",";
                                            rplus (ncls [IChar ","])])]) addr with
       | Some m => Some (group 1 m ++ ", Dublin, Ireland")
       | None => None
       end) ].

(** 52.9 <= latitude <= 53.7 and -6.5 <= longitude <= -6.0 *)
Definition in_box (latitude longitude : float) : bool :=
  ((52.9 <=? latitude) && (latitude <=? 53.7)
   && (-6.5 <=? longitude) && (longitude <=? -6.0))%float.

Definition is_geocoder_error (e : exn) : bool :=
  match e with
  | GeocoderTimedOut _ | GeocoderServiceError _ => true
  | _ => false
  end.

Fixpoint enumerate_from {A} (n : nat) (l : list A) : list (nat * A) :=
  match l with
  | [] => []
  | a :: l' => (n, a) :: enumerate_from (S n) l'
  end.

Fixpoint try_loop (e : env) (original_address : pyval) (last : nat)
         (todo : list (nat * (string -> option string))) (t : trace) : coords * trace :=
  match todo with
  | [] => ((None, None), (t ++ [EvPrint (MsgCouldNotFind original_address)])%list)
  | (try_num, address_modifier) :: todo' =>
      let cleaned_address := clean_address original_address in
      match address_modifier cleaned_address with
      | None => try_loop e original_address last todo' t
      | Some search_address =>
          let t1 := (t ++ [EvSleep 1])%list in
          let t2 := (t1 ++ [EvGeocode search_address])%list in
          match env_geocode e t1 search_address with
          | GeoLoc latitude longitude =>
              if in_box latitude longitude
              then ((Some latitude, Some longitude), t2)
              else try_loop e original_address last todo' t2
          | GeoNone => try_loop e original_address last todo' t2
          | GeoRaise err =>
              if is_geocoder_error err && (try_num =? last)%nat
              then try_loop e original_address last todo'
                     (t2 ++ [EvPrint (MsgFailedGeocode original_address err)])%list
              else try_loop e original_address last todo' t2
          end
      end
  end.

Definition get_coordinates (e : env) (address : pyval) (t : trace) : coords * trace :=
  try_loop e address (length tries - 1) (enumerate_from 0 tries) t.

(** Decimal text of an integer, and its zero-padded form. *)
Definition dec (n : Z) : string := NilZero.string_of_int (Z.to_int n).

Fixpoint zeros (n : nat) : string :=
  match n with O => EmptyString | S n' => String "0" (zeros n') end.
Definition pad (width : nat) (n : Z) : string :=
  zeros (width - String.length (dec n)) ++ dec n.

(** strftime('%d/%m/%Y') *)
Definition strftime (d : date) : string :=
  pad 2 (day d) ++ "/" ++ pad 2 (month d) ++ "/" ++ pad 4 (year d).

(** pd.to_datetime on one cell: a missing cell is NaT, an unparsable
    text is a ValueError. *)
Definition to_datetime (e : env) (k : key) : result (option date) :=
  match k with
  | None => Ok None
  | Some text =>
      match env_to_datetime e text with
      | Some d => Ok (Some d)
      | None => Raise (ValueError text)
      end
  end.

(** An integer column is stored as floats as soon as a value is missing. *)
Definition int_column (l : list (option Z)) : list cell :=
  if forallb (fun o => match o with Some _ => true | None => false end) l
  then map (fun o => match o with Some n => CInt n | None => CNaN end) l
  else map (fun o => match o with Some n => CFloat (float_of_Z n) | None => CNaN end) l.

Definition cell_val (e : env) (c : cell) : pyval :=
  match c with
  | CStr s => VStr s
  | CNaN => VNaN
  | CNone => VNone
  | CInt n => VObj (Some (dec n))
  | CFloat f => VObj (Some (env_float_repr e f))
  end.

Definition float_cell (o : option float) : cell :=
  match o with Some f => CFloat f | None => CNone end.

Definition cells_of (df : frame key) : frame cell :=
  Frame (index df) (map (fun '(c, l) => (c, map cell_of_key l)) (cols df)).

Definition date_column : string := "Date of Sale (dd/mm/yyyy)".

Definition columns_to_keep : list string :=
  [ date_column; "Sale_Month"; "Sale_Year";
    "Address"; "County"; "Eircode";
    "Price_Cleaned"; "Not Full Market Price"; "VAT Exclusive";
    "Description of Property"; "Property Size Description";
    "Latitude"; "Longitude" ].

(** The loop over the addresses that are not cached yet. *)
Fixpoint geocode_loop (e : env) (todo : list key) (cache : dict) : M dict :=
  match todo with
  | [] => ret cache
  | address :: todo' =>
      if key_truthy address && negb (dict_mem address cache)
      then
        (emit (EvCall address) ;;;
         coords <- with_trace (get_coordinates e (key_val address)) ;;
         let cache := dict_set address coords cache in
         save_cache cache ;;;
         geocode_loop e todo' cache)
      else geocode_loop e todo' cache
  end.

(** The loop over the rows: a row whose address is cached receives the
    cached pair, any other row keeps None. *)
Definition row_coords (cache : dict) (address : key) : coords :=
  match dict_get address cache with
  | Some cached => cached
  | None => (None, None)
  end.

Definition process_csv (e : env) (input_file output_file : string)
           (max_rows : option Z) : M unit :=
  raw <- lift (env_read_csv_str e input_file) ;;
  raw <- match max_rows with
         | Some n => if (n =? 0)%Z then ret raw
                     else (print (MsgProcessingFirst n) ;;; ret (head n raw))
         | None => ret raw
         end ;;
  let df := cells_of raw in
  dates <- lift (get_col raw date_column) ;;
  stamps <- lift (mapM (to_datetime e) dates) ;;
  let df := set_col df "Sale_Month" (int_column (map (option_map month) stamps)) in
  let df := set_col df "Sale_Year" (int_column (map (option_map year) stamps)) in
  let df := set_col df date_column
              (map (fun o => match o with Some d => CStr (strftime d) | None => CNaN end)
                   stamps) in
  prices <- lift (iloc_col df 4) ;;
  let df := set_col df "Price_Cleaned"
              (map (fun c => float_cell (clean_price (cell_val e c))) prices) in
  let df := set_col_const df "Latitude" CNone in
  let df := set_col_const df "Longitude" CNone in
  cache <- load_cache ;;
  addresses <- lift (get_col raw "Address") ;;
  let unique_addresses :=
    env_set_order e
      (filter (fun a => negb (bool_decide (a ∈ dict_keys cache))) (unique addresses)) in
  cache <- match unique_addresses with
           | [] => ret cache
           | _ => print (MsgProcessingUnique (length unique_addresses)) ;;;
                  geocode_loop e unique_addresses cache
           end ;;
  print MsgUpdating ;;;
  let df := set_col df "Latitude"
              (map (fun a => float_cell (fst (row_coords cache a))) addresses) in
  let df := set_col df "Longitude"
              (map (fun a => float_cell (snd (row_coords cache a))) addresses) in
  df <- lift (select df columns_to_keep) ;;
  print MsgSample ;;;
  to_csv e df output_file ;;;
  print (MsgComplete output_file).

End CsvProcessor.

(** ** csv_processor_cases.py *)
Module CsvProcessorCases.
Import PyStr Re Py Pandas World.

Definition load_cache : M dict := CsvProcessor.load_cache.
Definition save_cache : dict -> M unit := CsvProcessor.save_cache.

Definition markers : list string :=
  [ " on lands at "; " The application site consists of "; " The Lands comprise of " ].

Definition patterns_to_remove : list regex :=
  [ (* \([^)]*\) *)
    rcat [chr "("; rstar (ncls [IChar ")"]); chr ")"];
    lit "Protected Structure";
    lit "Site to the rear of";
    lit "Site to the north of";
    lit "Public grass verge";
    lit "Former";
    lit "The application site";
    (* \b[A-Z]\d{2}\s*[A-Z0-9]{4}\b *)
    rcat [RWordB; cls [IRange "A" "Z"]; rrep 2 rdigit; rstar rspace;
          rrep 4 (cls [IRange "A" "Z"; IRange "0" "9"]); RWordB];
    (* Co\.\s*Dublin *)
    rcat [lit "Co."; rstar rspace; lit "Dublin"];
    (* &\s*\.\.\. *)
    rcat [chr "&"; rstar rspace; lit "..."];
    lit "Within the curtilage of";
    (* [^,]*\b(Service Station|Public House)\b *)
    rcat [rstar (ncls [IChar ","]); RWordB;
          RGroup 1 (ralt [lit "Service Station"; lit "Public House"]); RWordB] ].

(** ([^,]+(?:Road|Street|Avenue|Lane)) *)
Definition road_pattern : regex :=
  RGroup 1 (rcat [rplus (ncls [IChar ","]);
                  ralt [lit "Road"; lit "Street"; lit "Avenue"; lit "Lane"]]).

Definition dublin_tags : list string :=
  [ "DUBLIN"; "D1"; "D2"; "D3"; "D4"; "D5"; "D6"; "D7"; "D8"; "D9" ].

Definition clean_address_for_planning (address : pyval) : string :=
  match address with
  | VStr address =>
      let address :=
        fold_left (fun address marker =>
                     if contains (lower address) (lower marker)
                     then split_head marker address else address)
                  markers address in
      let address :=
        fold_left (fun address pattern => re_sub true pattern [] address)
                  patterns_to_remove address in
      let address :=
        if contains (lower address) "junction" then
          match re_findall1 false road_pattern address with
          | [] => address
          | roads => join " and " roads
          end
        else address in
      let address := re_sub false (rplus rspace) [TLit " "] address in
      (* ,\s*, *)
      let address := re_sub false (rcat [chr ","; rstar rspace; chr ","]) [TLit ","] address in
      (* ^\s*,\s* *)
      let address := re_sub false (rcat [RBol; rstar rspace; chr ","; rstar rspace]) [] address in
      (* \s*,\s*$ *)
      let address := re_sub false (rcat [rstar rspace; chr ","; rstar rspace; REol]) [] address in
      let address :=
        if negb (existsb (fun x => contains (upper address) x) dublin_tags)
        then address ++ ", Dublin" else address in
      let address :=
        if negb (contains (upper address) "IRELAND")
        then address ++ ", Ireland" else address in
      strip address
  | _ => EmptyString
  end.

(** ([^,]+(?:Road|Street|Avenue|Lane|Rise|Park|Place|Drive|Grove|Way)) *)
Definition street_pattern : regex :=
  RGroup 1 (rcat [rplus (ncls [IChar ","]);
                  ralt [lit "Road"; lit "Street"; lit "Avenue"; lit "Lane"; lit "Rise";
                        lit "Park"; lit "Place"; lit "Drive"; lit "Grove"; lit "Way"]]).

Definition address_variants (cleaned_address : string) : list string :=
  ([ cleaned_address;
     (* re.sub(r',.*Dublin', ', Dublin', cleaned_address) *)
     re_sub false (rcat [chr ","; rstar rany; lit "Dublin"]) [TLit ", Dublin"]
            cleaned_address;
     (* re.sub with group 1 = .*? , a comma, .*? , group 2 = Dublin.* and
        the template \1, \2 *)
     re_sub false (rcat [RGroup 1 (rlazy rany); chr ","; rlazy rany;
                         RGroup 2 (rcat [lit "Dublin"; rstar rany])])
            [TGroup 1; TLit ", "; TGroup 2] cleaned_address ]
   ++ match re_search false street_pattern cleaned_address with
      | Some street_match => [ (group 1 street_match ++ ", Dublin, Ireland")%string ]
      | None => []
      end)%list.

(** 52.8 <= latitude <= 53.8 and -6.6 <= longitude <= -5.9 *)
Definition in_box (latitude longitude : float) : bool :=
  ((52.8 <=? latitude) && (latitude <=? 53.8)
   && (-6.6 <=? longitude) && (longitude <=? -5.9))%float.

Fixpoint variant_loop (e : env) (original_address : pyval)
         (todo : list string) (t : trace) : coords * trace :=
  match todo with
  | [] => ((None, None), (t ++ [EvPrint (MsgCouldNotFind original_address)])%list)
  | variant :: todo' =>
      let t1 := (t ++ [EvSleep 1])%list in
      let t2 := (t1 ++ [EvGeocode variant])%list in
      match env_geocode e t1 variant with
      | GeoLoc latitude longitude =>
          if in_box latitude longitude
          then ((Some latitude, Some longitude), t2)
          else variant_loop e original_address todo' t2
      | GeoNone => variant_loop e original_address todo' t2
      | GeoRaise _ => variant_loop e original_address todo' t2
      end
  end.

Definition get_coordinates (e : env) (address : pyval) (t : trace) : coords * trace :=
  variant_loop e address (address_variants (clean_address_for_planning address)) t.

(** A cell of a frame read with dtype=str as an address: a string, or
    missing. *)
Definition cell_key (c : cell) : key :=
  match c with CStr s => Some s | _ => None end.

Definition is_success (c : coords) : bool :=
  match fst c with Some _ => true | None => false end.

Fixpoint geocode_loop (e : env) (todo : list key) (cache : dict) (success_count : nat)
  : M (dict * nat) :=
  match todo with
  | [] => ret (cache, success_count)
  | address :: todo' =>
      if key_truthy address && negb (dict_mem address cache)
      then
        (emit (EvCall address) ;;;
         coords <- with_trace (get_coordinates e (key_val address)) ;;
         let cache := dict_set address coords cache in
         let success_count :=
           if is_success coords then S success_count else success_count in
         save_cache cache ;;;
         geocode_loop e todo' cache success_count)
      else geocode_loop e todo' cache success_count
  end.

(** [address in cache] and [cache[address]] for the cell of a row: only
    a string can be a key of the cache here. *)
Definition row_coords (cache : dict) (c : cell) : coords :=
  match c with
  | CStr s => match dict_get (Some s) cache with
              | Some cached => cached
              | None => (None, None)
              end
  | _ => (None, None)
  end.

(** [list.remove(x)] and [list.insert(i, x)]. *)
Fixpoint list_remove (x : string) (l : list string) : list string :=
  match l with
  | [] => []
  | y :: l' => if String.eqb y x then l' else y :: list_remove x l'
  end.
Definition list_insert (i : nat) (x : string) (l : list string) : list string :=
  (firstn i l ++ x :: skipn i l)%list.

Definition is_present (c : cell) : bool :=
  match c with CNaN | CNone => false | _ => true end.

Definition process_planning_cases (e : env) (input_file output_file : string)
           (max_rows : option Z) : M unit :=
  raw <- lift (env_read_csv_str e input_file) ;;
  raw <- match max_rows with
         | Some n => if (n =? 0)%Z then ret raw
                     else (print (MsgProcessingFirst n) ;;; ret (head n raw))
         | None => ret raw
         end ;;
  let df := CsvProcessor.cells_of raw in
  let df := set_col_const df "Latitude" CNone in
  let df := set_col_const df "Longitude" CNone in
  cache <- load_cache ;;
  column_b <- lift (iloc_col df 1) ;;
  let present := map cell_key (filter (fun c => is_present c) column_b) in
  let unique_addresses :=
    env_set_order e
      (filter (fun a => negb (bool_decide (a ∈ dict_keys cache))) (unique present)) in
  cache <- match unique_addresses with
           | [] => ret cache
           | _ =>
               print (MsgProcessingUnique (length unique_addresses)) ;;;
               r <- geocode_loop e unique_addresses cache 0 ;;
               print (MsgSuccessRate (snd r) (length unique_addresses)) ;;;
               ret (fst r)
           end ;;
  print MsgUpdating ;;;
  column_b <- lift (iloc_col df 1) ;;
  let df := set_col df "Latitude"
              (map (fun c => CsvProcessor.float_cell (fst (row_coords cache c))) column_b) in
  let df := set_col df "Longitude"
              (map (fun c => CsvProcessor.float_cell (snd (row_coords cache c))) column_b) in
  let names := list_remove "Longitude" (list_remove "Latitude" (columns df)) in
  let names := list_insert 11 "Longitude" (list_insert 10 "Latitude" names) in
  df <- lift (select df names) ;;
  latitudes <- lift (get_col df "Latitude") ;;
  print (MsgStatistics (nrows df) (length (filter (fun c => is_present c) latitudes))) ;;;
  print MsgSample ;;;
  (if (length (columns df) <? 12)%nat
   then throw (IndexError "positional indexers are out-of-bounds")
   else ret tt) ;;;
  to_csv e df output_file ;;;
  print (MsgComplete output_file).

End CsvProcessorCases.

(** ** merger.py *)
Module Merger.
Import PyStr Py Pandas World.

(** [Path.name]: the text after the last slash. *)
Fixpoint basename_from (acc : string) (path : string) : string :=
  match path with
  | EmptyString => acc
  | String c path' =>
      if Ascii.eqb c "/" then basename_from path' path' else basename_from acc path'
  end.
Definition basename (path : string) : string := basename_from path path.

(** The loop over the files: a file that cannot be read is reported and
    skipped. *)
Fixpoint read_all (e : env) (csv_files : list string) : M (list (frame cell)) :=
  match csv_files with
  | [] => ret []
  | file :: csv_files' =>
      match env_read_csv e file with
      | Ok df =>
          print (MsgReadOk (basename file)) ;;;
          dfs <- read_all e csv_files' ;;
          ret (df :: dfs)
      | Raise err =>
          print (MsgReadError (basename file) err) ;;;
          read_all e csv_files'
      end
  end.

Definition merge_csv_files (e : env) (input_directory output_file : string) : M bool :=
  try_except
    (csv_files <- lift (env_glob_csv e input_directory) ;;
     match csv_files with
     | [] => print (MsgNoCsvFound input_directory) ;;; ret false
     | _ =>
         print (MsgFound (length csv_files)) ;;;
         dfs <- read_all e csv_files ;;
         match dfs with
         | [] => print MsgNoFrames ;;; ret false
         | _ =>
             let merged_df := concat_rows CNaN dfs in
             to_csv e merged_df output_file ;;;
             print (MsgMerged output_file (nrows merged_df)) ;;;
             ret true
         end
     end)
    (fun err => print (MsgError err) ;;; ret false).

End Merger.

(** ** scrapping_board_na_pleanala.py *)
Module Scraper.
Import PyStr Py Pandas World.

Definition scrape_cases_from_url (e : env) (url : string) : M (list case) :=
  print (MsgScraping url) ;;;
  response <- (fun w =>
                 let r := env_http_get e (w_trace w) url in
                 (r, MkWorld (w_trace w ++ [EvHttpGet url])%list
                             (w_cache_file w) (w_csv w) (w_cases_csv w))) ;;
  if negb (fst response =? 200)%nat
  then print (MsgFetchFailed (fst response)) ;;; ret []
  else lift (env_cases_of_html e (snd response)).

Definition cases_file : string := "planning_cases_merged.csv".

(** Writing a table of cases. *)
Definition cases_to_csv (e : env) (cases : list case) (filename : string) : M unit :=
  fun w => match env_to_csv_error e filename with
           | Some err => (Raise err, w)
           | None => (Ok tt, MkWorld (w_trace w) (w_cache_file w) (w_csv w) (Some cases))
           end.

Definition save_to_csv (e : env) (cases : list case) (filename : string) : M (list case) :=
  cases_to_csv e cases filename ;;;
  print (MsgSaved (length cases) filename) ;;;
  ret cases.

Definition urls : list string :=
  [ "https://www.pleanala.ie/en-ie/cases?lodgedto=2024-11-07&decisionfrom=2023-01-01&decisionto=2023-06-01&county=6";
    "https://www.pleanala.ie/en-ie/cases?lodgedto=2024-11-07&decisionfrom=2023-06-02&decisionto=2023-09-01&county=6";
    "https://www.pleanala.ie/en-ie/cases?lodgedto=2024-11-07&decisionfrom=2023-09-02&decisionto=2024-01-01&county=6";
    "https://www.pleanala.ie/en-ie/cases?lodgedto=2024-11-07&decisionfrom=2024-01-02&decisionto=2024-06-01&county=6";
    "https://www.pleanala.ie/en-ie/cases?lodgedto=2024-11-07&decisionfrom=2024-06-02&decisionto=2024-10-01&county=6";
    "https://www.pleanala.ie/en-ie/cases?lodgedto=2024-11-07&decisionfrom=2024-10-02&decisionto=2024-11-07&county=6" ].

Fixpoint scrape_all (e : env) (todo : list string) (all_cases : list case) : M (list case) :=
  match todo with
  | [] => ret all_cases
  | url :: todo' =>
      cases <- scrape_cases_from_url e url ;;
      let all_cases := (all_cases ++ cases)%list in
      emit (EvSleep 2) ;;;
      scrape_all e todo' all_cases
  end.

Definition main (e : env) : M unit :=
  all_cases <- scrape_all e urls [] ;;
  match all_cases with
  | [] => ret tt
  | _ =>
      print (MsgTotalCases (length all_cases)) ;;;
      df <- save_to_csv e all_cases cases_file ;;
      let df_unique := drop_duplicates reference df in
      if (length df_unique <? length df)%nat
      then
        print (MsgRemoved (length df - length df_unique)) ;;;
        cases_to_csv e df_unique cases_file ;;;
        print (MsgUnique (length df_unique))
      else ret tt
  end.

End Scraper.

(** ** scrapping_board_na_pleanala.py: the details of a case *)
Module ScraperDetails.
Import PyStr Py World.

(** [s.partition(sep)] for a non-empty [sep]: the text before and the
    text after the first occurrence of [sep]. *)
Fixpoint find_sep (sep s : string) : option (string * string) :=
  if String.prefix sep s then Some (EmptyString, drop (String.length sep) s)
  else match s with
       | EmptyString => None
       | String c s' =>
           match find_sep sep s' with
           | Some (before, rest) => Some (String c before, rest)
           | None => None
           end
       end.

(** [s.split(sep)] for a non-empty [sep]: every occurrence consumes at
    least one character, so the length of [s] bounds their number. *)
Fixpoint split_fuel (fuel : nat) (sep s : string) : list string :=
  match fuel with
  | O => [s]
  | S fuel' =>
      match find_sep sep s with
      | Some (before, rest) => before :: split_fuel fuel' sep rest
      | None => [s]
      end
  end.
Definition split (sep s : string) : list string :=
  split_fuel (String.length s) sep s.

(** [parts[1]] *)
Definition index1 (parts : list string) : result string :=
  match parts with
  | _ :: part :: _ => Ok part
  | _ => Raise (IndexError "list index out of range")
  end.

(** [text.split(label)[1].strip()] *)
Definition after_label (label text : string) : result string :=
  match index1 (split label text) with
  | Ok value => Ok (strip value)
  | Raise e => Raise e
  end.

(** [case[key] = value] for the keys the spans set. *)
Definition set_reference (c : case) (v : string) : case :=
  Case (c_type c) (c_title c) v (c_status c) (c_description c) (date_lodged c)
       (date_signed c) (eiar c) (nis c) (parties c).
Definition set_status (c : case) (v : string) : case :=
  Case (c_type c) (c_title c) (reference c) v (c_description c) (date_lodged c)
       (date_signed c) (eiar c) (nis c) (parties c).
Definition set_description (c : case) (v : string) : case :=
  Case (c_type c) (c_title c) (reference c) (c_status c) v (date_lodged c)
       (date_signed c) (eiar c) (nis c) (parties c).
Definition set_date_lodged (c : case) (v : string) : case :=
  Case (c_type c) (c_title c) (reference c) (c_status c) (c_description c) v
       (date_signed c) (eiar c) (nis c) (parties c).
Definition set_date_signed (c : case) (v : string) : case :=
  Case (c_type c) (c_title c) (reference c) (c_status c) (c_description c) (date_lodged c)
       v (eiar c) (nis c) (parties c).
Definition set_eiar (c : case) (v : string) : case :=
  Case (c_type c) (c_title c) (reference c) (c_status c) (c_description c) (date_lodged c)
       (date_signed c) v (nis c) (parties c).
Definition set_nis (c : case) (v : string) : case :=
  Case (c_type c) (c_title c) (reference c) (c_status c) (c_description c) (date_lodged c)
       (date_signed c) (eiar c) v (parties c).

Definition set_after (set : case -> string -> case) (c : case) (label text : string)
  : result case :=
  match after_label label text with
  | Ok value => Ok (set c value)
  | Raise e => Raise e
  end.

(** The body of the loop over the details spans of a case: the first
    label found in the text of the span decides which key is set. *)
Definition read_details_span (c : case) (span_text : string) : result case :=
  let text := strip span_text in
  if contains text "Case reference:" then set_after set_reference c "Case reference:" text
  else if contains text "Status:" then set_after set_status c "Status:" text
  else if contains text "Description:" then set_after set_description c "Description:" text
  else if contains text "Date lodged:" then
    let date_parts := split ";" text in
    match (match date_parts with
           | part :: _ => set_after set_date_lodged c "Date lodged:" part
           | [] => Ok c
           end) with
    | Raise e => Raise e
    | Ok c =>
        match date_parts with
        | _ :: part :: _ => set_after set_date_signed c "Signed:" part
        | _ => Ok c
        end
    end
  else if contains text "EIAR:" then set_after set_eiar c "EIAR:" text
  else if contains text "NIS:" then set_after set_nis c "NIS:" text
  else Ok c.

(** The loop: an exception of one span ends it. *)
Fixpoint read_details_spans (c : case) (spans : list string) : result case :=
  match spans with
  | [] => Ok c
  | span_text :: spans' =>
      match read_details_span c span_text with
      | Ok c' => read_details_spans c' spans'
      | Raise e => Raise e
      end
  end.

End ScraperDetails.

(** * Properties *)

Import PyStr Re Py Pandas World.

(** ** Vocabulary of the statements *)

(** The last character of a text, and the first, satisfies [p]. *)
Fixpoint last_is (p : ascii -> bool) (t : string) : bool :=
  match t with
  | EmptyString => false
  | String c EmptyString => p c
  | String _ t' => last_is p t'
  end.

Definition first_is (p : ascii -> bool) (t : string) : bool :=
  match t with EmptyString => false | String c _ => p c end.

(** A key made of characters that stand for themselves under IGNORECASE:
    no lower-case letter and no dot. *)
Definition plain_char (k : ascii) : bool := negb (is_lower k) && negb (Ascii.eqb k ".").






(** The first letters of the keys of the area table. *)
Definition is_head (x : ascii) : bool :=
  let u := upper_char x in Ascii.eqb u "B" || Ascii.eqb u "C" || Ascii.eqb u "D".

Definition word_start (prev : option ascii) (x : ascii) : bool :=
  negb (is_word_opt prev) && is_word x.

(** No word of [s] begins with B, C or D in either case, [prev] being the
    character before [s]. *)
Fixpoint quiet (prev : option ascii) (s : string) : bool :=
  match s with
  | EmptyString => true
  | String x s' => negb (word_start prev x && is_head x) && quiet (Some x) s'
  end.

Definition add_pre (pre : string) (m : mres) : mres :=
  MRes (pre ++ m_pre m) (m_text m) (m_prev m) (m_rest m) (m_caps m).




(** The results of the rewrites that do not raise, in order. *)
Fixpoint rewrites {A} (rewrite_of : A -> option string) (l : list A) : list string :=
match l with
| [] => []
| a :: l' =>
    match rewrite_of a with
    | Some q => q :: rewrites rewrite_of l'
    | None => rewrites rewrite_of l'
    end
end.

(** The queries of csv_processor.get_coordinates. *)
Definition queries (address : pyval) : list string :=
rewrites (fun modifier => modifier (CsvProcessor.clean_address address)) CsvProcessor.tries.

(** Every geocoder call comes right after a one-second sleep. *)
Fixpoint paced (after_sleep : bool) (evs : list event) : bool :=
match evs with
| [] => true
| EvGeocode _ :: evs' => after_sleep && paced false evs'
| EvSleep n :: evs' => paced (n =? 1)%nat evs'
| _ :: evs' => paced false evs'
end.

(** Between two HTTP requests there is a two-second sleep: [gap] follows
    the events with a flag that is set by a request and cleared by such a
    sleep, and fails when a request finds the flag set. *)
Fixpoint gap (pending : bool) (evs : list event) : option bool :=
match evs with
| [] => Some pending
| EvHttpGet _ :: evs' => if pending then None else gap true evs'
| EvSleep n :: evs' => gap (pending && negb (n =? 2)%nat) evs'
| _ :: evs' => gap pending evs'
end.

Definition spaced (evs : list event) : bool :=
match gap false evs with Some _ => true | None => false end.

(** [c] takes every world to a world related to it by [R], whatever it
    returns. *)
Definition keeps (R : world -> world -> Prop) {A} (c : M A) : Prop :=
forall w, R w (snd (c w)).

(** The trace only grows, by events that satisfy [P]. *)
Definition grows (P : list event -> Prop) (w w' : world) : Prop :=
exists new, w_trace w' = (w_trace w ++ new)%list /\ P new.

Definition paced_growth : world -> world -> Prop :=
grows (fun new => paced false new = true).

(** Events that are no request and no sleep leave the flag alone. *)
Definition silent (new : list event) : Prop := forall p, gap p new = Some p.

Definition silent_growth : world -> world -> Prop := grows silent.

(** The frames of the files that can be read, in order. *)
Fixpoint readable (e : env) (csv_files : list string) : list (frame cell) :=
match csv_files with
| [] => []
| file :: csv_files' =>
    match env_read_csv e file with
    | Ok df => df :: readable e csv_files'
    | Raise _ => readable e csv_files'
    end
end.

(** What the loop prints for a file. *)
Definition read_report (e : env) (file : string) : event :=
match env_read_csv e file with
| Ok _ => EvPrint (MsgReadOk (Merger.basename file))
| Raise err => EvPrint (MsgReadError (Merger.basename file) err)
end.

(** The world after printing. *)
Definition logged (w : world) (evs : list event) : world :=
MkWorld (w_trace w ++ evs)%list (w_cache_file w) (w_csv w) (w_cases_csv w).

(** The first row of a list that carries a given reference. *)
Definition first_with {R} (field : R -> string) (ref : string) (l : list R) : option R :=
find (fun r => String.eqb (field r) ref) l.

(** An environment for examples: a web server that answers every request
    with status 200 and a parser that finds the same two cases, with one
    reference, on every page. *)
Definition sample_case (title : string) : case :=
Case "Appeal" title "ABP-300000-23" "Decided" "" "01/02/2023" "" "" "" "".

Definition repeating_env : env :=
Env (fun _ _ => GeoNone)
    (fun _ => Raise (OSError "no such file"))
    (fun _ => Raise (OSError "no such file"))
    (fun _ => None)
    (fun _ => "nan")
    (fun _ => None)
    (fun l => l)
    (fun _ => Ok [])
    (fun _ url => Ok (200%nat, url))
    (fun _ => Ok [sample_case "first"; sample_case "second"]).

Definition empty_world : world := MkWorld [] NoFile [] None.

Local Open Scope list_scope.

(** The mapping [load_cache] returns in a world whose cache file is
    readable. *)
Definition loaded (w : world) : dict :=
match w_cache_file w with
| Json members => json_load members
| _ => []
end.

(** The contents written by the [save_cache] calls of a trace, in order. *)
Fixpoint saved_contents (evs : list event) : list (list (string * coords)) :=
match evs with
| [] => []
| EvSaveCache content :: evs' => content :: saved_contents evs'
| _ :: evs' => saved_contents evs'
end.

(** The raw addresses [get_coordinates] was called with, in order. *)
Fixpoint call_log (evs : list event) : list key :=
match evs with
| [] => []
| EvCall address :: evs' => address :: call_log evs'
| _ :: evs' => call_log evs'
end.

(** The files written while [added] is appended, entry by entry, to
    [cache]: each is the dump of the whole mapping at that time. *)
Fixpoint snapshots (cache added : dict) : list (list (string * coords)) :=
match added with
| [] => []
| entry :: added' =>
    json_dump (cache ++ [entry]) :: snapshots (cache ++ [entry])%list added'
end.

(** Events that are neither a save nor a call. *)
Definition unrecorded (evs : list event) : Prop :=
saved_contents evs = [] /\ call_log evs = [].

(** What a geocoding loop does to the cache and to the world: it appends
    entries for fresh keys, saving the whole mapping after each. *)
Record loop_run (todo : list key) (cache : dict) (w : world)
       (cache' : dict) (w' : world) (added : dict) (new : list event) : Prop := LoopRun {
  run_cache : cache' = cache ++ added;
  run_trace : w_trace w' = w_trace w ++ new;
  run_file : w_cache_file w' =
             match added with
             | [] => w_cache_file w
             | _ => Json (json_dump (cache ++ added))
             end;
  run_csv : w_csv w' = w_csv w;
  run_cases : w_cases_csv w' = w_cases_csv w;
  run_saves : saved_contents new = snapshots cache added;
  run_calls : call_log new = dict_keys added;
  run_nodup : NoDup (dict_keys added);
  run_fresh : forall k, k ∈ dict_keys added ->
                (k ∉ dict_keys cache) /\ k ∈ todo /\ key_truthy k = true;
  run_covers : forall k, k ∈ todo -> key_truthy k = true ->
                 dict_mem k (cache ++ added) = true }.

(** [Q] holds of the result and the final world of [c] started in [w]. *)
Definition wp {A} (c : M A) (Q : result A -> world -> Prop) (w : world) : Prop :=
Q (fst (c w)) (snd (c w)).

(** The trace grows by events that are neither a save nor a call, and the
    cache file stays as it is. *)
Definition quietly (w w' : world) : Prop :=
exists new, w_trace w' = w_trace w ++ new /\ unrecorded new
            /\ w_cache_file w' = w_cache_file w.


(** The addresses left to geocode, as the pipeline computes them. *)
Definition pending (e : env) (cache : dict) (addresses : list key) : list key :=
env_set_order e
  (filter (fun a => negb (bool_decide (a ∈ dict_keys cache))) (unique addresses)).

(** What a completed run of [process_csv] leaves behind. *)
Inductive csv_run (e : env) (w : world) (output_file : string) (w' : world) : Prop :=
| CsvRun (addresses : list key) (cache' added : dict) (new : list event) (out : frame cell)
    (cr_trace : w_trace w' = w_trace w ++ new)
    (cr_calls : call_log new = dict_keys added)
    (cr_cache : cache' = loaded w ++ added)
    (cr_nodup : NoDup (dict_keys added))
    (cr_fresh : forall k, k ∈ dict_keys added ->
                  (k ∉ dict_keys (loaded w)) /\ key_truthy k = true)
    (cr_covers : forall k, k ∈ pending e (loaded w) addresses -> key_truthy k = true ->
                   dict_mem k cache' = true)
    (cr_file : w_cache_file w' =
               match added with
               | [] => w_cache_file w
               | _ => Json (json_dump cache')
               end)
    (cr_csv : w_csv w' = (output_file, out) :: w_csv w)
    (cr_addr : lookup_col (cols out) "Address" = Some (map cell_of_key addresses))
    (cr_lat : lookup_col (cols out) "Latitude"
              = Some (map (fun a => CsvProcessor.float_cell
                                      (fst (CsvProcessor.row_coords cache' a))) addresses))
    (cr_lon : lookup_col (cols out) "Longitude"
              = Some (map (fun a => CsvProcessor.float_cell
                                      (snd (CsvProcessor.row_coords cache' a))) addresses)).

(** Quiet, and no file written. *)
Definition calmly (w w' : world) : Prop :=
quietly w w' /\ w_csv w' = w_csv w.

(** The cells of a column of a written file. *)
Definition column (name : string) (df : frame cell) : list cell :=
match lookup_col (cols df) name with
| Some l => l
| None => []
end.

(** A computation runs to completion, and the world it leaves. *)
Definition completes {A} (c : M A) (w : world) : Prop := is_ok (fst (c w)) = true.
Definition after {A} (c : M A) (w : world) : world := snd (c w).

(** A register of two sales, the first at an address the cache holds. *)
Definition sales : frame key :=
Frame [0%nat; 1%nat]
  [ (CsvProcessor.date_column, [Some "03/01/2020"; Some "17/02/2020"]);
    ("Address", [Some "1 Main Street, Dublin 4"; Some "2 High Street, Dublin 8"]);
    ("County", [Some "Dublin"; Some "Dublin"]);
    ("Eircode", [None; None]);
    ("Price", [Some "350,000.00"; Some "410,000.00"]);
    ("Not Full Market Price", [Some "No"; Some "No"]);
    ("VAT Exclusive", [Some "No"; Some "Yes"]);
    ("Description of Property",
     [Some "Second-Hand Dwelling house /Apartment"; Some "New Dwelling house /Apartment"]);
    ("Property Size Description", [None; None]) ].

Definition sales_env : env :=
Env (fun _ _ => GeoLoc 53.5 (-6.25))
    (fun _ => Ok sales)
    (fun _ => Raise (OSError "no such file"))
    (fun _ => Some (Date 2020 1 3))
    (fun _ => "nan")
    (fun _ => None)
    (fun l => l)
    (fun _ => Ok [])
    (fun _ url => Ok (200%nat, url))
    (fun _ => Ok []).

Definition cached_world : world :=
MkWorld [] (Json [("1 Main Street, Dublin 4", (Some 53.25%float, Some (-6.125)%float))]) [] None.

(** The same environment with another geocoder. *)
Definition with_geocoder (g : trace -> string -> geo_reply) (e : env) : env :=
Env g (env_read_csv_str e) (env_read_csv e) (env_to_datetime e) (env_float_repr e)
    (env_to_csv_error e) (env_set_order e) (env_glob_csv e) (env_http_get e)
    (env_cases_of_html e).

(** A geocoder that raises at every call. *)
Definition raising (failure : trace -> string -> exn) (e : env) : env :=
with_geocoder (fun t q => GeoRaise (failure t q)) e.

(** An environment whose geocoder times out at every request. *)
Definition timed_out_env : env :=
with_geocoder (fun _ _ => GeoRaise (GeocoderTimedOut "timed out")) repeating_env.

(** The cache file can be loaded: it is absent or holds JSON. *)
Definition cache_readable (w : world) : bool :=
match w_cache_file w with Corrupt _ => false | _ => true end.

(** Two computations side by side: [Q] relates their results and final
    worlds. *)
Definition wp2 {A B} (c1 : M A) (c2 : M B)
           (Q : result A -> world -> result B -> world -> Prop) (w1 w2 : world) : Prop :=
Q (fst (c1 w1)) (snd (c1 w1)) (fst (c2 w2)) (snd (c2 w2)).

(** Both raise or both return. *)
Definition same_outcome {A B} (r1 : result A) (r2 : result B) : Prop :=
is_ok r1 = is_ok r2.

(** Every key of a mapping is a text. *)
Definition text_keys (d : dict) : Prop := forall k, k ∈ dict_keys d -> is_Some k.

(** The queries sent to the geocoder, in order. *)
Fixpoint requests (evs : list event) : list string :=
match evs with
| [] => []
| EvGeocode q :: evs' => q :: requests evs'
| _ :: evs' => requests evs'
end.

(** How often a lookup was reported as without result. *)
Fixpoint not_found_reports (evs : list event) : nat :=
match evs with
| [] => 0
| EvPrint (MsgCouldNotFind _) :: evs' => S (not_found_reports evs')
| _ :: evs' => not_found_reports evs'
end.

(** How often an exception of the geocoder was printed. *)
Fixpoint failure_reports (evs : list event) : nat :=
match evs with
| [] => 0
| EvPrint (MsgFailedGeocode _ _) :: evs' => S (failure_reports evs')
| _ :: evs' => failure_reports evs'
end.

Definition is_null (c : coords) : bool :=
match c with (None, None) => true | _ => false end.

(** What a lookup that started in trace [t] and sent [sent] out of the
    planned [planned] leaves: the requests are the first of the plan, all
    of it when the lookup gave up, and giving up is reported once. *)
Definition lookup_log (t : trace) (planned : list string) (r : coords * trace) : Prop :=
exists sent rest,
  requests (snd r) = requests t ++ sent
  /\ planned = sent ++ rest
  /\ (is_null (fst r) = true -> rest = [])
  /\ not_found_reports (snd r)
     = not_found_reports t + (if is_null (fst r) then 1 else 0).

(** [if max_rows: df = df.head(max_rows)] *)
Definition limited {A} (max_rows : option Z) (df : frame A) : frame A :=
match max_rows with
| Some n => if (n =? 0)%Z then df else head n df
| None => df
end.

(** The steps of a run of [process_csv] that completes: the input read,
    the addresses of the rows kept, the world before and after the
    geocoding loop, and the file written. *)
Inductive csv_trail (e : env) (input_file output_file : string) (max_rows : option Z)
          (w w' : world) : Prop :=
| CsvTrail (raw : frame key) (addresses : list key) (w1 w2 : world)
    (cache' added : dict) (new : list event) (out : frame cell)
    (ct_read : env_read_csv_str e input_file = Ok raw)
    (ct_addresses : get_col (limited max_rows raw) "Address" = Ok addresses)
    (ct_before : calmly w w1)
    (ct_loop : loop_run (pending e (loaded w) addresses) (loaded w) w1 cache' w2 added new)
    (ct_columns : columns out = CsvProcessor.columns_to_keep)
    (ct_address : column "Address" out = map cell_of_key addresses)
    (ct_latitude : column "Latitude" out
                   = map (fun a => CsvProcessor.float_cell
                                     (fst (CsvProcessor.row_coords cache' a))) addresses)
    (ct_longitude : column "Longitude" out
                    = map (fun a => CsvProcessor.float_cell
                                      (snd (CsvProcessor.row_coords cache' a))) addresses)
    (ct_after : w' = MkWorld (w_trace w2 ++ [EvPrint MsgUpdating; EvPrint MsgSample;
                                             EvPrint (MsgComplete output_file)])
                             (w_cache_file w2) ((output_file, out) :: w_csv w2)
                             (w_cases_csv w2)).

(** [df.head(n)] keeps the first [n] rows, or drops the last [-n]; no
    limit is applied for None and for 0. *)
Definition rows_kept (max_rows : option Z) (total : nat) : option nat :=
match max_rows with
| None => None
| Some n =>
    if (n =? 0)%Z then None
    else Some (if (0 <=? n)%Z then Z.to_nat n else total - Z.to_nat (- n))
end.

Definition first_rows {A} (k : option nat) (l : list A) : list A :=
match k with Some k => firstn k l | None => l end.

(** A register with a sale whose address is missing. *)
Definition sales_missing : frame key :=
Frame [0%nat]
  [ (CsvProcessor.date_column, [Some "03/01/2020"]);
    ("Address", [None]);
    ("County", [Some "Dublin"]);
    ("Eircode", [None]);
    ("Price", [Some "350,000.00"]);
    ("Not Full Market Price", [Some "No"]);
    ("VAT Exclusive", [Some "No"]);
    ("Description of Property", [Some "Second-Hand Dwelling house /Apartment"]);
    ("Property Size Description", [None]) ].

Definition sales_missing_env : env :=
Env (fun _ _ => GeoNone)
    (fun _ => Ok sales_missing)
    (fun _ => Raise (OSError "no such file"))
    (fun _ => Some (Date 2020 1 3))
    (fun _ => "nan")
    (fun _ => None)
    (fun l => l)
    (fun _ => Ok [])
    (fun _ url => Ok (200%nat, url))
    (fun _ => Ok []).

(** A cache file as a run over [sales_missing] leaves it. *)
Definition nan_world : world :=
MkWorld [] (Json [("NaN", (None, None))]) [] None.

(** A planning file as the scraper writes it: ten columns, the title
    (the address) second. *)
Definition planning_file : frame key :=
Frame [0%nat]
  [ ("type", [Some "Appeal"]);
    ("title", [Some "12 Main Street, Swords"]);
    ("reference", [Some "ABP-300000-23"]);
    ("status", [Some "Decided"]);
    ("description", [None]);
    ("date_lodged", [Some "01/02/2023"]);
    ("date_signed", [None]);
    ("eiar", [None]);
    ("nis", [None]);
    ("parties", [None]) ].

Definition planning_env : env :=
Env (fun _ _ => GeoLoc 53.5 (-6.25))
    (fun _ => Ok planning_file)
    (fun _ => Raise (OSError "no such file"))
    (fun _ => None)
    (fun _ => "nan")
    (fun _ => None)
    (fun l => l)
    (fun _ => Ok [])
    (fun _ url => Ok (200%nat, url))
    (fun _ => Ok []).

(** Every column of a frame has one cell per row. *)
Definition rectangular {A} (df : frame A) : Prop :=
Forall (fun cl => length (snd cl) = nrows df) (cols df).

(** Two files with different columns. *)
Definition price_file : frame cell :=
Frame [0%nat; 1%nat] [("Address", [CStr "1 Main Street"; CStr "2 High Street"]);
                      ("Price", [CStr "100"; CStr "200"])].

Definition county_file : frame cell :=
Frame [0%nat] [("Address", [CStr "3 Low Road"]); ("County", [CStr "Dublin"])].

Definition merge_env : env :=
Env (fun _ _ => GeoNone)
    (fun _ => Raise (OSError "no such file"))
    (fun path => if String.eqb path "data/a.csv" then Ok price_file
                 else if String.eqb path "data/b.csv" then Ok county_file
                 else Raise (OSError "unreadable"))
    (fun _ => None)
    (fun _ => "nan")
    (fun _ => None)
    (fun l => l)
    (fun _ => Ok ["data/a.csv"; "data/broken.csv"; "data/b.csv"])
    (fun _ url => Ok (200%nat, url))
    (fun _ => Ok []).

(** The URLs requested, in order. *)
Fixpoint http_requests (evs : list event) : list string :=
match evs with
| [] => []
| EvHttpGet url :: evs' => url :: http_requests evs'
| _ :: evs' => http_requests evs'
end.

(** A server that cannot be reached. *)
Definition offline_env : env :=
Env (fun _ _ => GeoNone)
    (fun _ => Raise (OSError "no such file"))
    (fun _ => Raise (OSError "no such file"))
    (fun _ => None)
    (fun _ => "nan")
    (fun _ => None)
    (fun l => l)
    (fun _ => Ok [])
    (fun _ _ => Raise (OSError "connection refused"))
    (fun _ => Ok []).

(** A template made of literal texts over the characters [P]. *)
Fixpoint literal (P : ascii -> bool) (tpl : list titem) : bool :=
match tpl with
| nil => true
| TLit s :: tpl' => forall_str P s && literal P tpl'
| TGroup _ :: _ => false
end.

(** Any character but the lower-case d. *)
Definition not_small_d (c : ascii) : bool := negb (Ascii.eqb c "d").

Definition not_colon (c : ascii) : bool := negb (Ascii.eqb c ":").
Definition not_semicolon (c : ascii) : bool := negb (Ascii.eqb c ";").

(** What a run did about lookups: every call of [get_coordinates] is for
    another address, one that is not empty and was not in the cache at the
    start, and the cache file was written once per call. *)
Definition looked_up (w w' : world) : Prop :=
exists new,
  w_trace w' = w_trace w ++ new
  /\ NoDup (call_log new)
  /\ length (saved_contents new) = length (call_log new)
  /\ forall k, k ∈ call_log new -> key_truthy k = true /\ k ∉ dict_keys (loaded w).

Local Open Scope string_scope.

(** ** Proofs *)

(** ** Strings *)
Section StringFacts.

Lemma str_app_cons (c : ascii) (s t : string) : String c s ++ t = String c (s ++ t).
Proof. reflexivity. Qed.

Lemma str_app_nil_l (t : string) : "" ++ t = t.
Proof. reflexivity. Qed.

Lemma str_length_app (s t : string) :
  String.length (s ++ t) = (String.length s + String.length t)%nat.
Proof.
  induction s as [|c s IH]; [reflexivity|].
  rewrite str_app_cons. simpl. now rewrite IH.
Qed.

Lemma str_app_empty_r (s : string) : s ++ "" = s.
Proof.
  induction s as [|c s IH]; [reflexivity|].
  rewrite str_app_cons. now rewrite IH.
Qed.

Lemma str_app_assoc (s t u : string) : (s ++ t) ++ u = s ++ (t ++ u).
Proof.
  induction s as [|c s IH]; [reflexivity|].
  rewrite !str_app_cons. now rewrite IH.
Qed.

End StringFacts.

(** *** Removing the characters of a class *)
Section RemoveClass.





End RemoveClass.

Section CleanPrice.
Import CsvProcessor.




End CleanPrice.

(** ** Case conversion and substrings *)
Section CaseFacts.

Lemma upper_char_idem (c : ascii) : upper_char (upper_char c) = upper_char c.
Proof. destruct c as [[] [] [] [] [] [] [] []]; reflexivity. Qed.

Lemma upper_lower_char (c : ascii) : upper_char (lower_char c) = upper_char c.
Proof. destruct c as [[] [] [] [] [] [] [] []]; reflexivity. Qed.

Lemma is_space_upper_char (c : ascii) : is_space (upper_char c) = is_space c.
Proof. destruct c as [[] [] [] [] [] [] [] []]; reflexivity. Qed.

Lemma upper_title_from (b : bool) (s : string) : upper (title_from b s) = upper s.
Proof.
  revert b. induction s as [|c s IH]; intros b; [reflexivity|].
  unfold upper in *. cbn [title_from map_str]. rewrite IH.
  destruct b; now rewrite ?upper_lower_char, ?upper_char_idem.
Qed.

Lemma upper_app (s t : string) : upper (s ++ t) = upper s ++ upper t.
Proof.
  unfold upper. induction s as [|c s IH]; [reflexivity|].
  rewrite str_app_cons. cbn [map_str]. now rewrite IH, str_app_cons.
Qed.

Lemma prefix_nil (s : string) : String.prefix "" s = true.
Proof. now destruct s. Qed.

Lemma prefix_map (f : ascii -> ascii) (t s : string) :
  String.prefix t s = true -> String.prefix (map_str f t) (map_str f s) = true.
Proof.
  revert s. induction t as [|c t IH]; intros s H; [apply prefix_nil|].
  destruct s as [|d s]; [discriminate|].
  cbn [String.prefix] in H. cbn [map_str String.prefix].
  destruct (ascii_dec c d) as [->|]; [|discriminate].
  destruct (ascii_dec (f d) (f d)); [now apply IH | congruence].
Qed.

Lemma contains_map (f : ascii -> ascii) (s t : string) :
  contains s t = true -> contains (map_str f s) (map_str f t) = true.
Proof.
  induction s as [|c s IH]; cbn [contains map_str]; intros H.
  - rewrite orb_false_r in H |- *. now apply (prefix_map f t "").
  - apply orb_true_iff in H as [H|H].
    + apply (prefix_map f) in H. cbn [map_str] in H. now rewrite H.
    + rewrite IH by assumption. apply orb_true_r.
Qed.

Lemma prefix_refl_app (t u : string) : String.prefix t (t ++ u) = true.
Proof.
  induction t as [|c t IH]; [apply prefix_nil|].
  rewrite str_app_cons. cbn [String.prefix].
  destruct (ascii_dec c c); [exact IH | congruence].
Qed.

Lemma contains_app_r (s u t : string) :
  contains u t = true -> contains (s ++ u) t = true.
Proof.
  intros H. induction s as [|c s IH]; [exact H|].
  rewrite str_app_cons. cbn [contains]. rewrite IH. apply orb_true_r.
Qed.

Lemma contains_self (t : string) : contains t t = true.
Proof.
  destruct t as [|c t]; [reflexivity|].
  cbn [contains]. rewrite <- (str_app_empty_r (String c t)) at 2.
  now rewrite prefix_refl_app.
Qed.

Lemma contains_suffix (s t : string) : contains (s ++ t) t = true.
Proof. apply contains_app_r, contains_self. Qed.

Lemma contains_lstrip (s t : string) :
  first_is (fun c => negb (is_space c)) t = true ->
  contains s t = true -> contains (lstrip s) t = true.
Proof.
  intros Ht. induction s as [|c s IH]; [trivial|].
  cbn [lstrip]. destruct (is_space c) eqn:Hc; [|trivial].
  cbn [contains]. intros H. apply orb_true_iff in H as [H|H]; [|auto].
  destruct t as [|d t]; [discriminate|].
  cbn [String.prefix first_is] in *.
  destruct (ascii_dec d c) as [->|]; [|discriminate].
  now rewrite Hc in Ht.
Qed.

Lemma contains_nonempty (s t : string) :
  contains s t = true -> t <> "" -> s <> "".
Proof. intros H Ht ->. destruct t; [congruence|discriminate]. Qed.

Lemma prefix_rstrip (t s : string) :
  last_is (fun c => negb (is_space c)) t = true ->
  String.prefix t s = true -> String.prefix t (rstrip s) = true.
Proof.
  revert s. induction t as [|c t IH]; intros s Ht H; [discriminate|].
  destruct s as [|d s]; [discriminate|].
  cbn [String.prefix] in H.
  destruct (ascii_dec c d) as [->|]; [|discriminate].
  cbn [rstrip]. destruct t as [|c' t'].
  - cbn [last_is] in Ht. apply negb_true_iff in Ht.
    destruct (rstrip s); rewrite ?Ht; cbn [String.prefix];
      destruct (ascii_dec d d); congruence.
  - assert (Hr : String.prefix (String c' t') (rstrip s) = true) by now apply IH.
    destruct (rstrip s) as [|e r]; [discriminate|].
    cbn [String.prefix]. destruct (ascii_dec d d); [exact Hr | congruence].
Qed.

Lemma contains_rstrip (s t : string) :
  last_is (fun c => negb (is_space c)) t = true ->
  contains s t = true -> contains (rstrip s) t = true.
Proof.
  intros Ht. assert (Hne : t <> "") by (intros ->; discriminate).
  induction s as [|c s IH]; [trivial|].
  cbn [contains]. intros H. apply orb_true_iff in H as [H|H].
  - apply (prefix_rstrip _ _ Ht) in H.
    destruct (rstrip (String c s)); cbn [contains]; now rewrite H.
  - specialize (IH H). pose proof (contains_nonempty _ _ IH Hne) as Hr.
    cbn [rstrip]. destruct (rstrip s) as [|e r]; [congruence|].
    cbn [contains] in *. rewrite IH. apply orb_true_r.
Qed.

Lemma contains_strip (s t : string) :
  first_is (fun c => negb (is_space c)) t = true ->
  last_is (fun c => negb (is_space c)) t = true ->
  contains s t = true -> contains (strip s) t = true.
Proof.
  intros H1 H2 H. unfold strip. now apply contains_rstrip, contains_lstrip.
Qed.

Lemma upper_lstrip (s : string) : upper (lstrip s) = lstrip (upper s).
Proof.
  unfold upper. induction s as [|c s IH]; [reflexivity|].
  cbn [lstrip map_str]. rewrite is_space_upper_char.
  now destruct (is_space c).
Qed.

Lemma upper_rstrip (s : string) : upper (rstrip s) = rstrip (upper s).
Proof.
  unfold upper. induction s as [|c s IH]; [reflexivity|].
  cbn [rstrip map_str]. rewrite <- IH, is_space_upper_char.
  destruct (rstrip s); cbn [map_str]; [now destruct (is_space c)|reflexivity].
Qed.

Lemma upper_strip (s : string) : upper (strip s) = strip (upper s).
Proof. unfold strip. now rewrite upper_rstrip, upper_lstrip. Qed.

End CaseFacts.

Section CountrySuffix.





End CountrySuffix.

(** ** Whole-word, case-insensitive keys *)

Section WordKeys.

Lemma is_word_upper_char (c : ascii) : is_word (upper_char c) = is_word c.
Proof. destruct c as [[] [] [] [] [] [] [] []]; reflexivity. Qed.

Lemma cset_ic_char (k x : ascii) :
  is_lower k = false ->
  cset_match true (CSet false [IChar k]) x = Ascii.eqb k (upper_char x).
Proof.
  intros Hk. unfold cset_match, item_match, item_base. cbn [existsb xorb andb].
  rewrite orb_false_r.
  destruct (Ascii.eqb_spec k (upper_char x)) as [->|Hu].
  - destruct x as [[] [] [] [] [] [] [] []]; try reflexivity; discriminate Hk.
  - destruct (Ascii.eqb_spec k x) as [->|Hx].
    + destruct x as [[] [] [] [] [] [] [] []];
        first [discriminate Hk | now destruct Hu].
    + destruct (Ascii.eqb_spec k (lower_char x)) as [->|Hl]; [|reflexivity].
      destruct x as [[] [] [] [] [] [] [] []];
        first [discriminate Hk | now destruct Hx | now destruct Hu].
Qed.


Lemma plain_char_inv (k : ascii) :
  plain_char k = true -> is_lower k = false /\ Ascii.eqb k "." = false.
Proof.
  unfold plain_char. intros H. apply andb_true_iff in H as [H1 H2].
  now apply negb_true_iff in H1, H2.
Qed.

(** The pattern of a key cannot match where no word beginning with the
    key's first letter starts. *)
Lemma match_at_head_fail (k0 : ascii) (K' : string) (ma : bool)
      (prev : option ascii) (x : ascii) (s' : string) :
  plain_char k0 = true -> is_word k0 = true ->
  word_start prev x && Ascii.eqb k0 (upper_char x) = false ->
  match_at true (CsvProcessor.word_pattern (String k0 K')) ma prev (String x s') = None.
Proof.
  intros Hk Hw Hx. destruct (plain_char_inv _ Hk) as [Hlow Hdot].
  unfold match_at, CsvProcessor.word_pattern, rcat. cbn [rmatch next_char is_word_opt].
  destruct (xorb (is_word_opt prev) (is_word x)) eqn:Hb; [|reflexivity].
  cbn [CsvProcessor.interpolated]. rewrite Hdot.
  assert (Hc : Ascii.eqb k0 (upper_char x) = false).
  { destruct (Ascii.eqb_spec k0 (upper_char x)) as [->|]; [|reflexivity].
    rewrite is_word_upper_char in Hw. rewrite Hw in Hb.
    unfold word_start in Hx. rewrite Hw in Hx.
    destruct (is_word_opt prev); [discriminate Hb|].
    rewrite ?Ascii.eqb_refl in Hx. discriminate Hx. }
  destruct K'; unfold chr; cbn [rmatch]; rewrite cset_ic_char, Hc by assumption;
    reflexivity.
Qed.

Lemma match_at_word_empty (k0 : ascii) (K' : string) (ma : bool) (prev : option ascii) :
  plain_char k0 = true ->
  match_at true (CsvProcessor.word_pattern (String k0 K')) ma prev "" = None.
Proof.
  intros Hk. destruct (plain_char_inv _ Hk) as [Hlow Hdot].
  unfold match_at, CsvProcessor.word_pattern, rcat. cbn [rmatch].
  destruct (xorb _ _); [|reflexivity].
  cbn [CsvProcessor.interpolated]. rewrite Hdot.
  destruct K'; reflexivity.
Qed.

End WordKeys.

Section SearchKeys.

Lemma add_pre_nil (o : option mres) : option_map (add_pre "") o = o.
Proof. destruct o as [[]|]; reflexivity. Qed.

Lemma head_not_here (k0 : ascii) (prev : option ascii) (x : ascii) :
  plain_char k0 = true -> is_head k0 = true ->
  negb (word_start prev x && is_head x) = true ->
  word_start prev x && Ascii.eqb k0 (upper_char x) = false.
Proof.
  intros Hk Hh Hq. destruct (plain_char_inv _ Hk) as [Hlow _].
  destruct (Ascii.eqb_spec k0 (upper_char x)) as [E|]; [|apply andb_false_r].
  assert (Hx : is_head x = true).
  { unfold is_head in *. unfold upper_char at 1 2 3 in Hh. rewrite Hlow in Hh.
    now rewrite <- E. }
  rewrite Hx, andb_true_r in Hq. apply negb_true_iff in Hq.
  now rewrite Hq.
Qed.

(** Searching skips a text in which no word begins with a head letter. *)
Lemma search_quiet (k0 : ascii) (K' : string) (s rest : string) :
  plain_char k0 = true -> is_word k0 = true -> is_head k0 = true ->
  forall ma prev,
    quiet prev s = true ->
    search_from true (CsvProcessor.word_pattern (String k0 K')) ma prev (s ++ rest) =
    option_map (add_pre s)
      (search_from true (CsvProcessor.word_pattern (String k0 K'))
                   (ma && match s with EmptyString => true | _ => false end)
                   (last_char prev s) rest).
Proof.
  intros Hk Hw Hh. induction s as [|x s' IH]; intros ma prev Hq.
  - rewrite str_app_nil_l, andb_true_r, add_pre_nil. reflexivity.
  - cbn [quiet] in Hq. apply andb_true_iff in Hq as [Hx Hq].
    rewrite str_app_cons. cbn [search_from last_char].
    rewrite match_at_head_fail by (try assumption; now apply head_not_here).
    rewrite (IH false (Some x) Hq), andb_false_r. cbn [andb].
    destruct (search_from _ _ _ _ rest) as [m|]; reflexivity.
Qed.

Lemma search_quiet_all (k0 : ascii) (K' : string) (s : string) (ma : bool)
      (prev : option ascii) :
  plain_char k0 = true -> is_word k0 = true -> is_head k0 = true ->
  quiet prev s = true ->
  search_from true (CsvProcessor.word_pattern (String k0 K')) ma prev s = None.
Proof.
  intros Hk Hw Hh Hq. rewrite <- (str_app_empty_r s).
  rewrite search_quiet by assumption.
  cbn [search_from]. now rewrite match_at_word_empty.
Qed.

End SearchKeys.

Section AnyKey.

























End AnyKey.

Section DublinFour.









End DublinFour.

(** ** Geocoding attempts *)

Section Attempts.

Variable e : env.



Variable g : string -> geo_reply.
Hypothesis stateless : forall t q, env_geocode e t q = g q.



End Attempts.

Lemma rewrites_enumerate {A} (h : A -> option string) (n : nat) (l : list A) :
  rewrites (fun nf => h (snd nf)) (CsvProcessor.enumerate_from n l) = rewrites h l.
Proof.
  revert n. induction l as [|a l IH]; intros n; [reflexivity|].
  cbn [CsvProcessor.enumerate_from rewrites snd]. now rewrite IH.
Qed.


(** ** Relations between the world before and after a computation *)

Section Keeps.

Variable R : world -> world -> Prop.
Hypothesis R_refl : forall w, R w w.
Hypothesis R_trans : forall w1 w2 w3, R w1 w2 -> R w2 w3 -> R w1 w3.

Lemma keeps_ret {A} (a : A) : keeps R (ret a).
Proof. intros w. apply R_refl. Qed.

Lemma keeps_throw {A} (err : exn) : keeps R (@throw A err).
Proof. intros w. apply R_refl. Qed.

Lemma keeps_lift {A} (r : result A) : keeps R (lift r).
Proof. intros w. apply R_refl. Qed.

Lemma keeps_bind {A B} (c : M A) (k : A -> M B) :
  keeps R c -> (forall a, keeps R (k a)) -> keeps R (bind c k).
Proof.
  intros Hc Hk w. unfold bind. specialize (Hc w).
  destruct (c w) as [[a|err] w1]; cbn [snd] in *; [|exact Hc].
  eapply R_trans; [exact Hc | apply Hk].
Qed.

Lemma keeps_try_except {A} (c : M A) (h : exn -> M A) :
  keeps R c -> (forall err, keeps R (h err)) -> keeps R (try_except c h).
Proof.
  intros Hc Hh w. unfold try_except. specialize (Hc w).
  destruct (c w) as [[a|err] w1]; cbn [snd] in *; [exact Hc|].
  eapply R_trans; [exact Hc | apply Hh].
Qed.

End Keeps.

Section Pacing.

Lemma paced_true_of_false (evs : list event) :
  paced false evs = true -> paced true evs = true.
Proof. destruct evs as [|[] evs]; cbn [paced andb]; intros H; first [discriminate H | exact H]. Qed.

Lemma paced_app (b : bool) (a1 a2 : list event) :
  paced b a1 = true -> paced false a2 = true -> paced b (a1 ++ a2)%list = true.
Proof.
  revert b. induction a1 as [|ev a1 IH]; intros b H1 H2.
  - destruct b; [now apply paced_true_of_false | exact H2].
  - destruct ev; cbn [paced app] in *; auto.
    apply andb_true_iff in H1 as [-> H1]. cbn [andb]. auto.
Qed.

Lemma paced_growth_refl (w : world) : paced_growth w w.
Proof. exists []. now rewrite app_nil_r. Qed.

Lemma paced_growth_trans (w1 w2 w3 : world) :
  paced_growth w1 w2 -> paced_growth w2 w3 -> paced_growth w1 w3.
Proof.
  intros [n1 [E1 P1]] [n2 [E2 P2]]. exists (n1 ++ n2)%list.
  split; [now rewrite E2, E1, app_assoc | now apply paced_app].
Qed.

Lemma try_loop_paced (e : env) (address : pyval) (last : nat)
      (todo : list (nat * (string -> option string))) (t : trace) :
  exists new, snd (CsvProcessor.try_loop e address last todo t) = (t ++ new)%list
              /\ paced false new = true.
Proof.
  revert t. induction todo as [|[n f] todo IH]; intros t.
  - eexists. split; reflexivity.
  - cbn [CsvProcessor.try_loop]. destruct (f _) as [q|]; [|apply IH].
    assert (Hstep : forall (tail : list event) (t' : trace),
               t' = (((t ++ [EvSleep 1]) ++ [EvGeocode q]) ++ tail)%list ->
               paced false tail = true ->
               (exists new, snd (CsvProcessor.try_loop e address last todo t')
                            = (t' ++ new)%list /\ paced false new = true) ->
               exists new, snd (CsvProcessor.try_loop e address last todo t')
                           = (t ++ new)%list /\ paced false new = true).
    { intros tail t' -> Htail [new [E P]].
      exists ([EvSleep 1; EvGeocode q] ++ tail ++ new)%list. split.
      - rewrite E. now rewrite <- !app_assoc.
      - cbn [app paced Nat.eqb andb]. now apply paced_app. }
    destruct (env_geocode e _ q) as [|lat lon|err].
    + apply (Hstep []); [now rewrite app_nil_r | reflexivity | apply IH].
    + destruct (CsvProcessor.in_box lat lon).
      * exists [EvSleep 1; EvGeocode q]. cbn [snd]. now rewrite <- app_assoc.
      * apply (Hstep []); [now rewrite app_nil_r | reflexivity | apply IH].
    + destruct (_ && _).
      * apply (Hstep [EvPrint (MsgFailedGeocode address err)]);
          [reflexivity | reflexivity | apply IH].
      * apply (Hstep []); [now rewrite app_nil_r | reflexivity | apply IH].
Qed.

Lemma variant_loop_paced (e : env) (address : pyval) (todo : list string) (t : trace) :
  exists new, snd (CsvProcessorCases.variant_loop e address todo t) = (t ++ new)%list
              /\ paced false new = true.
Proof.
  revert t. induction todo as [|q todo IH]; intros t.
  - eexists. split; reflexivity.
  - cbn [CsvProcessorCases.variant_loop].
    assert (Hstep :
              exists new,
                snd (CsvProcessorCases.variant_loop e address todo
                       ((t ++ [EvSleep 1]) ++ [EvGeocode q])%list)
                = (t ++ new)%list /\ paced false new = true).
    { destruct (IH ((t ++ [EvSleep 1]) ++ [EvGeocode q])%list) as [new [E P]].
      exists ([EvSleep 1; EvGeocode q] ++ new)%list. split.
      - rewrite E. now rewrite <- !app_assoc.
      - exact P. }
    destruct (env_geocode e _ q) as [|lat lon|err]; try exact Hstep.
    destruct (CsvProcessorCases.in_box lat lon); [|exact Hstep].
    exists [EvSleep 1; EvGeocode q]. cbn [snd]. now rewrite <- app_assoc.
Qed.

End Pacing.

Section PacedPipelines.

Variable e : env.

Lemma keeps_emit_paced (ev : event) :
  paced false [ev] = true -> keeps paced_growth (emit ev).
Proof. intros H w. exists [ev]. split; [reflexivity | exact H]. Qed.

Lemma keeps_print_paced (m : message) : keeps paced_growth (print m).
Proof. now apply keeps_emit_paced. Qed.

Lemma keeps_load_paced : keeps paced_growth CsvProcessor.load_cache.
Proof.
  intros w. unfold CsvProcessor.load_cache.
  destruct (w_cache_file w); apply paced_growth_refl.
Qed.

Lemma keeps_save_paced (cache : dict) : keeps paced_growth (CsvProcessor.save_cache cache).
Proof. intros w. exists [EvSaveCache (json_dump cache)]. split; reflexivity. Qed.

Lemma keeps_to_csv_paced (df : frame cell) (path : string) :
  keeps paced_growth (to_csv e df path).
Proof.
  intros w. unfold to_csv. destruct (env_to_csv_error e path); [apply paced_growth_refl|].
  exists []. cbn [snd w_trace]. now rewrite app_nil_r.
Qed.

Lemma keeps_with_trace_paced {A} (f : trace -> A * trace) :
  (forall t, exists new, snd (f t) = (t ++ new)%list /\ paced false new = true) ->
  keeps paced_growth (with_trace f).
Proof.
  intros Hf w. unfold with_trace. specialize (Hf (w_trace w)).
  destruct (f (w_trace w)) as [a t']. exact Hf.
Qed.

Ltac paced_steps :=
  repeat first
    [ apply (keeps_bind paced_growth paced_growth_trans); [|intros ?]
    | apply (keeps_ret paced_growth paced_growth_refl)
    | apply (keeps_lift paced_growth paced_growth_refl)
    | apply (keeps_throw paced_growth paced_growth_refl)
    | apply keeps_print_paced
    | apply keeps_emit_paced; reflexivity
    | apply keeps_load_paced
    | apply keeps_save_paced
    | apply keeps_to_csv_paced
    | apply keeps_with_trace_paced; intros ?;
      first [apply try_loop_paced | apply variant_loop_paced]
    | assumption
    | match goal with
      | |- keeps _ (match ?x with _ => _ end) => destruct x
      end ].

Lemma geocode_loop_paced (todo : list key) (cache : dict) :
  keeps paced_growth (CsvProcessor.geocode_loop e todo cache).
Proof.
  revert cache. induction todo as [|a todo IH]; intros cache;
    cbn [CsvProcessor.geocode_loop]; paced_steps.
  - apply IH.
  - apply IH.
Qed.

Lemma cases_geocode_loop_paced (todo : list key) (cache : dict) (n : nat) :
  keeps paced_growth (CsvProcessorCases.geocode_loop e todo cache n).
Proof.
  revert cache n. induction todo as [|a todo IH]; intros cache n;
    cbn [CsvProcessorCases.geocode_loop]; paced_steps.
  - apply IH.
  - apply IH.
Qed.

Lemma process_csv_paced (input_file output_file : string) (max_rows : option Z) :
  keeps paced_growth (CsvProcessor.process_csv e input_file output_file max_rows).
Proof.
  unfold CsvProcessor.process_csv. paced_steps.
  all: apply geocode_loop_paced.
Qed.

Lemma process_planning_cases_paced (input_file output_file : string) (max_rows : option Z) :
  keeps paced_growth
        (CsvProcessorCases.process_planning_cases e input_file output_file max_rows).
Proof.
  unfold CsvProcessorCases.process_planning_cases, CsvProcessorCases.load_cache.
  paced_steps.
  all: apply cases_geocode_loop_paced.
Qed.

End PacedPipelines.

Section SpacedRequests.

Variable e : env.

Lemma gap_app (p : bool) (a1 a2 : list event) :
  gap p (a1 ++ a2)%list =
  match gap p a1 with Some p' => gap p' a2 | None => None end.
Proof.
  revert p. induction a1 as [|ev a1 IH]; intros p; [reflexivity|].
  destruct ev; cbn [gap app]; try apply IH.
  destruct p; [reflexivity | apply IH].
Qed.

Lemma silent_growth_refl (w : world) : silent_growth w w.
Proof. exists []. split; [now rewrite app_nil_r | intros p; reflexivity]. Qed.

Lemma silent_growth_trans (w1 w2 w3 : world) :
  silent_growth w1 w2 -> silent_growth w2 w3 -> silent_growth w1 w3.
Proof.
  intros [n1 [E1 P1]] [n2 [E2 P2]]. exists (n1 ++ n2)%list.
  split; [now rewrite E2, E1, app_assoc|].
  intros p. now rewrite gap_app, P1, P2.
Qed.

Lemma keeps_print_silent (m : message) : keeps silent_growth (print m).
Proof. intros w. exists [EvPrint m]. split; [reflexivity | intros p; reflexivity]. Qed.

Lemma keeps_cases_to_csv_silent (cases : list case) (path : string) :
  keeps silent_growth (Scraper.cases_to_csv e cases path).
Proof.
  intros w. unfold Scraper.cases_to_csv.
  destruct (env_to_csv_error e path); [apply silent_growth_refl|].
  exists []. split; [cbn [snd w_trace]; now rewrite app_nil_r | intros p; reflexivity].
Qed.

Ltac silent_steps :=
  repeat first
    [ apply (keeps_bind silent_growth silent_growth_trans); [|intros ?]
    | apply (keeps_ret silent_growth silent_growth_refl)
    | apply (keeps_lift silent_growth silent_growth_refl)
    | apply keeps_print_silent
    | apply keeps_cases_to_csv_silent
    | match goal with
      | |- keeps _ (match ?x with _ => _ end) => destruct x
      end ].

(** One page: a request, then only prints. *)
Lemma scrape_url_gap (url : string) (w : world) :
  exists new,
    w_trace (snd (Scraper.scrape_cases_from_url e url w)) = (w_trace w ++ new)%list
    /\ forall p, gap p new = if p then None else Some true.
Proof.
  unfold Scraper.scrape_cases_from_url, bind, print, emit, lift, ret.
  cbn [fst snd w_trace].
  destruct (env_http_get e _ url) as [[status body]|err]; cbn [fst snd].
  - destruct (negb (status =? 200)%nat); cbn [fst snd w_trace].
    + exists [EvPrint (MsgScraping url); EvHttpGet url; EvPrint (MsgFetchFailed status)].
      split; [now rewrite <- !app_assoc | now intros []].
    + exists [EvPrint (MsgScraping url); EvHttpGet url].
      split; [now rewrite <- !app_assoc | now intros []].
  - exists [EvPrint (MsgScraping url); EvHttpGet url].
    split; [now rewrite <- !app_assoc | now intros []].
Qed.

(** The loop over the pages: no request finds a request pending, and the
    loop ends with none pending when it completes. *)
Lemma scrape_all_gap (todo : list string) (all_cases : list case) (w : world) :
  exists new p,
    w_trace (snd (Scraper.scrape_all e todo all_cases w)) = (w_trace w ++ new)%list
    /\ gap false new = Some p
    /\ (is_ok (fst (Scraper.scrape_all e todo all_cases w)) = true -> p = false).
Proof.
  revert all_cases w. induction todo as [|url todo IH]; intros all_cases w.
  - exists [], false. cbn. now rewrite app_nil_r.
  - cbn [Scraper.scrape_all]. unfold bind, emit.
    destruct (scrape_url_gap url w) as [n1 [E1 G1]].
    destruct (Scraper.scrape_cases_from_url e url w) as [[cases|err] w1];
      cbn [fst snd] in *.
    + cbn [fst snd].
      match goal with
      | |- context [Scraper.scrape_all e todo ?a ?w2] =>
          destruct (IH a w2) as [n2 [p [E2 [G2 Hp]]]]
      end.
      cbn [w_trace] in E2.
      exists (n1 ++ [EvSleep 2] ++ n2)%list, p. repeat split.
      * rewrite E2, E1. now rewrite <- !app_assoc.
      * rewrite gap_app, G1. cbn [app gap Nat.eqb negb andb]. exact G2.
      * exact Hp.
    + exists n1, true. repeat split; [exact E1 | now rewrite G1 | discriminate].
Qed.

Lemma main_spaced (w : world) :
  exists new, w_trace (snd (Scraper.main e w)) = (w_trace w ++ new)%list
              /\ spaced new = true.
Proof.
  unfold Scraper.main. unfold bind at 1.
  destruct (scrape_all_gap Scraper.urls [] w) as [n1 [p [E1 [G1 Hp]]]].
  set (fetched := Scraper.scrape_all e Scraper.urls [] w) in *.
  destruct fetched as [[all|err] w1]; cbn [fst snd] in *.
  - rewrite (Hp eq_refl) in G1.
    assert (Hrest : keeps silent_growth
              (match all with
               | [] => ret tt
               | _ :: _ =>
                   print (MsgTotalCases (length all)) ;;;
                   df <- Scraper.save_to_csv e all Scraper.cases_file ;;
                   (let df_unique := drop_duplicates reference df in
                    if (length df_unique <? length df)%nat
                    then
                      print (MsgRemoved (length df - length df_unique)) ;;;
                      Scraper.cases_to_csv e df_unique Scraper.cases_file ;;;
                      print (MsgUnique (length df_unique))
                    else ret tt)
               end)).
    { unfold Scraper.save_to_csv. silent_steps. }
    destruct (Hrest w1) as [n2 [E2 S2]].
    exists (n1 ++ n2)%list. split.
    + etransitivity; [exact E2|]. now rewrite E1, app_assoc.
    + unfold spaced. now rewrite gap_app, G1, S2.
  - exists n1. split; [exact E1|]. unfold spaced. now rewrite G1.
Qed.

End SpacedRequests.

(** C8. Every geocoder call of [get_coordinates] (in both files, hence
    of both pipelines) comes right after a one-second sleep, and in the
    scraper a two-second sleep separates every HTTP request from the next
    one. *)
Theorem external_calls_are_spaced (e : env) :
  (forall address t,
      exists new, snd (CsvProcessor.get_coordinates e address t) = (t ++ new)%list
                  /\ paced false new = true)
  /\ (forall address t,
         exists new, snd (CsvProcessorCases.get_coordinates e address t) = (t ++ new)%list
                     /\ paced false new = true)
  /\ (forall input_file output_file max_rows w,
         exists new,
           w_trace (snd (CsvProcessor.process_csv e input_file output_file max_rows w))
           = (w_trace w ++ new)%list /\ paced false new = true)
  /\ (forall input_file output_file max_rows w,
         exists new,
           w_trace (snd (CsvProcessorCases.process_planning_cases
                           e input_file output_file max_rows w))
           = (w_trace w ++ new)%list /\ paced false new = true)
  /\ (forall w,
         exists new, w_trace (snd (Scraper.main e w)) = (w_trace w ++ new)%list
                     /\ spaced new = true).
Proof.
  repeat split.
  - intros. apply try_loop_paced.
  - intros. apply variant_loop_paced.
  - intros. apply process_csv_paced.
  - intros. apply process_planning_cases_paced.
  - apply main_spaced.
Qed.

(** ** Merging *)

Section Merge.

Variable e : env.

Lemma read_all_readable (csv_files : list string) (w : world) :
  Merger.read_all e csv_files w =
  (Ok (readable e csv_files),
   MkWorld (w_trace w ++ map (read_report e) csv_files)%list
           (w_cache_file w) (w_csv w) (w_cases_csv w)).
Proof.
  revert w. induction csv_files as [|file files IH]; intros w.
  - cbn. rewrite app_nil_r. now destruct w.
  - cbn [Merger.read_all readable map]. unfold read_report at 1.
    destruct (env_read_csv e file) as [df|err];
      unfold bind, print, emit; cbn [fst snd]; rewrite IH;
      cbn [w_trace w_cache_file w_csv w_cases_csv ret];
      now rewrite <- app_assoc.
Qed.


(** The whole effect of [merge_csv_files]. *)
Lemma merge_csv_files_result (input_directory output_file : string) (w : world) :
  Merger.merge_csv_files e input_directory output_file w =
  match env_glob_csv e input_directory with
  | Raise err => (Ok false, logged w [EvPrint (MsgError err)])
  | Ok [] => (Ok false, logged w [EvPrint (MsgNoCsvFound input_directory)])
  | Ok csv_files =>
      let reports :=
        EvPrint (MsgFound (length csv_files)) :: map (read_report e) csv_files in
      match readable e csv_files with
      | [] => (Ok false, logged w (reports ++ [EvPrint MsgNoFrames]))
      | dfs =>
          let merged := concat_rows CNaN dfs in
          match env_to_csv_error e output_file with
          | Some err => (Ok false, logged w (reports ++ [EvPrint (MsgError err)]))
          | None =>
              (Ok true,
               MkWorld (w_trace w ++ reports
                          ++ [EvPrint (MsgMerged output_file (nrows merged))])%list
                       (w_cache_file w) ((output_file, merged) :: w_csv w)
                       (w_cases_csv w))
          end
      end
  end.
Proof.
  unfold Merger.merge_csv_files, try_except, bind at 1, lift.
  destruct (env_glob_csv e input_directory) as [files|err]; [|reflexivity].
  destruct files as [|file files]; [reflexivity|].
  unfold bind at 1, print at 1, emit at 1.
  unfold bind at 1. rewrite read_all_readable. cbv zeta.
  destruct (readable e (file :: files)) as [|df dfs] eqn:Hr.
  - unfold bind, print, emit, ret, logged. cbn [fst snd w_trace w_cache_file w_csv w_cases_csv].
    f_equal; f_equal; rewrite <- !app_assoc; reflexivity.
  - unfold bind at 1, to_csv.
    cbn [w_trace w_cache_file w_csv w_cases_csv].
    destruct (env_to_csv_error e output_file) as [err|].
    + unfold bind, print, emit, ret, logged.
      cbn [fst snd w_trace w_cache_file w_csv w_cases_csv].
      f_equal; f_equal; rewrite <- !app_assoc; reflexivity.
    + unfold bind, print, emit, ret.
      cbn [fst snd w_trace w_cache_file w_csv w_cases_csv].
      f_equal; f_equal; rewrite <- !app_assoc; reflexivity.
Qed.


End Merge.

(** ** Duplicates *)

Section Duplicates.

Context {R : Type} (field : R -> string).

Lemma drop_duplicates_from_fields (seen : list string) (l : list R) :
  NoDup (map field (drop_duplicates_from field seen l))
  /\ forall r, r ∈ drop_duplicates_from field seen l -> field r ∉ seen.
Proof.
  revert seen. induction l as [|r l IH]; intros seen.
  - split; [constructor | intros r Hr; inversion Hr].
  - cbn [drop_duplicates_from]. destruct (bool_decide_reflect (field r ∈ seen)) as [Hin|Hout].
    + apply IH.
    + destruct (IH (field r :: seen)) as [Hnd Hseen]. split.
      * cbn [map]. constructor; [|exact Hnd].
        intros Hr. apply list_elem_of_fmap in Hr as [r' [E Hr']].
        apply (Hseen r' Hr'). rewrite E. left.
      * intros r' Hr'. inversion Hr'; subst; [exact Hout|].
        intros Hs. apply (Hseen r'); [assumption | now right].
Qed.

Lemma drop_duplicates_from_first (seen : list string) (l : list R) (ref : string) :
  first_with field ref (drop_duplicates_from field seen l) =
  if bool_decide (ref ∈ seen) then None else first_with field ref l.
Proof.
  unfold first_with. revert seen. induction l as [|r l IH]; intros seen.
  - cbn. now destruct (bool_decide _).
  - cbn [drop_duplicates_from find].
    destruct (bool_decide_reflect (field r ∈ seen)) as [Hin|Hout].
    + rewrite IH. destruct (bool_decide_reflect (ref ∈ seen)) as [|Hr]; [reflexivity|].
      destruct (String.eqb_spec (field r) ref) as [E|]; [|reflexivity].
      now rewrite E in Hin.
    + cbn [find]. destruct (String.eqb_spec (field r) ref) as [E|Hne].
      * rewrite <- E. now rewrite (bool_decide_eq_false_2 _ Hout).
      * rewrite IH.
        destruct (bool_decide_reflect (ref ∈ seen)) as [Hr|Hr].
        -- rewrite bool_decide_eq_true_2; [reflexivity | now right].
        -- rewrite bool_decide_eq_false_2; [reflexivity|].
           intros H. inversion H; subst; congruence.
Qed.

Lemma drop_duplicates_from_length (seen : list string) (l : list R) :
  (length (drop_duplicates_from field seen l) <= length l)%nat
  /\ (length (drop_duplicates_from field seen l) = length l ->
      drop_duplicates_from field seen l = l).
Proof.
  revert seen. induction l as [|r l IH]; intros seen; [split; reflexivity|].
  cbn [drop_duplicates_from]. destruct (bool_decide _).
  - destruct (IH seen) as [Hle _]. cbn [length]. split; [lia | intros; lia].
  - destruct (IH (field r :: seen)) as [Hle Heq]. cbn [length]. split; [lia|].
    intros H. f_equal. apply Heq. lia.
Qed.

End Duplicates.

(** ** The scraper's file *)

Section SavedCases.

Variable e : env.

(** C7. When [main] completes and cases were found, the cases file holds
    the scraped cases without duplicates of the reference field: one row
    per reference, and for every reference the first row, in scrape
    order, that carries it. *)
Theorem saved_cases_unique (w : world) :
  is_ok (fst (Scraper.main e w)) = true ->
  exists all_cases w1,
    Scraper.scrape_all e Scraper.urls [] w = (Ok all_cases, w1)
    /\ match all_cases with
       | [] => w_cases_csv (snd (Scraper.main e w)) = w_cases_csv w1
       | _ =>
           exists saved,
             w_cases_csv (snd (Scraper.main e w)) = Some saved
             /\ saved = drop_duplicates reference all_cases
             /\ NoDup (map reference saved)
             /\ forall ref,
                  first_with reference ref saved = first_with reference ref all_cases
       end.
Proof.
  assert (Hmain : Scraper.main e w =
            let (r, w1) := Scraper.scrape_all e Scraper.urls [] w in
            match r with
            | Ok all_cases =>
                match all_cases with
                | [] => ret tt
                | _ =>
                    print (MsgTotalCases (length all_cases)) ;;;
                    df <- Scraper.save_to_csv e all_cases Scraper.cases_file ;;
                    let df_unique := drop_duplicates reference df in
                    if (length df_unique <? length df)%nat
                    then
                      print (MsgRemoved (length df - length df_unique)) ;;;
                      Scraper.cases_to_csv e df_unique Scraper.cases_file ;;;
                      print (MsgUnique (length df_unique))
                    else ret tt
                end w1
            | Raise err => (Raise err, w1)
            end) by reflexivity.
  rewrite Hmain. clear Hmain.
  destruct (Scraper.scrape_all e Scraper.urls [] w) as [[all|err] w1];
    cbn [fst snd]; [|discriminate].
  intros Hok. exists all, w1. split; [reflexivity|].
  destruct all as [|c all]; [reflexivity|].
  set (cases := c :: all) in *.
  exists (drop_duplicates reference cases).
  split; [|split; [reflexivity|split]].
  - revert Hok.
    unfold Scraper.save_to_csv, Scraper.cases_to_csv, bind, print, emit, ret.
    cbn [fst snd w_trace w_cache_file w_csv w_cases_csv].
    destruct (env_to_csv_error e Scraper.cases_file); cbn [fst snd]; [discriminate|].
    destruct (length (drop_duplicates reference cases) <? length cases)%nat eqn:Hlen;
      cbn [fst snd w_cases_csv]; intros _; [reflexivity|].
    f_equal. symmetry. apply (drop_duplicates_from_length reference [] cases).
    apply Nat.ltb_ge in Hlen.
    pose proof (proj1 (drop_duplicates_from_length reference [] cases)) as Hle.
    unfold drop_duplicates in Hlen. lia.
  - apply (drop_duplicates_from_fields reference [] cases).
  - intros ref. unfold drop_duplicates.
    now rewrite (drop_duplicates_from_first reference [] cases ref).
Qed.

End SavedCases.

(** A run in which every page repeats the same reference: one row is kept,
    the first. *)
Lemma saved_cases_unique_witness :
  exists all_cases w1,
    Scraper.scrape_all repeating_env Scraper.urls [] empty_world = (Ok all_cases, w1)
    /\ match all_cases with
       | [] => w_cases_csv (snd (Scraper.main repeating_env empty_world)) = w_cases_csv w1
       | _ =>
           exists saved,
             w_cases_csv (snd (Scraper.main repeating_env empty_world)) = Some saved
             /\ saved = drop_duplicates reference all_cases
             /\ NoDup (map reference saved)
             /\ forall ref,
                  first_with reference ref saved = first_with reference ref all_cases
       end.
Proof. apply (saved_cases_unique repeating_env empty_world). vm_compute. reflexivity. Defined.

Example repeating_run_keeps_first :
  w_cases_csv (snd (Scraper.main repeating_env empty_world)) = Some [sample_case "first"].
Proof. vm_compute. reflexivity. Qed.

(** ** The cache during a run *)

Local Open Scope list_scope.

Section Dict.

Lemma dict_set_fresh (k : key) (v : coords) (d : dict) :
  dict_mem k d = false -> dict_set k v d = (d ++ [(k, v)])%list.
Proof.
  unfold dict_mem. induction d as [|[k' v'] d IH]; intros H; [reflexivity|].
  cbn [dict_get dict_set app] in *.
  destruct (bool_decide (k' = k)); [discriminate|]. now rewrite IH.
Qed.

Lemma dict_mem_keys (k : key) (d : dict) :
  dict_mem k d = true <-> k ∈ dict_keys d.
Proof.
  unfold dict_mem, dict_keys. induction d as [|[k' v'] d IH].
  - split; [discriminate | intros H; inversion H].
  - cbn [dict_get map fst]. destruct (bool_decide_reflect (k' = k)) as [->|Hne].
    + split; [intros _; left | reflexivity].
    + rewrite IH. split; [now right|]. intros H. inversion H; subst; congruence.
Qed.

Lemma dict_get_app_l (k : key) (v : coords) (d d' : dict) :
  dict_get k d = Some v -> dict_get k (d ++ d')%list = Some v.
Proof.
  induction d as [|[k' v'] d IH]; [discriminate|].
  cbn [dict_get app]. destruct (bool_decide (k' = k)); auto.
Qed.

Lemma dict_get_app_fresh (k : key) (v : coords) (d d' : dict) :
  dict_mem k d = false -> dict_get k ((d ++ [(k, v)]) ++ d')%list = Some v.
Proof.
  intros H. apply dict_get_app_l. unfold dict_mem in H.
  induction d as [|[k' v'] d IH]; cbn [dict_get app] in *.
  - now rewrite bool_decide_eq_true_2.
  - destruct (bool_decide (k' = k)); [discriminate | auto].
Qed.

Lemma saved_contents_app (a b : list event) :
  saved_contents (a ++ b) = (saved_contents a ++ saved_contents b)%list.
Proof.
  induction a as [|ev a IH]; [reflexivity|].
  destruct ev; cbn [saved_contents app]; now rewrite ?IH.
Qed.

Lemma call_log_app (a b : list event) :
  call_log (a ++ b) = (call_log a ++ call_log b)%list.
Proof.
  induction a as [|ev a IH]; [reflexivity|].
  destruct ev; cbn [call_log app]; now rewrite ?IH.
Qed.

End Dict.

Section Loop.

Variable e : env.

Lemma try_loop_unrecorded (address : pyval) (last : nat)
      (todo : list (nat * (string -> option string))) (t : trace) :
  exists new, snd (CsvProcessor.try_loop e address last todo t) = (t ++ new)%list
              /\ unrecorded new.
Proof.
  revert t. induction todo as [|[n f] todo IH]; intros t.
  - eexists. split; [reflexivity | split; reflexivity].
  - cbn [CsvProcessor.try_loop]. destruct (f _) as [q|]; [|apply IH].
    assert (Hstep : forall (tail : list event) (t' : trace),
               t' = (((t ++ [EvSleep 1]) ++ [EvGeocode q]) ++ tail)%list ->
               unrecorded tail ->
               exists new, snd (CsvProcessor.try_loop e address last todo t')
                           = (t ++ new)%list /\ unrecorded new).
    { intros tail t' -> [Hs Hc]. destruct (IH (((t ++ [EvSleep 1]) ++ [EvGeocode q]) ++ tail)%list)
        as [new [E [Hs' Hc']]].
      exists ([EvSleep 1; EvGeocode q] ++ tail ++ new)%list. split.
      - rewrite E. now rewrite <- !app_assoc.
      - split.
        + rewrite !saved_contents_app, Hs, Hs'. reflexivity.
        + rewrite !call_log_app, Hc, Hc'. reflexivity. }
    destruct (env_geocode e _ q) as [|lat lon|err].
    + apply (Hstep []); [now rewrite app_nil_r | split; reflexivity].
    + destruct (CsvProcessor.in_box lat lon).
      * exists [EvSleep 1; EvGeocode q]. cbn [snd].
        split; [now rewrite <- app_assoc | split; reflexivity].
      * apply (Hstep []); [now rewrite app_nil_r | split; reflexivity].
    + destruct (_ && _).
      * apply (Hstep [EvPrint (MsgFailedGeocode address err)]);
          [reflexivity | split; reflexivity].
      * apply (Hstep []); [now rewrite app_nil_r | split; reflexivity].
Qed.

Lemma variant_loop_unrecorded (address : pyval) (todo : list string) (t : trace) :
  exists new, snd (CsvProcessorCases.variant_loop e address todo t) = (t ++ new)%list
              /\ unrecorded new.
Proof.
  revert t. induction todo as [|q todo IH]; intros t.
  - eexists. split; [reflexivity | split; reflexivity].
  - cbn [CsvProcessorCases.variant_loop].
    assert (Hstep :
              exists new,
                snd (CsvProcessorCases.variant_loop e address todo
                       ((t ++ [EvSleep 1]) ++ [EvGeocode q])%list)
                = (t ++ new)%list /\ unrecorded new).
    { destruct (IH ((t ++ [EvSleep 1]) ++ [EvGeocode q])%list) as [new [E [Hs Hc]]].
      exists ([EvSleep 1; EvGeocode q] ++ new)%list. split.
      - rewrite E. now rewrite <- !app_assoc.
      - split; assumption. }
    destruct (env_geocode e _ q) as [|lat lon|err]; try exact Hstep.
    destruct (CsvProcessorCases.in_box lat lon); [|exact Hstep].
    exists [EvSleep 1; EvGeocode q]. cbn [snd].
    split; [now rewrite <- app_assoc | split; reflexivity].
Qed.

End Loop.

Section LoopRuns.

Variable e : env.

Lemma dict_mem_app_l (k : key) (d d' : dict) :
  dict_mem k d = true -> dict_mem k (d ++ d') = true.
Proof.
  unfold dict_mem. destruct (dict_get k d) as [v|] eqn:H; [|discriminate].
  now rewrite (dict_get_app_l k v d d' H).
Qed.

Lemma dict_keys_app (d d' : dict) : dict_keys (d ++ d') = dict_keys d ++ dict_keys d'.
Proof. apply map_app. Qed.

Lemma loop_run_skip (a : key) (todo : list key) (cache : dict) (w : world)
      (cache' : dict) (w' : world) (added : dict) (new : list event) :
  (key_truthy a = true -> dict_mem a cache = true) ->
  loop_run todo cache w cache' w' added new ->
  loop_run (a :: todo) cache w cache' w' added new.
Proof.
  intros Ha []. constructor; try assumption.
  - intros k Hk. destruct (run_fresh0 k Hk) as (? & ? & ?). repeat split; auto. now right.
  - intros k Hk Ht. inversion Hk; subst; [|auto].
    apply dict_mem_app_l. auto.
Qed.

Lemma loop_run_step (a : key) (v : coords) (todo : list key) (cache : dict)
      (w w1 : world) (cache' : dict) (w' : world) (added : dict) (mid new : list event) :
  key_truthy a = true -> dict_mem a cache = false ->
  w_trace w1 = w_trace w ++ EvCall a :: mid ++ [EvSaveCache (json_dump (cache ++ [(a, v)]))] ->
  unrecorded mid ->
  w_cache_file w1 = Json (json_dump (cache ++ [(a, v)])) ->
  w_csv w1 = w_csv w -> w_cases_csv w1 = w_cases_csv w ->
  loop_run todo (cache ++ [(a, v)]) w1 cache' w' added new ->
  loop_run (a :: todo) cache w cache' w' ((a, v) :: added)
           (EvCall a :: mid ++ [EvSaveCache (json_dump (cache ++ [(a, v)]))] ++ new).
Proof.
  intros Ht Hm Htr [Hs Hc] Hf Hcsv Hcases [].
  assert (Hnot : a ∉ dict_keys cache).
  { intros Hin. apply dict_mem_keys in Hin. congruence. }
  constructor.
  - now rewrite run_cache0, <- app_assoc.
  - rewrite run_trace0, Htr, <- !app_assoc. cbn [app]. now rewrite <- !app_assoc.
  - rewrite run_file0. destruct added; [exact Hf | now rewrite <- app_assoc].
  - congruence.
  - congruence.
  - cbn [saved_contents snapshots]. rewrite !saved_contents_app, Hs.
    cbn [saved_contents app]. now rewrite run_saves0.
  - cbn [call_log dict_keys map fst]. rewrite !call_log_app, Hc.
    cbn [call_log app]. now rewrite run_calls0.
  - cbn [dict_keys map fst]. constructor; [|exact run_nodup0].
    intros Hin. destruct (run_fresh0 a Hin) as [Hout _].
    apply Hout. rewrite dict_keys_app. apply elem_of_app. right. left.
  - intros k Hk. cbn [dict_keys map fst] in Hk. inversion Hk; subst.
    + repeat split; [exact Hnot | left | exact Ht].
    + destruct (run_fresh0 k) as (Hout & Hin & Hk'); [assumption|].
      repeat split; [|now right|exact Hk'].
      intros Hc'. apply Hout. rewrite dict_keys_app. apply elem_of_app. now left.
  - intros k Hk Hk'. inversion Hk; subst.
    + unfold dict_mem. change (cache ++ (a, v) :: added) with (cache ++ [(a, v)] ++ added).
      rewrite app_assoc. now rewrite (dict_get_app_fresh a v cache added Hm).
    + change (cache ++ (a, v) :: added) with (cache ++ [(a, v)] ++ added).
      rewrite app_assoc. now apply run_covers0.
Qed.

Lemma geocode_loop_run (todo : list key) (cache : dict) (w : world) :
  exists cache' w' added new,
    CsvProcessor.geocode_loop e todo cache w = (Ok cache', w')
    /\ loop_run todo cache w cache' w' added new.
Proof.
  revert cache w. induction todo as [|a todo IH]; intros cache w.
  - exists cache, w, [], []. split; [reflexivity|].
    constructor; rewrite ?app_nil_r; try reflexivity;
      [constructor | intros k Hk; inversion Hk | intros k Hk; inversion Hk].
  - cbn [CsvProcessor.geocode_loop].
    destruct (key_truthy a && negb (dict_mem a cache)) eqn:Hcond.
    + apply andb_true_iff in Hcond as [Ht Hm]. apply negb_true_iff in Hm.
      unfold bind at 1, emit at 1. cbn [fst snd].
      unfold bind at 1, with_trace at 1. cbn [w_trace w_cache_file w_csv w_cases_csv].
      destruct (try_loop_unrecorded e (key_val a) (length CsvProcessor.tries - 1)
                  (CsvProcessor.enumerate_from 0 CsvProcessor.tries)
                  (w_trace w ++ [EvCall a])) as [mid [Emid Hmid]].
      fold (CsvProcessor.get_coordinates e (key_val a) (w_trace w ++ [EvCall a])) in Emid.
      destruct (CsvProcessor.get_coordinates e (key_val a) (w_trace w ++ [EvCall a]))
        as [v t1]. cbn [snd] in Emid. subst t1.
      rewrite (dict_set_fresh a v cache Hm).
      unfold bind at 1, CsvProcessor.save_cache at 1.
      cbn [fst snd w_trace w_cache_file w_csv w_cases_csv].
      match goal with
      | |- context [CsvProcessor.geocode_loop e todo ?c ?w1] =>
          destruct (IH c w1) as (cache' & w' & added & new & E & Hrun)
      end.
      exists cache', w', ((a, v) :: added),
             (EvCall a :: mid ++ [EvSaveCache (json_dump (cache ++ [(a, v)]))] ++ new).
      split; [exact E|].
      eapply loop_run_step; try eassumption; try reflexivity.
      cbn [w_trace]. now rewrite <- !app_assoc.
    + destruct (IH cache w) as (cache' & w' & added & new & E & Hrun).
      exists cache', w', added, new. split; [exact E|].
      apply loop_run_skip; [|exact Hrun].
      intros Ht. rewrite Ht in Hcond. cbn [andb] in Hcond.
      now apply negb_false_iff in Hcond.
Qed.

Lemma cases_geocode_loop_run (todo : list key) (cache : dict) (n : nat) (w : world) :
  exists cache' n' w' added new,
    CsvProcessorCases.geocode_loop e todo cache n w = (Ok (cache', n'), w')
    /\ loop_run todo cache w cache' w' added new.
Proof.
  revert cache n w. induction todo as [|a todo IH]; intros cache n w.
  - exists cache, n, w, [], []. split; [reflexivity|].
    constructor; rewrite ?app_nil_r; try reflexivity;
      [constructor | intros k Hk; inversion Hk | intros k Hk; inversion Hk].
  - cbn [CsvProcessorCases.geocode_loop].
    destruct (key_truthy a && negb (dict_mem a cache)) eqn:Hcond.
    + apply andb_true_iff in Hcond as [Ht Hm]. apply negb_true_iff in Hm.
      unfold bind at 1, emit at 1. cbn [fst snd].
      unfold bind at 1, with_trace at 1. cbn [w_trace w_cache_file w_csv w_cases_csv].
      destruct (variant_loop_unrecorded e (key_val a)
                  (CsvProcessorCases.address_variants
                     (CsvProcessorCases.clean_address_for_planning (key_val a)))
                  (w_trace w ++ [EvCall a])) as [mid [Emid Hmid]].
      fold (CsvProcessorCases.get_coordinates e (key_val a) (w_trace w ++ [EvCall a])) in Emid.
      destruct (CsvProcessorCases.get_coordinates e (key_val a) (w_trace w ++ [EvCall a]))
        as [v t1]. cbn [snd] in Emid. subst t1.
      rewrite (dict_set_fresh a v cache Hm).
      unfold bind at 1, CsvProcessorCases.save_cache, CsvProcessor.save_cache at 1.
      cbn [fst snd w_trace w_cache_file w_csv w_cases_csv].
      match goal with
      | |- context [CsvProcessorCases.geocode_loop e todo ?c ?m ?w1] =>
          destruct (IH c m w1) as (cache' & n' & w' & added & new & E & Hrun)
      end.
      exists cache', n', w', ((a, v) :: added),
             (EvCall a :: mid ++ [EvSaveCache (json_dump (cache ++ [(a, v)]))] ++ new).
      split; [exact E|].
      eapply loop_run_step; try eassumption; try reflexivity.
      cbn [w_trace]. now rewrite <- !app_assoc.
    + destruct (IH cache n w) as (cache' & n' & w' & added & new & E & Hrun).
      exists cache', n', w', added, new. split; [exact E|].
      apply loop_run_skip; [|exact Hrun].
      intros Ht. rewrite Ht in Hcond. cbn [andb] in Hcond.
      now apply negb_false_iff in Hcond.
Qed.

End LoopRuns.

(** ** Running a pipeline step by step *)

Section Stepping.

Lemma wp_bind {A B} (c : M A) (k : A -> M B) (Q : result B -> world -> Prop) (w : world) :
  wp c (fun r w1 => match r with
                    | Ok a => wp (k a) Q w1
                    | Raise err => Q (Raise err) w1
                    end) w ->
  wp (bind c k) Q w.
Proof. unfold wp, bind. now destruct (c w) as [[a|err] w1]. Qed.

Lemma wp_bind_assoc {A B C} (c : M A) (f : A -> M B) (k : B -> M C)
      (Q : result C -> world -> Prop) (w : world) :
  wp (bind c (fun a => bind (f a) k)) Q w -> wp (bind (bind c f) k) Q w.
Proof. unfold wp, bind. now destruct (c w) as [[a|err] w1]. Qed.

Lemma wp_lift {A} (r : result A) (Q : result A -> world -> Prop) (w : world) :
  Q r w -> wp (lift r) Q w.
Proof. trivial. Qed.

Lemma wp_ret {A} (a : A) (Q : result A -> world -> Prop) (w : world) :
  Q (Ok a) w -> wp (ret a) Q w.
Proof. trivial. Qed.

Lemma wp_print (m : message) (Q : result unit -> world -> Prop) (w : world) :
  Q (Ok tt) (MkWorld (w_trace w ++ [EvPrint m]) (w_cache_file w) (w_csv w) (w_cases_csv w)) ->
  wp (print m) Q w.
Proof. trivial. Qed.

Lemma wp_load_cache (Q : result dict -> world -> Prop) (w : world) :
  match w_cache_file w with
  | Corrupt err => Q (Raise err) w
  | _ => Q (Ok (loaded w)) w
  end ->
  wp CsvProcessor.load_cache Q w.
Proof.
  unfold wp, CsvProcessor.load_cache, loaded. now destruct (w_cache_file w).
Qed.

Lemma wp_keeps {A} (R : world -> world -> Prop) (c : M A)
      (Q : result A -> world -> Prop) (w : world) :
  keeps R c -> (forall r w', R w w' -> Q r w') -> wp c Q w.
Proof. intros Hc HQ. apply HQ, Hc. Qed.

Lemma quietly_refl (w : world) : quietly w w.
Proof. exists []. rewrite app_nil_r. repeat split; reflexivity. Qed.

Lemma quietly_trans (w1 w2 w3 : world) :
  quietly w1 w2 -> quietly w2 w3 -> quietly w1 w3.
Proof.
  intros (n1 & E1 & [S1 C1] & F1) (n2 & E2 & [S2 C2] & F2). exists (n1 ++ n2).
  split; [now rewrite E2, E1, app_assoc|]. split; [|congruence].
  split; [now rewrite saved_contents_app, S1, S2 | now rewrite call_log_app, C1, C2].
Qed.

Lemma quietly_print (w : world) (m : message) :
  quietly w (MkWorld (w_trace w ++ [EvPrint m]) (w_cache_file w) (w_csv w) (w_cases_csv w)).
Proof. exists [EvPrint m]. repeat split; reflexivity. Qed.

Lemma keeps_print_quietly (m : message) : keeps quietly (print m).
Proof. intros w. apply quietly_print. Qed.

Lemma keeps_to_csv_quietly (e : env) (df : frame cell) (path : string) :
  keeps quietly (to_csv e df path).
Proof.
  intros w. unfold to_csv. destruct (env_to_csv_error e path); [apply quietly_refl|].
  exists []. cbn [snd w_trace w_cache_file]. rewrite app_nil_r. repeat split; reflexivity.
Qed.


Lemma loaded_quietly (w w' : world) : quietly w w' -> loaded w' = loaded w.
Proof. intros (new & E & _ & F). unfold loaded. now rewrite F. Qed.


End Stepping.

Ltac quiet_steps :=
  repeat first
    [ apply (keeps_bind quietly quietly_trans); [|intros ?]
    | apply (keeps_ret quietly quietly_refl)
    | apply (keeps_lift quietly quietly_refl)
    | apply (keeps_throw quietly quietly_refl)
    | apply keeps_print_quietly
    | apply keeps_to_csv_quietly
    | match goal with
      | |- keeps _ (match ?x with _ => _ end) => destruct x
      end ].



Ltac step_print :=
  apply wp_bind, wp_print;
  match goal with
  | Hq : quietly ?w0 ?w1 |- wp _ _ ?w2 =>
      let Hq' := fresh "Hq" in
      assert (Hq' : quietly w0 w2)
        by (apply (quietly_trans w0 w1 w2 Hq), quietly_print);
      clear Hq; generalize dependent w2; clear w1; intros w1 Hq
  end.

Section AppendOnly.

Variable e : env.







End AppendOnly.

(** ** A completed run of process_csv *)

Section Frames.

Context {A : Type}.

Lemma lookup_replace_eq (cs : list (string * list A)) (name : string) (vals : list A) :
  lookup_col (replace_col cs name vals) name = Some vals.
Proof.
  induction cs as [|[c l] cs IH]; cbn [replace_col lookup_col].
  - now rewrite String.eqb_refl.
  - destruct (String.eqb c name) eqn:E; cbn [lookup_col]; now rewrite E.
Qed.

Lemma lookup_replace_ne (cs : list (string * list A)) (name other : string) (vals : list A) :
  String.eqb name other = false ->
  lookup_col (replace_col cs name vals) other = lookup_col cs other.
Proof.
  intros Hne. induction cs as [|[c l] cs IH]; cbn [replace_col lookup_col].
  - now rewrite Hne.
  - destruct (String.eqb c name) eqn:E; cbn [lookup_col].
    + apply String.eqb_eq in E. subst c. now rewrite Hne.
    + now rewrite IH.
Qed.

Lemma mapM_lookup (df : frame A) (names : list string) (cs : list (string * list A)) :
  mapM (fun n => match lookup_col (cols df) n with
                 | Some l => Ok (n, l)
                 | None => Raise (KeyError n)
                 end) names = Ok cs ->
  forall n, n ∈ names -> lookup_col cs n = lookup_col (cols df) n.
Proof.
  revert cs. induction names as [|m names IH]; intros cs H n Hn; [inversion Hn|].
  cbn [mapM] in H. destruct (lookup_col (cols df) m) as [l|] eqn:El; [|discriminate].
  destruct (mapM _ names) as [cs'|] eqn:Em; [|discriminate].
  injection H as <-. cbn [lookup_col].
  destruct (String.eqb_spec m n) as [->|Hne]; [now rewrite El|].
  apply (IH cs' eq_refl). inversion Hn; subst; [congruence | assumption].
Qed.

Lemma select_lookup (df out : frame A) (names : list string) (n : string) :
  select df names = Ok out -> n ∈ names ->
  lookup_col (cols out) n = lookup_col (cols df) n.
Proof.
  unfold select. intros H Hn.
  destruct (mapM _ names) as [cs|] eqn:Em; [|discriminate].
  injection H as <-. cbn [cols]. now apply (mapM_lookup df names cs Em).
Qed.

End Frames.

Lemma lookup_cells_of (raw : frame key) (name : string) :
  lookup_col (cols (CsvProcessor.cells_of raw)) name
  = option_map (map cell_of_key) (lookup_col (cols raw) name).
Proof.
  unfold CsvProcessor.cells_of. cbn [cols].
  induction (cols raw) as [|[c l] cs IH]; [reflexivity|].
  cbn [map lookup_col]. now destruct (String.eqb c name).
Qed.

Section Calm.

Lemma calmly_refl (w : world) : calmly w w.
Proof. split; [apply quietly_refl | reflexivity]. Qed.

Lemma calmly_print (w0 w1 : world) (m : message) :
  calmly w0 w1 ->
  calmly w0 (MkWorld (w_trace w1 ++ [EvPrint m]) (w_cache_file w1) (w_csv w1) (w_cases_csv w1)).
Proof.
  intros [Hq Hc]. split; [|exact Hc].
  apply (quietly_trans w0 w1); [exact Hq | apply quietly_print].
Qed.

Lemma wp_to_csv (e : env) (df : frame cell) (path : string)
      (Q : result unit -> world -> Prop) (w : world) :
  match env_to_csv_error e path with
  | Some err => Q (Raise err) w
  | None => Q (Ok tt) (MkWorld (w_trace w) (w_cache_file w) ((path, df) :: w_csv w)
                               (w_cases_csv w))
  end ->
  wp (to_csv e df path) Q w.
Proof. unfold wp, to_csv. now destruct (env_to_csv_error e path). Qed.

Lemma wp_geocode_loop_run {A} (e : env) (todo : list key) (cache : dict) (w1 : world)
      (k : dict -> M A) (Q : result A -> world -> Prop) :
  (forall cache' w2 added new,
      loop_run todo cache w1 cache' w2 added new -> wp (k cache') Q w2) ->
  wp (bind (CsvProcessor.geocode_loop e todo cache) k) Q w1.
Proof.
  intros H. unfold wp, bind.
  destruct (geocode_loop_run e todo cache w1) as (cache' & w2 & added & new & E & Hrun).
  rewrite E. exact (H cache' w2 added new Hrun).
Qed.

End Calm.

Section CompletedRun.

Variable e : env.

Lemma keep_address : "Address" ∈ CsvProcessor.columns_to_keep.
Proof. apply (bool_decide_unpack _). vm_compute. exact I. Qed.

Lemma keep_latitude : "Latitude" ∈ CsvProcessor.columns_to_keep.
Proof. apply (bool_decide_unpack _). vm_compute. exact I. Qed.

Lemma keep_longitude : "Longitude" ∈ CsvProcessor.columns_to_keep.
Proof. apply (bool_decide_unpack _). vm_compute. exact I. Qed.

Lemma csv_run_finish (w w1 w2 w3 : world) (todo addresses : list key) (cache' added : dict)
      (new tail : list event) (df out : frame cell) (output_file : string) :
  calmly w w1 ->
  pending e (loaded w) addresses = todo ->
  loop_run todo (loaded w) w1 cache' w2 added new ->
  w_trace w3 = w_trace w2 ++ tail -> unrecorded tail ->
  w_cache_file w3 = w_cache_file w2 ->
  w_csv w3 = (output_file, out) :: w_csv w2 ->
  lookup_col (cols df) "Address" = Some (map cell_of_key addresses) ->
  select (set_col
            (set_col df "Latitude"
               (map (fun a => CsvProcessor.float_cell
                                (fst (CsvProcessor.row_coords cache' a))) addresses))
            "Longitude"
            (map (fun a => CsvProcessor.float_cell
                             (snd (CsvProcessor.row_coords cache' a))) addresses))
         CsvProcessor.columns_to_keep = Ok out ->
  csv_run e w output_file w3.
Proof.
  intros [(n1 & E1 & [S1 C1] & F1) Hcsv1] Htodo Hrun E3 [S3 C3] F3 Hcsv3 Haddr Hsel.
  destruct Hrun as [Hcache Htrace Hfile Hcsv2 _ _ Hcalls Hnodup Hfresh Hcovers].
  apply (CsvRun e w output_file w3 addresses cache' added (n1 ++ new ++ tail) out).
  - rewrite E3, Htrace, E1. now rewrite <- !app_assoc.
  - rewrite !call_log_app, C1, C3, app_nil_r. exact Hcalls.
  - exact Hcache.
  - exact Hnodup.
  - intros k Hk. destruct (Hfresh k Hk) as (? & _ & ?). now split.
  - intros k Hk Ht. rewrite Hcache. rewrite Htodo in Hk. now apply Hcovers.
  - rewrite F3, Hfile, F1, Hcache. reflexivity.
  - rewrite Hcsv3, Hcsv2, Hcsv1. reflexivity.
  - rewrite (select_lookup _ _ _ _ Hsel keep_address). unfold set_col. cbn [cols].
    rewrite !lookup_replace_ne by reflexivity. exact Haddr.
  - rewrite (select_lookup _ _ _ _ Hsel keep_latitude). unfold set_col. cbn [cols].
    rewrite lookup_replace_ne by reflexivity. apply lookup_replace_eq.
  - rewrite (select_lookup _ _ _ _ Hsel keep_longitude). unfold set_col. cbn [cols].
    apply lookup_replace_eq.
Qed.

End CompletedRun.

Ltac ok_raise := intros Hok; discriminate Hok.

Ltac ok_lift :=
  apply wp_bind, wp_lift;
  match goal with
  | |- match ?r with Ok _ => _ | Raise _ => _ end =>
      destruct r as [?|?] eqn:?; [|ok_raise]
  end.

Ltac calm_print :=
  apply wp_bind, wp_print;
  match goal with
  | Hq : calmly ?w0 ?w1 |- wp _ _ ?w2 =>
      let Hq' := fresh "Hq" in
      assert (Hq' : calmly w0 w2) by (apply (calmly_print w0 w1), Hq);
      clear Hq; generalize dependent w2; clear w1; intros w1 Hq
  end.

Section ProcessCsvRun.

Variable e : env.

Lemma address_column_kept (raw : frame key) (addresses : list key)
      (c1 c2 c3 c4 c5 c6 : list cell) :
  get_col raw "Address" = Ok addresses ->
  lookup_col
    (cols (set_col (set_col (set_col (set_col (set_col (set_col
             (CsvProcessor.cells_of raw)
             "Sale_Month" c1) "Sale_Year" c2) CsvProcessor.date_column c3)
             "Price_Cleaned" c4) "Latitude" c5) "Longitude" c6))
    "Address"
  = Some (map cell_of_key addresses).
Proof.
  intros H. unfold set_col. cbn [cols].
  rewrite !lookup_replace_ne by reflexivity.
  rewrite lookup_cells_of. unfold get_col in H.
  destruct (lookup_col (cols raw) "Address") as [l|]; [|discriminate].
  now injection H as ->.
Qed.

Lemma process_csv_run (input_file output_file : string) (max_rows : option Z) (w : world) :
  is_ok (fst (CsvProcessor.process_csv e input_file output_file max_rows w)) = true ->
  csv_run e w output_file
    (snd (CsvProcessor.process_csv e input_file output_file max_rows w)).
Proof.
  change (wp (CsvProcessor.process_csv e input_file output_file max_rows)
             (fun r w' => is_ok r = true -> csv_run e w output_file w') w).
  pose proof (calmly_refl w) as Hq. revert Hq. generalize w at 2 4 as w1.
  intros w1 Hq. unfold CsvProcessor.process_csv.
  ok_lift.
  apply wp_bind.
  destruct max_rows as [n|]; [destruct (n =? 0)%Z|].
  1,3: apply wp_ret.
  3: calm_print; apply wp_ret.
  all: cbv beta iota.
  all: ok_lift.
  all: ok_lift.
  all: cbv zeta.
  all: ok_lift.
  all: apply wp_bind, wp_load_cache.
  all: rewrite (loaded_quietly w w1 (proj1 Hq)).
  all: destruct (w_cache_file w1); [ | ok_raise | ].
  all: ok_lift.
  all: match goal with
       | |- wp (bind (match ?ua with _ => _ end) _) _ _ =>
           destruct ua as [|k0 todo] eqn:Htodo
       end.
  all: match goal with
       | |- wp (bind (ret ?c) _) _ _ =>
           change (ret c) with (CsvProcessor.geocode_loop e [] c)
       | |- wp (bind (bind (print _) _) _) _ _ =>
           apply wp_bind_assoc; calm_print
       end.
  all: apply wp_geocode_loop_run; intros cache' w2 added new Hrun.
  all: apply wp_bind, wp_print.
  all: ok_lift.
  all: apply wp_bind, wp_print.
  all: apply wp_bind, wp_to_csv.
  all: destruct (env_to_csv_error e output_file); [ok_raise|].
  all: apply wp_print; intros _.
  all: eapply (csv_run_finish e w w1 w2); try eassumption.
  all: cbn [w_trace w_cache_file w_csv w_cases_csv].
  all: try reflexivity.
  all: try (rewrite <- !app_assoc; reflexivity).
  all: try (split; reflexivity).
  all: try (eapply address_column_kept; eassumption).
Qed.

End ProcessCsvRun.

(** ** Reading back what was saved *)

Section RoundTrip.

Lemma dict_get_set (k k' : key) (v : coords) (d : dict) :
  dict_get k (dict_set k' v d) = if bool_decide (k' = k) then Some v else dict_get k d.
Proof.
  induction d as [|[k0 v0] d IH]; cbn [dict_set dict_get]; [reflexivity|].
  destruct (bool_decide_reflect (k0 = k')) as [->|Hne]; cbn [dict_get].
  - now destruct (bool_decide (k' = k)).
  - rewrite IH. destruct (bool_decide_reflect (k0 = k)) as [->|Hne']; [|reflexivity].
    now rewrite bool_decide_eq_false_2.
Qed.

Lemma dict_get_app (k : key) (d d' : dict) :
  dict_get k (d ++ d') = match dict_get k d with
                         | Some v => Some v
                         | None => dict_get k d'
                         end.
Proof.
  induction d as [|[k0 v0] d IH]; cbn [dict_get app]; [reflexivity|].
  now destruct (bool_decide (k0 = k)).
Qed.

Lemma dict_get_none (k : key) (d : dict) :
  k ∉ dict_keys d -> dict_get k d = None.
Proof.
  intros H. destruct (dict_get k d) as [v|] eqn:E; [|reflexivity].
  exfalso. apply H, dict_mem_keys. unfold dict_mem. now rewrite E.
Qed.

Lemma elem_of_keys_set (x k : key) (v : coords) (d : dict) :
  x ∈ dict_keys (dict_set k v d) <-> x = k \/ x ∈ dict_keys d.
Proof.
  rewrite <- !dict_mem_keys. unfold dict_mem. rewrite dict_get_set.
  destruct (bool_decide_reflect (k = x)) as [->|Hne].
  - split; [now left | reflexivity].
  - split; [now right | intros [->|H]; [congruence | exact H]].
Qed.

Lemma dict_set_nodup (k : key) (v : coords) (d : dict) :
  NoDup (dict_keys d) -> NoDup (dict_keys (dict_set k v d)).
Proof.
  induction d as [|[k0 v0] d IH]; cbn [dict_set dict_keys map fst]; intros H.
  - constructor; [intros Hin; inversion Hin | constructor].
  - inversion H as [|? ? Hout Hd]; subst.
    destruct (bool_decide_reflect (k0 = k)) as [->|Hne]; cbn [map fst].
    + constructor; assumption.
    + constructor; [|now apply IH].
      intros Hin. apply elem_of_keys_set in Hin as [->|Hin]; [congruence | exact (Hout Hin)].
Qed.

Lemma json_load_nodup (members : list (string * coords)) :
  NoDup (dict_keys (json_load members)).
Proof.
  unfold json_load. generalize (NoDup_nil_2 (A := key)).
  change (@nil key) with (dict_keys []). generalize (@nil (key * coords)) as acc.
  induction members as [|[s v] members IH]; intros acc Hacc; [exact Hacc|].
  cbn [fold_left]. apply IH. now apply dict_set_nodup.
Qed.

Lemma json_load_snoc (members : list (string * coords)) (s : string) (v : coords) :
  json_load (members ++ [(s, v)]) = dict_set (Some s) v (json_load members).
Proof. unfold json_load. now rewrite fold_left_app. Qed.

Lemma json_round_trip (d : dict) (s : string) :
  NoDup (dict_keys d) -> s <> "NaN" ->
  dict_get (Some s) (json_load (json_dump d)) = dict_get (Some s) d.
Proof.
  intros Hd Hs. induction d as [|[k v] d IH] using rev_ind; [reflexivity|].
  unfold json_dump in *. rewrite map_app. cbn [map].
  rewrite json_load_snoc, dict_get_set, dict_get_app.
  rewrite dict_keys_app in Hd. apply NoDup_app in Hd as (Hd & Hfresh & _).
  rewrite (IH Hd). cbn [dict_get].
  destruct (bool_decide_reflect (k = Some s)) as [->|Hne].
  - cbn [json_key]. rewrite bool_decide_eq_true_2 by reflexivity.
    rewrite dict_get_none; [reflexivity|].
    intros Hin. apply (Hfresh _ Hin). cbn. left.
  - rewrite bool_decide_eq_false_2.
    + now destruct (dict_get (Some s) d).
    + destruct k as [s'|]; cbn [json_key]; congruence.
Qed.

Lemma elem_of_unique (a : key) (l : list key) : a ∈ l -> a ∈ unique l.
Proof.
  induction l as [|k l IH]; intros H; [inversion H|].
  cbn [unique]. destruct (decide (a = k)) as [->|Hne]; [left|].
  right. apply list_elem_of_filter. split; [exact Hne|].
  apply IH. inversion H; subst; [congruence | assumption].
Qed.

End RoundTrip.

Section SecondRun.

Lemma loaded_nodup (w : world) : NoDup (dict_keys (loaded w)).
Proof.
  unfold loaded. destruct (w_cache_file w); try apply NoDup_nil_2. apply json_load_nodup.
Qed.

Lemma reload_after_run (w w' : world) (added : dict) (s : string) :
  NoDup (dict_keys added) ->
  (forall k, k ∈ dict_keys added -> k ∉ dict_keys (loaded w)) ->
  w_cache_file w' = match added with
                    | [] => w_cache_file w
                    | _ => Json (json_dump (loaded w ++ added))
                    end ->
  s <> "NaN" ->
  dict_get (Some s) (loaded w') = dict_get (Some s) (loaded w ++ added).
Proof.
  intros Hnd Hfresh Hfile Hs. destruct added as [|entry added].
  - rewrite app_nil_r. unfold loaded. now rewrite Hfile.
  - unfold loaded at 1. rewrite Hfile. apply json_round_trip; [|exact Hs].
    rewrite dict_keys_app. apply NoDup_app. split; [apply loaded_nodup|].
    split; [|exact Hnd]. intros k Hk Hk'. exact (Hfresh k Hk' Hk).
Qed.

Lemma row_of_address (addresses : list key) (f : key -> cell) (i : nat) (a : key) :
  map cell_of_key addresses !! i = Some (cell_of_key a) ->
  map f addresses !! i = Some (f a).
Proof.
  rewrite !list_lookup_fmap. destruct (addresses !! i) as [b|]; [|discriminate].
  cbn. intros H. injection H as H. destruct a, b; cbn in H; congruence.
Qed.

Lemma row_address (addresses : list key) (i : nat) (a : key) :
  map cell_of_key addresses !! i = Some (cell_of_key a) -> a ∈ addresses.
Proof.
  rewrite list_lookup_fmap. destruct (addresses !! i) as [b|] eqn:E; [|discriminate].
  cbn. intros H. injection H as H. apply (list_elem_of_lookup_2 _ i).
  rewrite E. destruct a, b; cbn in H; congruence.
Qed.

End SecondRun.

Section Reuse.

Lemma elem_of_pending (e : env) (cache : dict) (addresses : list key) (a : key) :
  (forall l k, k ∈ l -> k ∈ env_set_order e l) ->
  a ∈ addresses -> a ∉ dict_keys cache -> a ∈ pending e cache addresses.
Proof.
  intros Hset Hin Hout. unfold pending. apply Hset, list_elem_of_filter.
  split; [|now apply elem_of_unique].
  now rewrite bool_decide_eq_false_2.
Qed.

Lemma same_row_coords (e : env) (w w1 : world) (addresses : list key)
      (cache1 added1 added2 : dict) (s : string) :
  (forall l k, k ∈ l -> k ∈ env_set_order e l) ->
  cache1 = loaded w ++ added1 ->
  (forall k, k ∈ pending e (loaded w) addresses -> key_truthy k = true ->
             dict_mem k cache1 = true) ->
  dict_get (Some s) (loaded w1) = dict_get (Some s) cache1 ->
  (forall k, k ∈ dict_keys added2 -> key_truthy k = true) ->
  Some s ∈ addresses ->
  CsvProcessor.row_coords (loaded w1 ++ added2) (Some s)
  = CsvProcessor.row_coords cache1 (Some s).
Proof.
  intros Hset Hcache Hcov Hload Htruthy Hin. unfold CsvProcessor.row_coords.
  rewrite dict_get_app, Hload.
  destruct (dict_get (Some s) cache1) as [v|] eqn:E1; [reflexivity|].
  rewrite dict_get_none; [reflexivity|].
  intros Hin2. specialize (Htruthy _ Hin2).
  assert (Hm : dict_mem (Some s) cache1 = true).
  { apply Hcov; [|exact Htruthy]. apply elem_of_pending; [exact Hset | exact Hin |].
    intros Hk. apply dict_mem_keys in Hk.
    apply (dict_mem_app_l _ _ added1) in Hk. rewrite <- Hcache in Hk.
    unfold dict_mem in Hk. now rewrite E1 in Hk. }
  unfold dict_mem in Hm. now rewrite E1 in Hm.
Qed.

Lemma column_lookup (name : string) (df : frame cell) (l : list cell) :
  lookup_col (cols df) name = Some l -> column name df = l.
Proof. unfold column. now intros ->. Qed.

(** C3. Cache round trip of [process_csv].  In a run that completes,
    [get_coordinates] is not called for any address that the cache held at
    the start, and every output row with such an address carries exactly
    the cached pair.  A later run that starts from the cache file this run
    left writes, for every row of a text address, the coordinates this run
    wrote for that address (a set is iterated over all its elements; the
    text NaN is what the file holds for a missing address). *)
Theorem cache_round_trip (e : env) (input_file output_file : string)
        (max_rows : option Z) (w : world) :
  completes (CsvProcessor.process_csv e input_file output_file max_rows) w ->
  exists out new,
    w_csv (after (CsvProcessor.process_csv e input_file output_file max_rows) w)
    = (output_file, out) :: w_csv w
    /\ w_trace (after (CsvProcessor.process_csv e input_file output_file max_rows) w)
       = w_trace w ++ new
    /\ (forall a v, dict_get a (loaded w) = Some v ->
          (a ∉ call_log new)
          /\ forall i, column "Address" out !! i = Some (cell_of_key a) ->
               column "Latitude" out !! i = Some (CsvProcessor.float_cell (fst v))
               /\ column "Longitude" out !! i = Some (CsvProcessor.float_cell (snd v)))
    /\ (forall e2 input2 output2 max2,
          (forall l a, a ∈ l -> a ∈ env_set_order e l) ->
          completes (CsvProcessor.process_csv e2 input2 output2 max2)
            (after (CsvProcessor.process_csv e input_file output_file max_rows) w) ->
          exists out2,
            w_csv (after (CsvProcessor.process_csv e2 input2 output2 max2)
                     (after (CsvProcessor.process_csv e input_file output_file max_rows) w))
            = (output2, out2)
                :: w_csv (after (CsvProcessor.process_csv e input_file output_file max_rows) w)
            /\ forall s i j, s <> "NaN" ->
                 column "Address" out !! i = Some (CStr s) ->
                 column "Address" out2 !! j = Some (CStr s) ->
                 column "Latitude" out2 !! j = column "Latitude" out !! i
                 /\ column "Longitude" out2 !! j = column "Longitude" out !! i).
Proof.
  intros Hok. unfold completes, after in *.
  pose proof (process_csv_run e input_file output_file max_rows w Hok) as Hrun.
  set (w1 := snd (CsvProcessor.process_csv e input_file output_file max_rows w)) in *.
  destruct Hrun as [addresses cache1 added new out].
  exists out, new. split; [exact cr_csv|]. split; [exact cr_trace|].
  rewrite (column_lookup _ _ _ cr_addr), (column_lookup _ _ _ cr_lat),
    (column_lookup _ _ _ cr_lon).
  split.
  - intros a v Ha. split.
    + rewrite cr_calls. intros Hin. destruct (cr_fresh a Hin) as [Hout _].
      apply Hout, dict_mem_keys. unfold dict_mem. now rewrite Ha.
    + intros i Hi.
      assert (Hrow : CsvProcessor.row_coords cache1 a = v).
      { unfold CsvProcessor.row_coords.
        now rewrite cr_cache, (dict_get_app_l a v _ added Ha). }
      rewrite <- Hrow.
      split; [exact (row_of_address addresses
                       (fun a => CsvProcessor.float_cell
                                   (fst (CsvProcessor.row_coords cache1 a))) i a Hi)
             |exact (row_of_address addresses
                       (fun a => CsvProcessor.float_cell
                                   (snd (CsvProcessor.row_coords cache1 a))) i a Hi)].
  - intros e2 input2 output2 max2 Hset Hok2.
    pose proof (process_csv_run e2 input2 output2 max2 w1 Hok2) as Hrun2.
    destruct Hrun2 as [addresses2 cache2 added2 new2 out2 _ _ Hcache2 _ Hfresh2 _ _ Hcsv2
                         Haddr2 Hlat2 Hlon2].
    exists out2. split; [exact Hcsv2|].
    rewrite (column_lookup _ _ _ Haddr2), (column_lookup _ _ _ Hlat2),
      (column_lookup _ _ _ Hlon2).
    intros s i j Hs Hi Hj.
    change (CStr s) with (cell_of_key (Some s)) in Hi, Hj.
    assert (Hsame : CsvProcessor.row_coords cache2 (Some s)
                    = CsvProcessor.row_coords cache1 (Some s)).
    { rewrite Hcache2.
      apply (same_row_coords e w w1 addresses cache1 added added2 s);
        try assumption.
      - rewrite cr_cache in cr_file. rewrite cr_cache.
        apply reload_after_run; try assumption.
        intros k Hk. now destruct (cr_fresh k Hk).
      - intros k Hk. now destruct (Hfresh2 k Hk).
      - exact (row_address addresses i (Some s) Hi). }
    rewrite (row_of_address addresses
               (fun a => CsvProcessor.float_cell
                           (fst (CsvProcessor.row_coords cache1 a))) i (Some s) Hi).
    rewrite (row_of_address addresses
               (fun a => CsvProcessor.float_cell
                           (snd (CsvProcessor.row_coords cache1 a))) i (Some s) Hi).
    rewrite (row_of_address addresses2
               (fun a => CsvProcessor.float_cell
                           (fst (CsvProcessor.row_coords cache2 a))) j (Some s) Hj).
    rewrite (row_of_address addresses2
               (fun a => CsvProcessor.float_cell
                           (snd (CsvProcessor.row_coords cache2 a))) j (Some s) Hj).
    now rewrite Hsame.
Qed.

End Reuse.

(** The cached address is not looked up again and its row carries the
    cached pair; the other address is looked up once. *)
Lemma cache_round_trip_witness :
  exists out new,
    w_csv (after (CsvProcessor.process_csv sales_env "sales.csv" "out.csv" None)
             cached_world) = [("out.csv", out)]
    /\ w_trace (after (CsvProcessor.process_csv sales_env "sales.csv" "out.csv" None)
                  cached_world) = new
    /\ call_log new = [Some "2 High Street, Dublin 8"]
    /\ column "Latitude" out = [CFloat 53.25; CFloat 53.5]
    /\ column "Longitude" out = [CFloat (-6.125); CFloat (-6.25)].
Proof.
  destruct (cache_round_trip sales_env "sales.csv" "out.csv" None cached_world)
    as (out & new & Hcsv & Htrace & _); [vm_compute; reflexivity|].
  exists out, new. vm_compute in Hcsv. injection Hcsv as <-.
  vm_compute in Htrace. subst new. vm_compute. repeat split; reflexivity.
Defined.

(** ** Exceptions *)

Section SideBySide.

Lemma wp2_bind {A B A' B'} (c1 : M A) (k1 : A -> M B) (c2 : M A') (k2 : A' -> M B')
      (Q : result B -> world -> result B' -> world -> Prop) (w1 w2 : world) :
  wp2 c1 c2 (fun r1 w1' r2 w2' =>
               match r1, r2 with
               | Ok a1, Ok a2 => wp2 (k1 a1) (k2 a2) Q w1' w2'
               | Raise e1, Raise e2 => Q (Raise e1) w1' (Raise e2) w2'
               | _, _ => False
               end) w1 w2 ->
  wp2 (bind c1 k1) (bind c2 k2) Q w1 w2.
Proof.
  unfold wp2, bind.
  destruct (c1 w1) as [[a1|e1] w1'], (c2 w2) as [[a2|e2] w2']; cbn [fst snd]; tauto.
Qed.

Lemma wp2_bind_assoc {A B C A' B' C'} (c1 : M A) (f1 : A -> M B) (k1 : B -> M C)
      (c2 : M A') (f2 : A' -> M B') (k2 : B' -> M C')
      (Q : result C -> world -> result C' -> world -> Prop) (w1 w2 : world) :
  wp2 (bind c1 (fun a => bind (f1 a) k1)) (bind c2 (fun a => bind (f2 a) k2)) Q w1 w2 ->
  wp2 (bind (bind c1 f1) k1) (bind (bind c2 f2) k2) Q w1 w2.
Proof.
  unfold wp2, bind.
  now destruct (c1 w1) as [[a1|e1] w1'], (c2 w2) as [[a2|e2] w2'].
Qed.

Lemma wp2_lift {A B} (r1 : result A) (r2 : result B)
      (Q : result A -> world -> result B -> world -> Prop) (w1 w2 : world) :
  Q r1 w1 r2 w2 -> wp2 (lift r1) (lift r2) Q w1 w2.
Proof. trivial. Qed.

Lemma wp2_ret {A B} (a : A) (b : B)
      (Q : result A -> world -> result B -> world -> Prop) (w1 w2 : world) :
  Q (Ok a) w1 (Ok b) w2 -> wp2 (ret a) (ret b) Q w1 w2.
Proof. trivial. Qed.

Lemma wp2_print (m1 m2 : message)
      (Q : result unit -> world -> result unit -> world -> Prop) (w1 w2 : world) :
  Q (Ok tt) (MkWorld (w_trace w1 ++ [EvPrint m1]) (w_cache_file w1) (w_csv w1) (w_cases_csv w1))
    (Ok tt) (MkWorld (w_trace w2 ++ [EvPrint m2]) (w_cache_file w2) (w_csv w2) (w_cases_csv w2)) ->
  wp2 (print m1) (print m2) Q w1 w2.
Proof. trivial. Qed.

Lemma wp2_to_csv (e1 e2 : env) (df1 df2 : frame cell) (path : string)
      (Q : result unit -> world -> result unit -> world -> Prop) (w1 w2 : world) :
  env_to_csv_error e1 path = env_to_csv_error e2 path ->
  (forall w1' w2', Q (Ok tt) w1' (Ok tt) w2') ->
  (forall err, Q (Raise err) w1 (Raise err) w2) ->
  wp2 (to_csv e1 df1 path) (to_csv e2 df2 path) Q w1 w2.
Proof.
  intros He Hok Hraise. unfold wp2, to_csv. rewrite He.
  destruct (env_to_csv_error e2 path); [apply Hraise | apply Hok].
Qed.

Lemma wp2_load_cache (Q : result dict -> world -> result dict -> world -> Prop)
      (w1 w2 : world) :
  w_cache_file w1 = w_cache_file w2 ->
  (forall err, Q (Raise err) w1 (Raise err) w2) ->
  (forall cache, Q (Ok cache) w1 (Ok cache) w2) ->
  wp2 CsvProcessor.load_cache CsvProcessor.load_cache Q w1 w2.
Proof.
  intros Hf Hraise Hok. unfold wp2, CsvProcessor.load_cache. rewrite Hf.
  destruct (w_cache_file w2); [apply Hok | apply Hraise | apply Hok].
Qed.

Lemma wp2_geocode_loops {A B} (e1 e2 : env) (todo1 todo2 : list key) (c1 c2 : dict)
      (k1 : dict -> M A) (k2 : dict -> M B)
      (Q : result A -> world -> result B -> world -> Prop) (w1 w2 : world) :
  (forall c1' c2' w1' w2', wp2 (k1 c1') (k2 c2') Q w1' w2') ->
  wp2 (bind (CsvProcessor.geocode_loop e1 todo1 c1) k1)
      (bind (CsvProcessor.geocode_loop e2 todo2 c2) k2) Q w1 w2.
Proof.
  intros H. unfold wp2, bind.
  destruct (geocode_loop_run e1 todo1 c1 w1) as (c1' & w1' & ? & ? & -> & _).
  destruct (geocode_loop_run e2 todo2 c2 w2) as (c2' & w2' & ? & ? & -> & _).
  apply H.
Qed.

Lemma wp2_cases_geocode_loops {A B} (e1 e2 : env) (todo1 todo2 : list key) (c1 c2 : dict)
      (n1 n2 : nat) (k1 : dict * nat -> M A) (k2 : dict * nat -> M B)
      (Q : result A -> world -> result B -> world -> Prop) (w1 w2 : world) :
  (forall r1 r2 w1' w2', wp2 (k1 r1) (k2 r2) Q w1' w2') ->
  wp2 (bind (CsvProcessorCases.geocode_loop e1 todo1 c1 n1) k1)
      (bind (CsvProcessorCases.geocode_loop e2 todo2 c2 n2) k2) Q w1 w2.
Proof.
  intros H. unfold wp2, bind.
  destruct (cases_geocode_loop_run e1 todo1 c1 n1 w1) as (c1' & m1 & w1' & ? & ? & -> & _).
  destruct (cases_geocode_loop_run e2 todo2 c2 n2 w2) as (c2' & m2 & w2' & ? & ? & -> & _).
  apply H.
Qed.

End SideBySide.

Section Columns.

Context {A : Type}.

Lemma columns_replace (cs cs' : list (string * list A)) (name : string) (vals vals' : list A) :
  map fst cs = map fst cs' ->
  map fst (replace_col cs name vals) = map fst (replace_col cs' name vals').
Proof.
  revert cs'. induction cs as [|[c l] cs IH]; intros [|[c' l'] cs'] H;
    try discriminate H; [reflexivity|].
  cbn [map fst] in H. injection H as <- H. cbn [replace_col].
  destruct (String.eqb c name); cbn [map fst]; [now rewrite H | now rewrite (IH cs' H)].
Qed.

Lemma columns_set_col (df df' : frame A) (name : string) (vals vals' : list A) :
  columns df = columns df' ->
  columns (set_col df name vals) = columns (set_col df' name vals').
Proof. apply columns_replace. Qed.

Lemma lookup_col_columns (cs cs' : list (string * list A)) (name : string) :
  map fst cs = map fst cs' ->
  is_Some (lookup_col cs name) <-> is_Some (lookup_col cs' name).
Proof.
  revert cs'. induction cs as [|[c l] cs IH]; intros [|[c' l'] cs'] H;
    try discriminate H; [reflexivity|].
  cbn [map fst] in H. injection H as <- H. cbn [lookup_col].
  destruct (String.eqb c name); [|now apply IH].
  split; intros _; eexists; reflexivity.
Qed.

Lemma get_col_columns (df df' : frame A) (name : string) :
  columns df = columns df' ->
  same_outcome (get_col df name) (get_col df' name).
Proof.
  intros H. unfold same_outcome, get_col.
  pose proof (lookup_col_columns (cols df) (cols df') name H) as [H1 H2].
  destruct (lookup_col (cols df) name) as [l|], (lookup_col (cols df') name) as [l'|];
    try reflexivity.
  - destruct H1 as [? ?]; [eexists; reflexivity | discriminate].
  - destruct H2 as [? ?]; [eexists; reflexivity | discriminate].
Qed.

Lemma select_columns (df df' : frame A) (names : list string) :
  columns df = columns df' ->
  match select df names, select df' names with
  | Ok out, Ok out' => columns out = columns out'
  | Raise _, Raise _ => True
  | _, _ => False
  end.
Proof.
  intros H. unfold select.
  assert (Hm : match mapM (fun n => match lookup_col (cols df) n with
                                    | Some l => Ok (n, l)
                                    | None => Raise (KeyError n)
                                    end) names,
                     mapM (fun n => match lookup_col (cols df') n with
                                    | Some l => Ok (n, l)
                                    | None => Raise (KeyError n)
                                    end) names with
               | Ok cs, Ok cs' => map fst cs = map fst cs'
               | Raise _, Raise _ => True
               | _, _ => False
               end).
  { induction names as [|n names IH]; cbn [mapM]; [reflexivity|].
    pose proof (lookup_col_columns (cols df) (cols df') n H) as [H1 H2].
    destruct (lookup_col (cols df) n) as [l|], (lookup_col (cols df') n) as [l'|].
    - destruct (mapM _ names), (mapM _ names); try exact IH.
      cbn [map fst]. now rewrite IH.
    - destruct H1 as [? ?]; [eexists; reflexivity | discriminate].
    - destruct H2 as [? ?]; [eexists; reflexivity | discriminate].
    - exact I. }
  destruct (mapM _ names), (mapM _ names); exact Hm.
Qed.

End Columns.

Ltac sync_lift :=
  apply wp2_bind, wp2_lift;
  match goal with
  | |- match ?r with Ok _ => _ | Raise _ => _ end =>
      destruct r as [?|?]; cbv beta iota; [|reflexivity]
  end.

Ltac sync_print := apply wp2_bind, wp2_print; cbv beta iota.

Ltac sync_select :=
  apply wp2_bind, wp2_lift;
  match goal with
  | |- match select ?df1 ?names with
       | Ok _ => match select ?df2 _ with _ => _ end
       | Raise _ => _
       end =>
      let H := fresh "Hcols" in
      assert (H : columns df1 = columns df2)
        by (repeat apply columns_set_col; reflexivity);
      pose proof (select_columns df1 df2 names H);
      destruct (select df1 names), (select df2 names);
      try contradiction; cbv beta iota; [|reflexivity]
  end.

Section Geocoder.

Variable e : env.
Variable g : trace -> string -> geo_reply.

Lemma process_csv_same_outcome (input_file output_file : string) (max_rows : option Z)
      (w : world) :
  same_outcome
    (fst (CsvProcessor.process_csv (with_geocoder g e) input_file output_file max_rows w))
    (fst (CsvProcessor.process_csv e input_file output_file max_rows w)).
Proof.
  change (wp2 (CsvProcessor.process_csv (with_geocoder g e) input_file output_file max_rows)
              (CsvProcessor.process_csv e input_file output_file max_rows)
              (fun r1 _ r2 _ => same_outcome r1 r2) w w).
  unfold CsvProcessor.process_csv.
  cbn [with_geocoder env_read_csv_str env_set_order env_to_csv_error].
  change (CsvProcessor.to_datetime (with_geocoder g e)) with (CsvProcessor.to_datetime e).
  change (CsvProcessor.cell_val (with_geocoder g e)) with (CsvProcessor.cell_val e).
  sync_lift.
  apply wp2_bind.
  destruct max_rows as [n|]; [destruct (n =? 0)%Z|].
  1,3: apply wp2_ret.
  3: sync_print; apply wp2_ret.
  all: cbv beta iota.
  all: sync_lift.
  all: sync_lift.
  all: cbv zeta.
  all: sync_lift.
  all: apply wp2_bind, wp2_load_cache.
  all: try reflexivity.
  all: try (intros err; reflexivity).
  all: intros cache; cbv beta iota.
  all: sync_lift.
  all: match goal with
       | |- wp2 (bind (match ?ua with _ => _ end) _) _ _ _ _ => destruct ua
       end.
  all: match goal with
       | |- wp2 (bind (ret ?c) _) _ _ _ _ =>
           change (ret c) with (CsvProcessor.geocode_loop e [] c)
       | |- wp2 (bind (bind (print _) _) _) _ _ _ _ =>
           apply wp2_bind_assoc; sync_print
       end.
  all: apply wp2_geocode_loops; intros cache1 cache2 w1 w2.
  all: sync_print.
  all: sync_select.
  all: sync_print.
  all: apply wp2_bind, wp2_to_csv;
    [reflexivity | intros w1' w2'; cbv beta iota | intros; reflexivity].
  all: apply wp2_print; reflexivity.
Qed.

End Geocoder.

Section SideBySideMore.

Lemma wp2_ret_any {A B C} (c : A) (k1 : A -> M B) (k2 : A -> M C)
      (Q : result B -> world -> result C -> world -> Prop) (w1 w2 : world) :
  (forall c1 c2 w1' w2', wp2 (k1 c1) (k2 c2) Q w1' w2') ->
  wp2 (bind (ret c) k1) (bind (ret c) k2) Q w1 w2.
Proof. intros H. apply (H c c w1 w2). Qed.

Lemma wp2_throw {A B} (err : exn)
      (Q : result A -> world -> result B -> world -> Prop) (w1 w2 : world) :
  Q (Raise err) w1 (Raise err) w2 -> wp2 (throw err) (throw err) Q w1 w2.
Proof. trivial. Qed.

End SideBySideMore.

Ltac sync_get_col :=
  apply wp2_bind, wp2_lift;
  match goal with
  | H : columns ?f1 = columns ?f2 |- match get_col ?f1 ?n with _ => _ end =>
      let Hs := fresh "Hs" in
      pose proof (get_col_columns f1 f2 n H) as Hs; unfold same_outcome in Hs;
      destruct (get_col f1 n), (get_col f2 n);
      try discriminate Hs; cbv beta iota; [|reflexivity]
  end.

Section GeocoderCases.

Variable e : env.
Variable g : trace -> string -> geo_reply.

Lemma process_planning_cases_same_outcome (input_file output_file : string)
      (max_rows : option Z) (w : world) :
  same_outcome
    (fst (CsvProcessorCases.process_planning_cases (with_geocoder g e)
            input_file output_file max_rows w))
    (fst (CsvProcessorCases.process_planning_cases e input_file output_file max_rows w)).
Proof.
  change (wp2 (CsvProcessorCases.process_planning_cases (with_geocoder g e)
                 input_file output_file max_rows)
              (CsvProcessorCases.process_planning_cases e input_file output_file max_rows)
              (fun r1 _ r2 _ => same_outcome r1 r2) w w).
  unfold CsvProcessorCases.process_planning_cases, CsvProcessorCases.load_cache.
  cbn [with_geocoder env_read_csv_str env_set_order env_to_csv_error].
  sync_lift.
  apply wp2_bind.
  destruct max_rows as [n|]; [destruct (n =? 0)%Z|].
  1,3: apply wp2_ret.
  3: sync_print; apply wp2_ret.
  all: cbv beta iota zeta.
  all: apply wp2_bind, wp2_load_cache.
  all: try reflexivity.
  all: try (intros err; reflexivity).
  all: intros cache; cbv beta iota.
  all: sync_lift.
  all: match goal with
       | |- wp2 (bind (match ?ua with _ => _ end) _) _ _ _ _ => destruct ua
       end.
  all: match goal with
       | |- wp2 (bind (ret _) _) _ _ _ _ =>
           apply wp2_ret_any; intros cache1 cache2 w1 w2
       | |- wp2 (bind (bind (print _) _) _) _ _ _ _ =>
           apply wp2_bind_assoc; sync_print; apply wp2_bind_assoc;
           apply wp2_cases_geocode_loops; intros r1 r2 w1 w2;
           apply wp2_bind_assoc; sync_print;
           apply wp2_bind, wp2_ret; cbv beta iota
       end.
  all: sync_print.
  all: apply wp2_bind, wp2_lift; cbv beta iota.
  all: match goal with
       | |- wp2 (bind (lift (select ?d1 _)) _) (bind (lift (select ?d2 _)) _) _ _ _ =>
           let Hc := fresh "Hc" in
           assert (Hc : columns d1 = columns d2)
             by (repeat apply columns_set_col; reflexivity);
           rewrite Hc; clear Hc
       end.
  all: sync_select.
  all: sync_get_col.
  all: sync_print.
  all: sync_print.
  all: apply wp2_bind.
  all: match goal with
       | H : columns ?f1 = columns ?f2 |- _ => rewrite H
       end.
  all: match goal with
       | |- wp2 (if ?b then _ else _) _ _ _ _ =>
           destruct b; [apply wp2_throw; reflexivity | apply wp2_ret; cbv beta iota]
       end.
  all: apply wp2_bind, wp2_to_csv;
    [reflexivity | intros w1' w2'; cbv beta iota | intros; reflexivity].
  all: apply wp2_print; reflexivity.
Qed.

End GeocoderCases.

(** ** What is printed about a failed lookup *)

Section Reports.

Lemma requests_app (a b : list event) : requests (a ++ b) = requests a ++ requests b.
Proof.
  induction a as [|ev a IH]; [reflexivity|].
  destruct ev; cbn [requests app]; now rewrite ?IH.
Qed.

Lemma not_found_reports_app (a b : list event) :
  not_found_reports (a ++ b) = not_found_reports a + not_found_reports b.
Proof.
  induction a as [|ev a IH]; [reflexivity|].
  destruct ev as [| | |m| |]; cbn [not_found_reports app]; try exact IH.
  destruct m; cbn [not_found_reports app]; now rewrite ?IH.
Qed.

Lemma failure_reports_app (a b : list event) :
  failure_reports (a ++ b) = failure_reports a + failure_reports b.
Proof.
  induction a as [|ev a IH]; [reflexivity|].
  destruct ev as [| | |m| |]; cbn [failure_reports app]; try exact IH.
  destruct m; cbn [failure_reports app]; now rewrite ?IH.
Qed.

Variable e : env.

(** The exception of a request is printed by [csv_processor] at the last
    try only. *)
Lemma try_loop_failure_reports (address : pyval) (last : nat)
      (todo : list (nat * (string -> option string))) (t : trace) :
  failure_reports (snd (CsvProcessor.try_loop e address last todo t))
  <= failure_reports t + length (List.filter (fun nf => (fst nf =? last)%nat) todo).
Proof.
  revert t. induction todo as [|[n f] todo IH]; intros t.
  - cbn [CsvProcessor.try_loop snd]. rewrite failure_reports_app. cbn. lia.
  - cbn [CsvProcessor.try_loop List.filter fst].
    assert (Hstep : forall tail,
               failure_reports (snd (CsvProcessor.try_loop e address last todo
                                       (((t ++ [EvSleep 1]) ++ [EvGeocode tail.1]) ++ tail.2)))
               <= failure_reports t + failure_reports tail.2
                  + length (List.filter (fun nf => (fst nf =? last)%nat) todo)).
    { intros tail. etransitivity; [apply IH|].
      rewrite !failure_reports_app. cbn [failure_reports]. lia. }
    destruct (f _) as [q|].
    + destruct (env_geocode e _ q) as [|lat lon|err].
      * specialize (Hstep (q, [])). cbn [fst snd] in Hstep. rewrite app_nil_r in Hstep.
        cbn [failure_reports] in Hstep. destruct (n =? last)%nat; cbn [length]; lia.
      * destruct (CsvProcessor.in_box lat lon).
        -- cbn [snd]. rewrite !failure_reports_app. cbn [failure_reports]. lia.
        -- specialize (Hstep (q, [])). cbn [fst snd] in Hstep. rewrite app_nil_r in Hstep.
           cbn [failure_reports] in Hstep. destruct (n =? last)%nat; cbn [length]; lia.
      * destruct (n =? last)%nat; rewrite ?andb_false_r, ?andb_true_r.
        -- destruct (CsvProcessor.is_geocoder_error err).
           ++ specialize (Hstep (q, [EvPrint (MsgFailedGeocode address err)])).
              cbn [fst snd failure_reports] in Hstep. cbn [length]. lia.
           ++ specialize (Hstep (q, [])). cbn [fst snd] in Hstep. rewrite app_nil_r in Hstep.
              cbn [failure_reports length] in *. lia.
        -- specialize (Hstep (q, [])). cbn [fst snd] in Hstep. rewrite app_nil_r in Hstep.
           cbn [failure_reports] in Hstep. lia.
    + etransitivity; [apply IH|]. destruct (n =? last)%nat; cbn [length]; lia.
Qed.

(** [csv_processor_cases] never prints the exception of a request. *)
Lemma variant_loop_failure_reports (address : pyval) (todo : list string) (t : trace) :
  failure_reports (snd (CsvProcessorCases.variant_loop e address todo t)) = failure_reports t.
Proof.
  revert t. induction todo as [|q todo IH]; intros t.
  - cbn [CsvProcessorCases.variant_loop snd]. rewrite failure_reports_app. cbn. lia.
  - cbn [CsvProcessorCases.variant_loop].
    assert (Hstep : failure_reports
                      (snd (CsvProcessorCases.variant_loop e address todo
                              ((t ++ [EvSleep 1]) ++ [EvGeocode q]))) = failure_reports t).
    { rewrite IH, !failure_reports_app. cbn [failure_reports]. lia. }
    destruct (env_geocode e _ q) as [|lat lon|err]; try exact Hstep.
    destruct (CsvProcessorCases.in_box lat lon); [|exact Hstep].
    cbn [snd]. rewrite !failure_reports_app. cbn [failure_reports]. lia.
Qed.

Variable failure : trace -> string -> exn.

Lemma geocode_raising (t : trace) (q : string) :
  env_geocode (raising failure e) t q = GeoRaise (failure t q).
Proof. reflexivity. Qed.

Lemma try_loop_raising (address : pyval) (last : nat)
      (todo : list (nat * (string -> option string))) (t : trace) :
  fst (CsvProcessor.try_loop (raising failure e) address last todo t) = (None, None)
  /\ not_found_reports (snd (CsvProcessor.try_loop (raising failure e) address last todo t))
     = not_found_reports t + 1
  /\ ((forall t q, CsvProcessor.is_geocoder_error (failure t q) = false) ->
      failure_reports (snd (CsvProcessor.try_loop (raising failure e) address last todo t))
      = failure_reports t).
Proof.
  revert t. induction todo as [|[n f] todo IH]; intros t.
  - cbn [CsvProcessor.try_loop fst snd].
    rewrite not_found_reports_app, failure_reports_app. cbn. split; [reflexivity|]. split; lia.
  - cbn [CsvProcessor.try_loop]. destruct (f _) as [q|]; [|apply IH].
    rewrite geocode_raising.
    destruct (_ && _) eqn:Hp.
    + destruct (IH (((t ++ [EvSleep 1]) ++ [EvGeocode q])
                      ++ [EvPrint (MsgFailedGeocode address
                                     (failure (t ++ [EvSleep 1]) q))]))
        as (H1 & H2 & H3).
      split; [exact H1|]. split.
      * rewrite H2, !not_found_reports_app. cbn [not_found_reports]. lia.
      * intros Hf. rewrite Hf in Hp. discriminate Hp.
    + destruct (IH ((t ++ [EvSleep 1]) ++ [EvGeocode q])) as (H1 & H2 & H3).
      split; [exact H1|]. split.
      * rewrite H2, !not_found_reports_app. cbn [not_found_reports]. lia.
      * intros Hf. rewrite (H3 Hf), !failure_reports_app. cbn [failure_reports]. lia.
Qed.

Lemma variant_loop_raising (address : pyval) (todo : list string) (t : trace) :
  fst (CsvProcessorCases.variant_loop (raising failure e) address todo t) = (None, None)
  /\ not_found_reports (snd (CsvProcessorCases.variant_loop (raising failure e) address todo t))
     = not_found_reports t + 1.
Proof.
  revert t. induction todo as [|q todo IH]; intros t.
  - cbn [CsvProcessorCases.variant_loop fst snd].
    rewrite not_found_reports_app. cbn. split; [reflexivity|lia].
  - cbn [CsvProcessorCases.variant_loop]. rewrite geocode_raising.
    destruct (IH ((t ++ [EvSleep 1]) ++ [EvGeocode q])) as (H1 & H2).
    split; [exact H1|].
    rewrite H2, !not_found_reports_app. cbn [not_found_reports]. lia.
Qed.

End Reports.

(** ** The steps the pipelines do not guard *)

Section Unguarded.

Lemma wp_bind_any {A B} (c : M A) (k : A -> M B) (Q : result B -> world -> Prop) (w : world) :
  (forall a w', wp (k a) Q w') -> (forall err w', Q (Raise err) w') -> wp (bind c k) Q w.
Proof.
  intros Hk Hr. apply wp_bind. unfold wp at 1. destruct (fst (c w)); [apply Hk | apply Hr].
Qed.

Variable e : env.

Lemma dates_parsed (dates : list key) (stamps : list (option date)) :
  mapM (CsvProcessor.to_datetime e) dates = Ok stamps ->
  forall text, Some text ∈ dates -> is_Some (env_to_datetime e text).
Proof.
  revert stamps. induction dates as [|k dates IH]; intros stamps H text Hin;
    [inversion Hin|].
  cbn [mapM] in H.
  destruct (CsvProcessor.to_datetime e k) as [d|] eqn:Hk; [|discriminate H].
  destruct (mapM _ dates) as [ds|]; [|discriminate H].
  apply elem_of_cons in Hin as [<-|Hin]; [|now apply (IH ds)].
  cbn [CsvProcessor.to_datetime] in Hk.
  destruct (env_to_datetime e text); [eexists; reflexivity | discriminate Hk].
Qed.

Ltac needs_print := apply wp_bind, wp_print.

Ltac needs_loop :=
  apply wp_bind_any; [intros ? ?; cbv beta | intros ? ? Hok; discriminate Hok].

(** [process_csv] completes only if none of its unguarded steps raised. *)
Lemma process_csv_needs (input_file output_file : string) (max_rows : option Z) (w : world) :
  completes (CsvProcessor.process_csv e input_file output_file max_rows) w ->
  exists raw dates,
    env_read_csv_str e input_file = Ok raw
    /\ get_col (limited max_rows raw) CsvProcessor.date_column = Ok dates
    /\ (forall text, Some text ∈ dates -> is_Some (env_to_datetime e text))
    /\ cache_readable w = true
    /\ env_to_csv_error e output_file = None.
Proof.
  unfold completes, cache_readable.
  change (wp (CsvProcessor.process_csv e input_file output_file max_rows)
             (fun r _ => is_ok r = true ->
                exists raw dates,
                  env_read_csv_str e input_file = Ok raw
                  /\ get_col (limited max_rows raw) CsvProcessor.date_column = Ok dates
                  /\ (forall text, Some text ∈ dates -> is_Some (env_to_datetime e text))
                  /\ match w_cache_file w with Corrupt _ => false | _ => true end = true
                  /\ env_to_csv_error e output_file = None) w).
  assert (Hfile : w_cache_file w = w_cache_file w) by reflexivity.
  revert Hfile. generalize w at 2 4 as w1. intros w1 Hfile.
  unfold CsvProcessor.process_csv.
  ok_lift.
  apply wp_bind. unfold limited.
  destruct max_rows as [n|]; [destruct (n =? 0)%Z|].
  1,3: apply wp_ret.
  3: needs_print; apply wp_ret.
  all: cbv beta iota.
  all: ok_lift.
  all: ok_lift.
  all: cbv zeta.
  all: ok_lift.
  all: apply wp_bind, wp_load_cache; cbn [w_cache_file].
  all: rewrite <- Hfile.
  all: destruct (w_cache_file w); [ | ok_raise | ].
  all: ok_lift.
  all: needs_loop.
  all: needs_print.
  all: ok_lift.
  all: needs_print.
  all: apply wp_bind, wp_to_csv.
  all: destruct (env_to_csv_error e output_file); [ok_raise|].
  all: apply wp_print; intros _.
  all: eexists _, _; repeat split; try eassumption; try reflexivity.
  all: eapply dates_parsed; eassumption.
Qed.

(** So does [process_planning_cases]. *)
Lemma process_planning_cases_needs (input_file output_file : string) (max_rows : option Z)
      (w : world) :
  completes (CsvProcessorCases.process_planning_cases e input_file output_file max_rows) w ->
  is_ok (env_read_csv_str e input_file) = true
  /\ cache_readable w = true
  /\ env_to_csv_error e output_file = None.
Proof.
  unfold completes, cache_readable.
  change (wp (CsvProcessorCases.process_planning_cases e input_file output_file max_rows)
             (fun r _ => is_ok r = true ->
                is_ok (env_read_csv_str e input_file) = true
                /\ match w_cache_file w with Corrupt _ => false | _ => true end = true
                /\ env_to_csv_error e output_file = None) w).
  assert (Hfile : w_cache_file w = w_cache_file w) by reflexivity.
  revert Hfile. generalize w at 2 4 as w1. intros w1 Hfile.
  unfold CsvProcessorCases.process_planning_cases, CsvProcessorCases.load_cache.
  ok_lift.
  apply wp_bind.
  destruct max_rows as [n|]; [destruct (n =? 0)%Z|].
  1,3: apply wp_ret.
  3: needs_print; apply wp_ret.
  all: cbv beta iota zeta.
  all: apply wp_bind, wp_load_cache; cbn [w_cache_file].
  all: rewrite <- Hfile.
  all: destruct (w_cache_file w); [ | ok_raise | ].
  all: ok_lift.
  all: needs_loop.
  all: needs_print.
  all: apply wp_bind, wp_lift; cbv beta iota.
  all: ok_lift.
  all: ok_lift.
  all: needs_print.
  all: needs_print.
  all: needs_loop.
  all: apply wp_bind, wp_to_csv.
  all: destruct (env_to_csv_error e output_file); [ok_raise|].
  all: apply wp_print; intros _.
  all: repeat split; reflexivity.
Qed.

End Unguarded.

(** ** Failures of the merge *)

Section Absorbed.

Variable e : env.

Lemma merge_csv_files_returns (input_directory output_file : string) (w : world) :
  exists b, fst (Merger.merge_csv_files e input_directory output_file w) = Ok b.
Proof.
  rewrite merge_csv_files_result.
  destruct (env_glob_csv e input_directory) as [[|file files]|err];
    [eexists; reflexivity | | eexists; reflexivity].
  cbv zeta. destruct (readable e (file :: files)); [eexists; reflexivity|].
  destruct (env_to_csv_error e output_file); eexists; reflexivity.
Qed.

Lemma merge_csv_files_listing_fails (input_directory output_file : string) (w : world)
      (err : exn) :
  env_glob_csv e input_directory = Raise err ->
  Merger.merge_csv_files e input_directory output_file w
  = (Ok false, logged w [EvPrint (MsgError err)]).
Proof. intros H. now rewrite merge_csv_files_result, H. Qed.

Lemma merge_csv_files_write_fails (input_directory output_file : string) (w : world)
      (csv_files : list string) (err : exn) :
  env_glob_csv e input_directory = Ok csv_files ->
  readable e csv_files <> [] ->
  env_to_csv_error e output_file = Some err ->
  Merger.merge_csv_files e input_directory output_file w
  = (Ok false,
     logged w (EvPrint (MsgFound (length csv_files)) :: map (read_report e) csv_files
               ++ [EvPrint (MsgError err)])).
Proof.
  intros Hglob Hread Hwrite. rewrite merge_csv_files_result, Hglob.
  destruct csv_files as [|file files]; [now destruct Hread|].
  cbv zeta. destruct (readable e (file :: files)); [now destruct Hread|].
  now rewrite Hwrite.
Qed.

Lemma unread_input_raises (input_file output_file : string) (max_rows : option Z)
      (w : world) (err : exn) :
  env_read_csv_str e input_file = Raise err ->
  fst (CsvProcessor.process_csv e input_file output_file max_rows w) = Raise err
  /\ fst (CsvProcessorCases.process_planning_cases e input_file output_file max_rows w)
     = Raise err.
Proof.
  intros H. split.
  - unfold CsvProcessor.process_csv. unfold bind at 1, lift. now rewrite H.
  - unfold CsvProcessorCases.process_planning_cases. unfold bind at 1, lift. now rewrite H.
Qed.

End Absorbed.

(** C2 (amended).  [merge_csv_files] never propagates an exception: a
    failure of the directory listing or of the final write is printed and
    the call returns False, and a file that cannot be read is reported and
    left out.  [get_coordinates] catches every exception of the geocoder:
    a lookup whose requests all raise returns the null pair and prints
    "Could not find coordinates" once.  The exception itself is printed by
    csv_processor at most once per lookup, and not at all when every
    request raises an exception other than GeocoderTimedOut and
    GeocoderServiceError; csv_processor_cases never prints it.  Whether
    [process_csv] and [process_planning_cases] complete does not depend on
    the geocoder.  They catch nothing themselves: the exception of the
    input read ends the run, and a run completes only if the input was
    read, every date of the rows kept was parsed ([process_csv]), the
    cache file was loaded and the output file was written. *)
Theorem failures_are_absorbed (e : env) :
  (forall input_directory output_file w,
      (exists b, fst (Merger.merge_csv_files e input_directory output_file w) = Ok b)
      /\ (forall err,
             env_glob_csv e input_directory = Raise err ->
             Merger.merge_csv_files e input_directory output_file w
             = (Ok false, logged w [EvPrint (MsgError err)]))
      /\ (forall csv_files err,
             env_glob_csv e input_directory = Ok csv_files ->
             readable e csv_files <> [] ->
             env_to_csv_error e output_file = Some err ->
             Merger.merge_csv_files e input_directory output_file w
             = (Ok false,
                logged w (EvPrint (MsgFound (length csv_files))
                          :: map (read_report e) csv_files ++ [EvPrint (MsgError err)]))))
  /\ (forall csv_files w,
        fst (Merger.read_all e csv_files w) = Ok (readable e csv_files)
        /\ snd (Merger.read_all e csv_files w) = logged w (map (read_report e) csv_files))
  /\ (forall (failure : trace -> string -> exn) address t,
        fst (CsvProcessor.get_coordinates (raising failure e) address t) = (None, None)
        /\ not_found_reports (snd (CsvProcessor.get_coordinates (raising failure e) address t))
           = not_found_reports t + 1
        /\ ((forall t q, CsvProcessor.is_geocoder_error (failure t q) = false) ->
            failure_reports (snd (CsvProcessor.get_coordinates (raising failure e) address t))
            = failure_reports t)
        /\ fst (CsvProcessorCases.get_coordinates (raising failure e) address t) = (None, None)
        /\ not_found_reports
             (snd (CsvProcessorCases.get_coordinates (raising failure e) address t))
           = not_found_reports t + 1)
  /\ (forall address t,
        failure_reports (snd (CsvProcessor.get_coordinates e address t))
        <= failure_reports t + 1
        /\ failure_reports (snd (CsvProcessorCases.get_coordinates e address t))
           = failure_reports t)
  /\ (forall g input_file output_file max_rows w,
        same_outcome
          (fst (CsvProcessor.process_csv (with_geocoder g e)
                  input_file output_file max_rows w))
          (fst (CsvProcessor.process_csv e input_file output_file max_rows w))
        /\ same_outcome
             (fst (CsvProcessorCases.process_planning_cases (with_geocoder g e)
                     input_file output_file max_rows w))
             (fst (CsvProcessorCases.process_planning_cases e
                     input_file output_file max_rows w)))
  /\ (forall input_file output_file max_rows w,
        (forall err,
            env_read_csv_str e input_file = Raise err ->
            fst (CsvProcessor.process_csv e input_file output_file max_rows w) = Raise err
            /\ fst (CsvProcessorCases.process_planning_cases e
                      input_file output_file max_rows w) = Raise err)
        /\ (completes (CsvProcessor.process_csv e input_file output_file max_rows) w ->
            exists raw dates,
              env_read_csv_str e input_file = Ok raw
              /\ get_col (limited max_rows raw) CsvProcessor.date_column = Ok dates
              /\ (forall text, Some text ∈ dates -> is_Some (env_to_datetime e text))
              /\ cache_readable w = true
              /\ env_to_csv_error e output_file = None)
        /\ (completes (CsvProcessorCases.process_planning_cases e
                         input_file output_file max_rows) w ->
            is_ok (env_read_csv_str e input_file) = true
            /\ cache_readable w = true
            /\ env_to_csv_error e output_file = None)).
Proof.
  split; [|split; [|split; [|split; [|split]]]].
  - intros input_directory output_file w.
    split; [apply merge_csv_files_returns|].
    split; [intros err; apply merge_csv_files_listing_fails
           |intros csv_files err; apply merge_csv_files_write_fails].
  - intros files w. now rewrite read_all_readable.
  - intros failure address t.
    destruct (try_loop_raising e failure address
                (length CsvProcessor.tries - 1) (CsvProcessor.enumerate_from 0 CsvProcessor.tries) t)
      as (H1 & H2 & H3).
    destruct (variant_loop_raising e failure address
                (CsvProcessorCases.address_variants
                   (CsvProcessorCases.clean_address_for_planning address)) t) as (H4 & H5).
    repeat split; assumption.
  - intros address t. split; [|apply variant_loop_failure_reports].
    unfold CsvProcessor.get_coordinates.
    etransitivity; [apply try_loop_failure_reports|]. cbn. lia.
  - intros g input_file output_file max_rows w.
    split; [apply process_csv_same_outcome | apply process_planning_cases_same_outcome].
  - intros input_file output_file max_rows w.
    split; [intros err; apply unread_input_raises|].
    split; [apply process_csv_needs | apply process_planning_cases_needs].
Qed.

(** C2, as stated, fails.  An input file that cannot be read ends both
    pipelines with the exception of the read; and of the exceptions of a
    geocoder that times out at every request csv_processor_cases prints
    none and csv_processor only the last. *)
Lemma failures_escape_or_go_unreported :
  fst (CsvProcessor.process_csv repeating_env "sales.csv" "out.csv" None empty_world)
  = Raise (OSError "no such file")
  /\ fst (CsvProcessorCases.process_planning_cases repeating_env "cases.csv" "out.csv"
            None empty_world)
     = Raise (OSError "no such file")
  /\ CsvProcessorCases.get_coordinates timed_out_env (VStr "1 Main Street, Dublin 4") []
     = ((None, None),
        [EvSleep 1; EvGeocode "1 Main Street, Dublin 4, Ireland";
         EvSleep 1; EvGeocode "1 Main Street, Dublin 4, Ireland";
         EvSleep 1; EvGeocode "1 Main Street, Dublin 4, Ireland";
         EvSleep 1; EvGeocode "1 Main Street, Dublin, Ireland";
         EvPrint (MsgCouldNotFind (VStr "1 Main Street, Dublin 4"))])
  /\ CsvProcessor.get_coordinates timed_out_env (VStr "1 Main Street, Dublin 4") []
     = ((None, None),
        [EvSleep 1; EvGeocode "Main Street, D4, Dublin, Ireland";
         EvSleep 1; EvGeocode "Main Street, Dublin, Ireland";
         EvSleep 1; EvGeocode "Main Street, D4, Dublin, Ireland";
         EvPrint (MsgFailedGeocode (VStr "1 Main Street, Dublin 4")
                                   (GeocoderTimedOut "timed out"));
         EvPrint (MsgCouldNotFind (VStr "1 Main Street, Dublin 4"))]).
Proof. repeat split; vm_compute; reflexivity. Qed.

(** * Further properties *)

(** ** The cache file read back *)

Section SaveLoad.

Lemma json_key_text (k : key) : is_Some k -> Some (json_key k) = k.
Proof. intros [s ->]. reflexivity. Qed.

Lemma json_load_dump (d : dict) :
  NoDup (dict_keys d) -> text_keys d -> json_load (json_dump d) = d.
Proof.
  intros Hd Ht. induction d as [|[k v] d IH] using rev_ind; [reflexivity|].
  unfold json_dump in *. rewrite map_app. cbn [map].
  rewrite json_load_snoc.
  rewrite dict_keys_app in Hd. apply NoDup_app in Hd as (Hd & Hfresh & _).
  rewrite IH; [|exact Hd|].
  - rewrite json_key_text.
    + apply dict_set_fresh. unfold dict_mem. rewrite dict_get_none; [reflexivity|].
      intros Hin. apply (Hfresh _ Hin). cbn. left.
    + apply Ht. rewrite dict_keys_app. apply elem_of_app. right. cbn. left.
  - intros k' Hk'. apply Ht. rewrite dict_keys_app. apply elem_of_app. now left.
Qed.

End SaveLoad.

(** X1. What [save_cache] writes, [load_cache] reads back unchanged, when
    the keys of the mapping are distinct texts. *)
Theorem save_then_load (cache : dict) (w : world) :
  NoDup (dict_keys cache) -> text_keys cache ->
  fst (CsvProcessor.load_cache (snd (CsvProcessor.save_cache cache w))) = Ok cache
  /\ fst (CsvProcessorCases.load_cache (snd (CsvProcessorCases.save_cache cache w)))
     = Ok cache.
Proof.
  intros Hd Ht.
  unfold CsvProcessorCases.load_cache, CsvProcessorCases.save_cache,
    CsvProcessor.load_cache, CsvProcessor.save_cache.
  cbn [fst snd w_cache_file]. now rewrite json_load_dump.
Qed.

Lemma save_then_load_witness :
  fst (CsvProcessor.load_cache
         (snd (CsvProcessor.save_cache
                 [(Some "1 Main Street", (Some 53.25%float, Some (-6.125)%float));
                  (Some "2 High Street", (None, None))] empty_world)))
  = Ok [(Some "1 Main Street", (Some 53.25%float, Some (-6.125)%float));
        (Some "2 High Street", (None, None))].
Proof.
  apply (save_then_load
           [(Some "1 Main Street", (Some 53.25%float, Some (-6.125)%float));
            (Some "2 High Street", (None, None))] empty_world).
  - apply (bool_decide_unpack _). vm_compute. exact I.
  - intros k Hk. cbn in Hk.
    repeat (apply elem_of_cons in Hk as [->|Hk]; [eexists; reflexivity|]).
    inversion Hk.
Defined.

(** ** The requests of one lookup *)

Section Requests.

Lemma lookup_log_sent (t t' : trace) (q : string) (planned : list string)
      (r : coords * trace) :
  requests t' = requests t ++ [q] ->
  not_found_reports t' = not_found_reports t ->
  lookup_log t' planned r -> lookup_log t (q :: planned) r.
Proof.
  intros Hr Hn (sent & rest & E & Hp & Hnull & Hrep).
  exists (q :: sent), rest. repeat split.
  - rewrite E, Hr, <- app_assoc. reflexivity.
  - now rewrite Hp.
  - exact Hnull.
  - now rewrite Hrep, Hn.
Qed.

Variable e : env.

Lemma try_loop_log (address : pyval) (last : nat)
      (todo : list (nat * (string -> option string))) (t : trace) :
  lookup_log t (rewrites (fun nf => snd nf (CsvProcessor.clean_address address)) todo)
             (CsvProcessor.try_loop e address last todo t).
Proof.
  revert t. induction todo as [|[n f] todo IH]; intros t.
  - exists [], []. cbn [CsvProcessor.try_loop rewrites fst snd is_null].
    rewrite requests_app, not_found_reports_app. repeat split.
  - cbn [CsvProcessor.try_loop rewrites snd]. destruct (f _) as [q|]; [|apply IH].
    assert (Hstep : forall tail,
               requests tail = [] -> not_found_reports tail = 0 ->
               lookup_log t
                 (q :: rewrites (fun nf => snd nf (CsvProcessor.clean_address address)) todo)
                 (CsvProcessor.try_loop e address last todo
                    (((t ++ [EvSleep 1]) ++ [EvGeocode q]) ++ tail))).
    { intros tail Hr Hn. eapply lookup_log_sent; [| |apply IH].
      - rewrite !requests_app, Hr. cbn [requests]. now rewrite !app_nil_r.
      - rewrite !not_found_reports_app, Hn. cbn [not_found_reports]. lia. }
    destruct (env_geocode e _ q) as [|lat lon|err].
    + specialize (Hstep [] eq_refl eq_refl). now rewrite app_nil_r in Hstep.
    + destruct (CsvProcessor.in_box lat lon).
      * exists [q], (rewrites (fun nf => snd nf (CsvProcessor.clean_address address)) todo).
        cbn [fst snd is_null]. rewrite !requests_app, !not_found_reports_app.
        cbn [requests not_found_reports]. rewrite !app_nil_r.
        repeat split; [discriminate | lia].
      * specialize (Hstep [] eq_refl eq_refl). now rewrite app_nil_r in Hstep.
    + destruct (_ && _).
      * apply (Hstep [EvPrint (MsgFailedGeocode address err)]); reflexivity.
      * specialize (Hstep [] eq_refl eq_refl). now rewrite app_nil_r in Hstep.
Qed.

Lemma variant_loop_log (address : pyval) (todo : list string) (t : trace) :
  lookup_log t todo (CsvProcessorCases.variant_loop e address todo t).
Proof.
  revert t. induction todo as [|q todo IH]; intros t.
  - exists [], []. cbn [CsvProcessorCases.variant_loop fst snd is_null].
    rewrite requests_app, not_found_reports_app. repeat split.
  - cbn [CsvProcessorCases.variant_loop].
    assert (Hstep : lookup_log t (q :: todo)
                      (CsvProcessorCases.variant_loop e address todo
                         ((t ++ [EvSleep 1]) ++ [EvGeocode q]))).
    { eapply lookup_log_sent; [| |apply IH].
      - rewrite !requests_app. cbn [requests]. now rewrite !app_nil_r.
      - rewrite !not_found_reports_app. cbn [not_found_reports]. lia. }
    destruct (env_geocode e _ q) as [|lat lon|err]; try exact Hstep.
    destruct (CsvProcessorCases.in_box lat lon); [|exact Hstep].
    exists [q], todo. cbn [fst snd is_null].
    rewrite !requests_app, !not_found_reports_app.
    cbn [requests not_found_reports]. rewrite !app_nil_r.
    repeat split; [discriminate | lia].
Qed.

End Requests.

(** X2. One call of [get_coordinates] sends the planned queries in their
    order and stops at the first accepted reply: the requests are an
    initial part of the plan (at most 3 queries in csv_processor, at most
    4 in csv_processor_cases), the whole plan when the null pair is
    returned, and "Could not find coordinates" is printed exactly when the
    null pair is returned. *)
Theorem get_coordinates_requests (e : env) (address : pyval) (t : trace) :
  lookup_log t (queries address) (CsvProcessor.get_coordinates e address t)
  /\ length (queries address) <= 3
  /\ lookup_log t
       (CsvProcessorCases.address_variants
          (CsvProcessorCases.clean_address_for_planning address))
       (CsvProcessorCases.get_coordinates e address t)
  /\ length (CsvProcessorCases.address_variants
               (CsvProcessorCases.clean_address_for_planning address)) <= 4.
Proof.
  split; [|split; [|split]].
  - unfold queries, CsvProcessor.get_coordinates.
    rewrite <- (rewrites_enumerate
                  (fun modifier => modifier (CsvProcessor.clean_address address)) 0).
    apply try_loop_log.
  - unfold queries, CsvProcessor.tries. cbn [rewrites].
    destruct (re_match _ _ _); cbn [length]; lia.
  - apply variant_loop_log.
  - unfold CsvProcessorCases.address_variants.
    destruct (re_search _ _ _); cbn [length app]; lia.
Qed.

(** ** The steps of a completed run *)

Section Trail.

Context {A : Type}.

Lemma mapM_names (df : frame A) (names : list string) (cs : list (string * list A)) :
  mapM (fun n => match lookup_col (cols df) n with
                 | Some l => Ok (n, l)
                 | None => Raise (KeyError n)
                 end) names = Ok cs ->
  map fst cs = names.
Proof.
  revert cs. induction names as [|m names IH]; intros cs H.
  - injection H as <-. reflexivity.
  - cbn [mapM] in H. destruct (lookup_col (cols df) m) as [l|]; [|discriminate].
    destruct (mapM _ names) as [cs'|]; [|discriminate].
    injection H as <-. cbn [map fst]. now rewrite (IH cs' eq_refl).
Qed.

Lemma select_names (df out : frame A) (names : list string) :
  select df names = Ok out -> columns out = names.
Proof.
  unfold select. intros H. destruct (mapM _ names) as [cs|] eqn:Em; [|discriminate].
  injection H as <-. unfold columns. cbn [cols]. exact (mapM_names df names cs Em).
Qed.

End Trail.

Section ProcessCsvTrail.

Variable e : env.

Lemma csv_trail_finish (input_file output_file : string) (max_rows : option Z)
      (w w1 w2 w3 : world) (raw raw' : frame key) (todo addresses : list key)
      (cache' added : dict) (new : list event) (df out : frame cell) :
  env_read_csv_str e input_file = Ok raw ->
  raw' = limited max_rows raw ->
  get_col raw' "Address" = Ok addresses ->
  calmly w w1 ->
  pending e (loaded w) addresses = todo ->
  loop_run todo (loaded w) w1 cache' w2 added new ->
  lookup_col (cols df) "Address" = Some (map cell_of_key addresses) ->
  select (set_col
            (set_col df "Latitude"
               (map (fun a => CsvProcessor.float_cell
                                (fst (CsvProcessor.row_coords cache' a))) addresses))
            "Longitude"
            (map (fun a => CsvProcessor.float_cell
                             (snd (CsvProcessor.row_coords cache' a))) addresses))
         CsvProcessor.columns_to_keep = Ok out ->
  w3 = MkWorld (((w_trace w2 ++ [EvPrint MsgUpdating]) ++ [EvPrint MsgSample])
                ++ [EvPrint (MsgComplete output_file)])
               (w_cache_file w2) ((output_file, out) :: w_csv w2) (w_cases_csv w2) ->
  csv_trail e input_file output_file max_rows w w3.
Proof.
  intros Hread -> Haddr Hq <- Hrun Hcol Hsel ->.
  apply (CsvTrail e input_file output_file max_rows w _ raw addresses w1 w2
                  cache' added new out); try assumption.
  - exact (select_names _ _ _ Hsel).
  - apply column_lookup. rewrite (select_lookup _ _ _ _ Hsel keep_address).
    unfold set_col. cbn [cols]. rewrite !lookup_replace_ne by reflexivity. exact Hcol.
  - apply column_lookup. rewrite (select_lookup _ _ _ _ Hsel keep_latitude).
    unfold set_col. cbn [cols]. rewrite lookup_replace_ne by reflexivity.
    apply lookup_replace_eq.
  - apply column_lookup. rewrite (select_lookup _ _ _ _ Hsel keep_longitude).
    unfold set_col. cbn [cols]. apply lookup_replace_eq.
  - f_equal. now rewrite <- !app_assoc.
Qed.

Lemma process_csv_trail (input_file output_file : string) (max_rows : option Z) (w : world) :
  completes (CsvProcessor.process_csv e input_file output_file max_rows) w ->
  csv_trail e input_file output_file max_rows w
    (after (CsvProcessor.process_csv e input_file output_file max_rows) w).
Proof.
  unfold completes, after.
  change (wp (CsvProcessor.process_csv e input_file output_file max_rows)
             (fun r w' => is_ok r = true ->
                          csv_trail e input_file output_file max_rows w w') w).
  pose proof (calmly_refl w) as Hq. revert Hq. generalize w at 2 4 as w1.
  intros w1 Hq. unfold CsvProcessor.process_csv.
  ok_lift.
  apply wp_bind.
  destruct max_rows as [n|]; [destruct (n =? 0)%Z eqn:Hn|].
  1,3: apply wp_ret.
  3: calm_print; apply wp_ret.
  all: cbv beta iota.
  all: ok_lift.
  all: ok_lift.
  all: cbv zeta.
  all: ok_lift.
  all: apply wp_bind, wp_load_cache.
  all: rewrite (loaded_quietly w w1 (proj1 Hq)).
  all: destruct (w_cache_file w1); [ | ok_raise | ].
  all: ok_lift.
  all: match goal with
       | |- wp (bind (match ?ua with _ => _ end) _) _ _ =>
           destruct ua as [|k0 todo] eqn:Htodo
       end.
  all: match goal with
       | |- wp (bind (ret ?c) _) _ _ =>
           change (ret c) with (CsvProcessor.geocode_loop e [] c)
       | |- wp (bind (bind (print _) _) _) _ _ =>
           apply wp_bind_assoc; calm_print
       end.
  all: apply wp_geocode_loop_run; intros cache' w2 added new Hrun.
  all: apply wp_bind, wp_print.
  all: ok_lift.
  all: apply wp_bind, wp_print.
  all: apply wp_bind, wp_to_csv.
  all: destruct (env_to_csv_error e output_file); [ok_raise|].
  all: apply wp_print; intros _.
  all: cbn [w_trace w_cache_file w_csv w_cases_csv].
  all: eapply (csv_trail_finish input_file output_file _ w w1 w2);
    [ eassumption
    | unfold limited; rewrite ?Hn; reflexivity
    | eassumption
    | exact Hq
    | exact Htodo
    | exact Hrun
    | eapply address_column_kept; eassumption
    | eassumption
    | reflexivity ].
Qed.

End ProcessCsvTrail.

(** ** What a completed run of process_csv wrote and looked up *)

Section Limited.

Context {A : Type}.

Lemma lookup_col_firstn (k : nat) (cs : list (string * list A)) (name : string) :
  lookup_col (map (fun '(c, l) => (c, firstn k l)) cs) name
  = option_map (firstn k) (lookup_col cs name).
Proof.
  induction cs as [|[c l] cs IH]; [reflexivity|].
  cbn [map lookup_col]. now destruct (String.eqb c name).
Qed.

Lemma get_col_limited (max_rows : option Z) (raw : frame A) (name : string) (l' : list A) :
  get_col (limited max_rows raw) name = Ok l' ->
  exists l, get_col raw name = Ok l /\ l' = first_rows (rows_kept max_rows (nrows raw)) l.
Proof.
  unfold limited, rows_kept. destruct max_rows as [n|]; [destruct (n =? 0)%Z|].
  - intros H. now exists l'.
  - unfold get_col, head. cbn [cols]. rewrite lookup_col_firstn.
    destruct (lookup_col (cols raw) name) as [l|]; [|discriminate].
    cbn [option_map]. intros H. injection H as <-. now exists l.
  - intros H. now exists l'.
Qed.

End Limited.

Section Lookups.

Lemma length_snapshots (cache added : dict) :
  length (snapshots cache added) = length added.
Proof.
  revert cache. induction added as [|entry added IH]; intros cache; [reflexivity|].
  cbn [snapshots length]. now rewrite IH.
Qed.

Lemma unique_elem_of (a : key) (l : list key) : a ∈ unique l -> a ∈ l.
Proof.
  induction l as [|k l IH]; intros H; [inversion H|].
  cbn [unique] in H. apply elem_of_cons in H as [->|H]; [left|].
  right. apply IH. now apply list_elem_of_filter in H as [_ H].
Qed.

Lemma pending_elem_of (e : env) (cache : dict) (addresses : list key) (a : key) :
  (forall l k, k ∈ env_set_order e l -> k ∈ l) ->
  a ∈ pending e cache addresses -> a ∈ addresses.
Proof.
  intros Hset H. unfold pending in H. apply Hset in H.
  apply list_elem_of_filter in H as [_ H]. now apply unique_elem_of.
Qed.

Lemma json_load_text_keys (members : list (string * coords)) : text_keys (json_load members).
Proof.
  unfold json_load.
  assert (H : text_keys []) by (intros k Hk; inversion Hk).
  revert H. generalize (@nil (key * coords)) as acc.
  induction members as [|[s v] members IH]; intros acc Hacc; [exact Hacc|].
  cbn [fold_left]. apply IH. intros k Hk.
  apply elem_of_keys_set in Hk as [->|Hk]; [eexists; reflexivity | now apply Hacc].
Qed.

Lemma loaded_text_keys (w : world) : text_keys (loaded w).
Proof.
  unfold loaded. destruct (w_cache_file w) as [| |members];
    [intros k Hk; inversion Hk | intros k Hk; inversion Hk | apply json_load_text_keys].
Qed.

End Lookups.

(** X3. When [process_csv] completes, the file it wrote has exactly the
    columns of [columns_to_keep], in that order, and one row for each input
    row kept: its Address column is that of the input, cut to the first
    [max_rows] rows (all rows for None and for 0), and the Latitude and
    Longitude columns have one cell per row. *)
Theorem process_csv_output (e : env) (input_file output_file : string)
        (max_rows : option Z) (w : world) :
  completes (CsvProcessor.process_csv e input_file output_file max_rows) w ->
  exists raw all out,
    env_read_csv_str e input_file = Ok raw
    /\ get_col raw "Address" = Ok all
    /\ w_csv (after (CsvProcessor.process_csv e input_file output_file max_rows) w)
       = (output_file, out) :: w_csv w
    /\ columns out = CsvProcessor.columns_to_keep
    /\ column "Address" out
       = map cell_of_key (first_rows (rows_kept max_rows (nrows raw)) all)
    /\ length (column "Latitude" out) = length (column "Address" out)
    /\ length (column "Longitude" out) = length (column "Address" out).
Proof.
  intros Hok. destruct (process_csv_trail e _ _ _ _ Hok)
    as [raw addresses w1 w2 cache' added new out Hread Haddr [_ Hcsv1] Hrun Hcols
          Ha Hlat Hlon Hafter].
  destruct (get_col_limited _ _ _ _ Haddr) as (all & Hall & ->).
  exists raw, all, out. rewrite Hafter, Ha, Hlat, Hlon, !length_map. cbn [w_csv].
  destruct Hrun as [_ _ _ Hcsv2 _ _ _ _ _ _].
  repeat split; try assumption. now rewrite Hcsv2, Hcsv1.
Qed.

Lemma process_csv_output_witness :
  exists out,
    w_csv (after (CsvProcessor.process_csv sales_env "sales.csv" "out.csv" (Some 1%Z))
             cached_world) = [("out.csv", out)]
    /\ columns out = CsvProcessor.columns_to_keep
    /\ column "Address" out = [CStr "1 Main Street, Dublin 4"].
Proof.
  destruct (process_csv_output sales_env "sales.csv" "out.csv" (Some 1%Z) cached_world)
    as (raw & all & out & Hread & Hall & Hcsv & Hcols & Haddr & _);
    [vm_compute; reflexivity|].
  exists out. vm_compute in Hread. injection Hread as <-.
  vm_compute in Hall. injection Hall as <-.
  repeat split; assumption.
Defined.

(** X4. In a run of [process_csv] that completes, [get_coordinates] is
    called at most once per address, only for addresses that are not empty
    and were not in the cache at the start (and that occur in the Address
    column of the rows kept, when iterating a set yields only its
    elements), and the cache file is written once after every call. *)
Theorem process_csv_lookups (e : env) (input_file output_file : string)
        (max_rows : option Z) (w : world) :
  completes (CsvProcessor.process_csv e input_file output_file max_rows) w ->
  exists raw addresses new,
    env_read_csv_str e input_file = Ok raw
    /\ get_col (limited max_rows raw) "Address" = Ok addresses
    /\ w_trace (after (CsvProcessor.process_csv e input_file output_file max_rows) w)
       = w_trace w ++ new
    /\ NoDup (call_log new)
    /\ length (saved_contents new) = length (call_log new)
    /\ forall a, a ∈ call_log new ->
         key_truthy a = true
         /\ (a ∉ dict_keys (loaded w))
         /\ ((forall l k, k ∈ env_set_order e l -> k ∈ l) -> a ∈ addresses).
Proof.
  intros Hok. destruct (process_csv_trail e _ _ _ _ Hok)
    as [raw addresses w1 w2 cache' added new out Hread Haddr
          [(n1 & E1 & [S1 C1] & _) _] Hrun _ _ _ _ Hafter].
  destruct Hrun as [_ Htrace _ _ _ Hsaves Hcalls Hnodup Hfresh _].
  exists raw, addresses,
    (n1 ++ new ++ [EvPrint MsgUpdating; EvPrint MsgSample; EvPrint (MsgComplete output_file)]).
  rewrite Hafter. cbn [w_trace].
  rewrite !call_log_app, !saved_contents_app, C1, S1, Hcalls, Hsaves.
  cbn [call_log saved_contents app]. rewrite !app_nil_r, length_snapshots.
  repeat split; try assumption.
  - rewrite Htrace, E1. now rewrite <- !app_assoc.
  - unfold dict_keys. now rewrite length_map.
  - now destruct (Hfresh a H) as (_ & _ & ?).
  - now destruct (Hfresh a H) as (? & _ & _).
  - intros Hset. destruct (Hfresh a H) as (_ & Hin & _).
    exact (pending_elem_of e _ _ _ Hset Hin).
Qed.

Lemma process_csv_lookups_witness :
  exists new,
    w_trace (after (CsvProcessor.process_csv sales_env "sales.csv" "out.csv" None)
               cached_world) = new
    /\ call_log new = [Some "2 High Street, Dublin 8"]
    /\ length (saved_contents new) = 1.
Proof.
  destruct (process_csv_lookups sales_env "sales.csv" "out.csv" None cached_world)
    as (raw & addresses & new & _ & _ & Htrace & _ & _ & _);
    [vm_compute; reflexivity|].
  exists new. vm_compute in Htrace. subst new. vm_compute. repeat split; reflexivity.
Defined.

(** X5. A row whose address is missing makes [process_csv] call
    [get_coordinates] with the missing value in every run that completes,
    whatever the cache file holds (iterating a set yields all its
    elements): the file stores that entry under the text NaN, which is
    not the missing value. *)
Theorem missing_address_looked_up (e : env) (input_file output_file : string)
        (max_rows : option Z) (w : world) :
  completes (CsvProcessor.process_csv e input_file output_file max_rows) w ->
  (forall l k, k ∈ l -> k ∈ env_set_order e l) ->
  exists out new,
    w_csv (after (CsvProcessor.process_csv e input_file output_file max_rows) w)
    = (output_file, out) :: w_csv w
    /\ w_trace (after (CsvProcessor.process_csv e input_file output_file max_rows) w)
       = w_trace w ++ new
    /\ (CNaN ∈ column "Address" out -> None ∈ call_log new).
Proof.
  intros Hok Hset. destruct (process_csv_trail e _ _ _ _ Hok)
    as [raw addresses w1 w2 cache' added new out Hread Haddr
          [(n1 & E1 & [S1 C1] & _) Hcsv1] Hrun _ Ha _ _ Hafter].
  destruct Hrun as [_ Htrace _ Hcsv2 _ _ Hcalls _ _ Hcovers].
  exists out,
    (n1 ++ new ++ [EvPrint MsgUpdating; EvPrint MsgSample; EvPrint (MsgComplete output_file)]).
  rewrite Hafter. cbn [w_trace w_csv]. repeat split.
  - now rewrite Hcsv2, Hcsv1.
  - rewrite Htrace, E1. now rewrite <- !app_assoc.
  - rewrite Ha. intros Hin. apply list_elem_of_fmap in Hin as (a & Hc & Hin).
    destruct a as [s|]; [discriminate Hc|].
    rewrite !call_log_app, C1, Hcalls. cbn [call_log app]. rewrite app_nil_r.
    assert (Hout : None ∉ dict_keys (loaded w)).
    { intros Hk. destruct (loaded_text_keys w None Hk) as [s Hs]. discriminate Hs. }
    assert (Hm : dict_mem None (loaded w ++ added) = true).
    { apply Hcovers; [|reflexivity]. now apply elem_of_pending. }
    apply dict_mem_keys in Hm. rewrite dict_keys_app in Hm.
    apply elem_of_app in Hm as [Hm|Hm]; [contradiction | exact Hm].
Qed.

Lemma missing_address_looked_up_witness :
  exists new,
    w_trace (after (CsvProcessor.process_csv sales_missing_env "sales.csv" "out.csv" None)
               nan_world) = new
    /\ None ∈ call_log new.
Proof.
  destruct (missing_address_looked_up sales_missing_env "sales.csv" "out.csv" None nan_world)
    as (out & new & Hcsv & Htrace & Hnan);
    [vm_compute; reflexivity | intros l k Hk; exact Hk |].
  exists new. split; [exact Htrace|]. apply Hnan.
  vm_compute in Hcsv. injection Hcsv as <-. vm_compute. left.
Defined.

(** ** A run that fails *)

Section CasesLoop.

Lemma wp_cases_geocode_loop_run {A} (e : env) (todo : list key) (cache : dict) (n : nat)
      (w1 : world) (k : dict * nat -> M A) (Q : result A -> world -> Prop) :
  (forall cache' n' w2 added new,
      loop_run todo cache w1 cache' w2 added new -> wp (k (cache', n')) Q w2) ->
  wp (bind (CsvProcessorCases.geocode_loop e todo cache n) k) Q w1.
Proof.
  intros H. unfold wp, bind.
  destruct (cases_geocode_loop_run e todo cache n w1)
    as (cache' & n' & w2 & added & new & E & Hrun).
  rewrite E. exact (H cache' n' w2 added new Hrun).
Qed.

End CasesLoop.

Ltac unwritten_raise := intros _; cbn [w_csv]; assumption.

Ltac unwritten_lift :=
  apply wp_bind, wp_lift;
  match goal with
  | |- match ?r with Ok _ => _ | Raise _ => _ end =>
      destruct r as [?|?]; [|unwritten_raise]
  end.

Ltac unwritten_print := apply wp_bind, wp_print.

Ltac unwritten_loop_done :=
  match goal with
  | Hrun : loop_run _ _ _ _ ?w2 _ _, Hu : w_csv _ = w_csv ?w |- _ =>
      let Hu2 := fresh "Hu" in
      assert (Hu2 : w_csv w2 = w_csv w)
        by (destruct Hrun as [_ _ _ Hc _ _ _ _ _ _]; cbn [w_csv] in Hc; congruence);
      clear Hrun Hu
  end.

Section Unwritten.

Variable e : env.

Lemma process_csv_unwritten (input_file output_file : string) (max_rows : option Z)
      (w : world) :
  is_ok (fst (CsvProcessor.process_csv e input_file output_file max_rows w)) = false ->
  w_csv (snd (CsvProcessor.process_csv e input_file output_file max_rows w)) = w_csv w.
Proof.
  change (wp (CsvProcessor.process_csv e input_file output_file max_rows)
             (fun r w' => is_ok r = false -> w_csv w' = w_csv w) w).
  assert (Hu : w_csv w = w_csv w) by reflexivity. revert Hu.
  generalize w at 1 4 as w1. intros w1 Hu.
  unfold CsvProcessor.process_csv.
  unwritten_lift.
  apply wp_bind.
  destruct max_rows as [n|]; [destruct (n =? 0)%Z|].
  1,3: apply wp_ret.
  3: unwritten_print; apply wp_ret.
  all: cbv beta iota.
  all: unwritten_lift.
  all: unwritten_lift.
  all: cbv zeta.
  all: unwritten_lift.
  all: apply wp_bind, wp_load_cache; cbn [w_cache_file].
  all: destruct (w_cache_file w1); [ | unwritten_raise | ].
  all: unwritten_lift.
  all: match goal with
       | |- wp (bind (match ?ua with _ => _ end) _) _ _ => destruct ua as [|k0 todo]
       end.
  all: match goal with
       | |- wp (bind (ret ?c) _) _ _ =>
           change (ret c) with (CsvProcessor.geocode_loop e [] c)
       | |- wp (bind (bind (print _) _) _) _ _ =>
           apply wp_bind_assoc; unwritten_print
       end.
  all: apply wp_geocode_loop_run; intros cache' w2 added new Hrun.
  all: unwritten_loop_done.
  all: unwritten_print.
  all: unwritten_lift.
  all: unwritten_print.
  all: apply wp_bind, wp_to_csv.
  all: destruct (env_to_csv_error e output_file); [unwritten_raise|].
  all: apply wp_print; intros Hok; discriminate Hok.
Qed.

End Unwritten.

Section UnwrittenCases.

Variable e : env.

Lemma process_planning_cases_unwritten (input_file output_file : string)
      (max_rows : option Z) (w : world) :
  is_ok (fst (CsvProcessorCases.process_planning_cases e input_file output_file
                max_rows w)) = false ->
  w_csv (snd (CsvProcessorCases.process_planning_cases e input_file output_file
                max_rows w)) = w_csv w.
Proof.
  change (wp (CsvProcessorCases.process_planning_cases e input_file output_file max_rows)
             (fun r w' => is_ok r = false -> w_csv w' = w_csv w) w).
  assert (Hu : w_csv w = w_csv w) by reflexivity. revert Hu.
  generalize w at 1 4 as w1. intros w1 Hu.
  unfold CsvProcessorCases.process_planning_cases, CsvProcessorCases.load_cache.
  unwritten_lift.
  apply wp_bind.
  destruct max_rows as [n|]; [destruct (n =? 0)%Z|].
  1,3: apply wp_ret.
  3: unwritten_print; apply wp_ret.
  all: cbv beta iota zeta.
  all: apply wp_bind, wp_load_cache; cbn [w_cache_file].
  all: destruct (w_cache_file w1); [ | unwritten_raise | ].
  all: unwritten_lift.
  all: match goal with
       | |- wp (bind (match ?ua with _ => _ end) _) _ _ => destruct ua as [|k0 todo]
       end.
  all: match goal with
       | |- wp (bind (ret _) _) _ _ => apply wp_bind, wp_ret
       | |- wp (bind (bind (print _) _) _) _ _ =>
           apply wp_bind_assoc; unwritten_print; apply wp_bind_assoc;
           apply wp_cases_geocode_loop_run; intros cache' n' w2 added new Hrun;
           unwritten_loop_done;
           apply wp_bind_assoc; unwritten_print; apply wp_bind, wp_ret
       end.
  all: unwritten_print.
  all: apply wp_bind, wp_lift.
  all: unwritten_lift.
  all: unwritten_lift.
  all: unwritten_print.
  all: unwritten_print.
  all: apply wp_bind.
  all: match goal with
       | |- wp (if ?b then _ else _) _ _ =>
           destruct b; [unfold wp, throw; cbn [fst snd]; unwritten_raise | apply wp_ret]
       end.
  all: apply wp_bind, wp_to_csv.
  all: destruct (env_to_csv_error e output_file); [unwritten_raise|].
  all: apply wp_print; intros Hok; discriminate Hok.
Qed.

End UnwrittenCases.

(** X6. A run of [process_csv] or [process_planning_cases] that ends
    with an exception has written no output file. *)
Theorem failed_run_writes_nothing (e : env) (input_file output_file : string)
        (max_rows : option Z) (w : world) :
  (completes (CsvProcessor.process_csv e input_file output_file max_rows) w
   \/ w_csv (after (CsvProcessor.process_csv e input_file output_file max_rows) w)
      = w_csv w)
  /\ (completes (CsvProcessorCases.process_planning_cases e input_file output_file
                   max_rows) w
      \/ w_csv (after (CsvProcessorCases.process_planning_cases e input_file output_file
                         max_rows) w)
         = w_csv w).
Proof.
  unfold completes, after. split.
  - destruct (is_ok (fst (CsvProcessor.process_csv e input_file output_file max_rows w)))
      eqn:H; [now left | right; now apply process_csv_unwritten].
  - destruct (is_ok (fst (CsvProcessorCases.process_planning_cases e input_file
                            output_file max_rows w)))
      eqn:H; [now left | right; now apply process_planning_cases_unwritten].
Qed.

(** ** The columns of the planning file *)

Section PlanningColumns.

Lemma columns_replace_new {A} (cs : list (string * list A)) (name : string) (vals : list A) :
  name ∉ map fst cs -> map fst (replace_col cs name vals) = map fst cs ++ [name].
Proof.
  induction cs as [|[c l] cs IH]; intros H; [reflexivity|].
  cbn [replace_col map fst] in *. destruct (String.eqb_spec c name) as [->|Hne].
  - exfalso. apply H. left.
  - cbn [map fst app]. rewrite IH; [reflexivity|]. intros Hin. apply H. now right.
Qed.

Lemma columns_replace_old {A} (cs : list (string * list A)) (name : string) (vals : list A) :
  name ∈ map fst cs -> map fst (replace_col cs name vals) = map fst cs.
Proof.
  induction cs as [|[c l] cs IH]; intros H; [inversion H|].
  cbn [replace_col map fst] in *. destruct (String.eqb_spec c name) as [->|Hne]; [reflexivity|].
  cbn [map fst]. rewrite IH; [reflexivity|].
  apply elem_of_cons in H as [->|H]; [congruence | exact H].
Qed.

Lemma columns_cells_of (raw : frame key) : columns (CsvProcessor.cells_of raw) = columns raw.
Proof.
  unfold columns, CsvProcessor.cells_of. cbn [cols]. rewrite map_map.
  apply map_ext. now intros [c l].
Qed.

Lemma columns_limited {A} (max_rows : option Z) (df : frame A) :
  columns (limited max_rows df) = columns df.
Proof.
  unfold limited. destruct max_rows as [n|]; [destruct (n =? 0)%Z|]; try reflexivity.
  unfold columns, head. cbn [cols]. rewrite map_map. apply map_ext. now intros [c l].
Qed.

Lemma list_remove_last (x : string) (l : list string) :
  x ∉ l -> CsvProcessorCases.list_remove x (l ++ [x]) = l.
Proof.
  induction l as [|y l IH]; intros H; cbn [CsvProcessorCases.list_remove app].
  - now rewrite String.eqb_refl.
  - destruct (String.eqb_spec y x) as [->|Hne]; [exfalso; apply H; left|].
    rewrite IH; [reflexivity|]. intros Hin. apply H. now right.
Qed.

Lemma list_remove_app (x : string) (l k : list string) :
  x ∉ l -> CsvProcessorCases.list_remove x (l ++ k) = l ++ CsvProcessorCases.list_remove x k.
Proof.
  induction l as [|y l IH]; intros H; cbn [CsvProcessorCases.list_remove app]; [reflexivity|].
  destruct (String.eqb_spec y x) as [->|Hne]; [exfalso; apply H; left|].
  rewrite IH; [reflexivity|]. intros Hin. apply H. now right.
Qed.

Lemma planning_names (raw : frame key) (lat lon : list cell) :
  "Latitude" ∉ columns raw -> "Longitude" ∉ columns raw ->
  CsvProcessorCases.list_remove "Longitude"
    (CsvProcessorCases.list_remove "Latitude"
       (columns
          (set_col
             (set_col
                (set_col_const
                   (set_col_const (CsvProcessor.cells_of raw) "Latitude" CNone)
                   "Longitude" CNone)
                "Latitude" lat)
             "Longitude" lon)))
  = columns raw.
Proof.
  intros Hlat Hlon. rewrite <- columns_cells_of in Hlat, Hlon.
  rewrite <- (columns_cells_of raw). generalize dependent (CsvProcessor.cells_of raw).
  intros df Hlat Hlon. unfold set_col_const, set_col, columns in *. cbn [cols].
  set (k1 := replace_col (cols df) "Latitude" _).
  assert (E1 : map fst k1 = map fst (cols df) ++ ["Latitude"])
    by (now apply columns_replace_new).
  set (k2 := replace_col k1 "Longitude" _).
  assert (E2 : map fst k2 = map fst (cols df) ++ ["Latitude"; "Longitude"]).
  { unfold k2. rewrite columns_replace_new, E1, <- app_assoc; [reflexivity|].
    rewrite E1, elem_of_app, list_elem_of_singleton.
    intros [?|?]; [contradiction | discriminate]. }
  set (k3 := replace_col k2 "Latitude" _).
  assert (E3 : map fst k3 = map fst (cols df) ++ ["Latitude"; "Longitude"]).
  { unfold k3. rewrite columns_replace_old, E2; [reflexivity|].
    rewrite E2, elem_of_app. right. left. }
  rewrite columns_replace_old, E3.
  - rewrite list_remove_app by assumption.
    cbn [CsvProcessorCases.list_remove]. rewrite String.eqb_refl.
    now apply list_remove_last.
  - rewrite E3, elem_of_app. right. right. left.
Qed.

Lemma length_list_insert (i : nat) (x : string) (l : list string) :
  length (CsvProcessorCases.list_insert i x l) = S (length l).
Proof.
  unfold CsvProcessorCases.list_insert. rewrite length_app. cbn [length].
  rewrite <- (firstn_skipn i l) at 3. rewrite length_app. lia.
Qed.

Lemma inserted_positions (a b : string) (l : list string) :
  12 <= length (CsvProcessorCases.list_insert 11 b (CsvProcessorCases.list_insert 10 a l)) ->
  10 <= length l
  /\ CsvProcessorCases.list_insert 11 b (CsvProcessorCases.list_insert 10 a l)
     = firstn 10 l ++ [a; b] ++ skipn 10 l.
Proof.
  rewrite !length_list_insert. intros H.
  assert (Hl : 10 <= length l) by lia.
  split; [exact Hl|]. unfold CsvProcessorCases.list_insert.
  assert (Hf : length (firstn 10 l) = 10) by (rewrite length_firstn; lia).
  rewrite (firstn_app 11), (skipn_app 11), Hf.
  rewrite (firstn_all2 (n := 11)) by lia.
  rewrite (skipn_all2 (n := 11)) by lia.
  change (11 - 10) with 1. cbn [firstn skipn app].
  rewrite <- app_assoc. reflexivity.
Qed.

End PlanningColumns.

Ltac trail_raise := intros Hok; discriminate Hok.

Ltac trail_lift :=
  apply wp_bind, wp_lift;
  match goal with
  | |- match ?r with Ok _ => _ | Raise _ => _ end =>
      destruct r as [?|?] eqn:?; [|trail_raise]
  end.

Section PlanningTrail.

Variable e : env.

Lemma process_planning_cases_columns (input_file output_file : string)
      (max_rows : option Z) (w : world) :
  completes (CsvProcessorCases.process_planning_cases e input_file output_file max_rows) w ->
  exists raw out lat lon,
    env_read_csv_str e input_file = Ok raw
    /\ w_csv (after (CsvProcessorCases.process_planning_cases e input_file output_file
                       max_rows) w)
       = (output_file, out) :: w_csv w
    /\ 12 <= length (columns out)
    /\ columns out
       = CsvProcessorCases.list_insert 11 "Longitude"
           (CsvProcessorCases.list_insert 10 "Latitude"
              (CsvProcessorCases.list_remove "Longitude"
                 (CsvProcessorCases.list_remove "Latitude"
                    (columns
                       (set_col
                          (set_col
                             (set_col_const
                                (set_col_const
                                   (CsvProcessor.cells_of (limited max_rows raw))
                                   "Latitude" CNone)
                                "Longitude" CNone)
                             "Latitude" lat)
                          "Longitude" lon))))).
Proof.
  unfold completes, after.
  match goal with
  | |- _ -> ?P =>
      change (wp (CsvProcessorCases.process_planning_cases e input_file output_file
                    max_rows)
                 (fun r w' =>
                    is_ok r = true ->
                    exists raw out lat lon,
                      env_read_csv_str e input_file = Ok raw
                      /\ w_csv w' = (output_file, out) :: w_csv w
                      /\ 12 <= length (columns out)
                      /\ columns out
                         = CsvProcessorCases.list_insert 11 "Longitude"
                             (CsvProcessorCases.list_insert 10 "Latitude"
                                (CsvProcessorCases.list_remove "Longitude"
                                   (CsvProcessorCases.list_remove "Latitude"
                                      (columns
                                         (set_col
                                            (set_col
                                               (set_col_const
                                                  (set_col_const
                                                     (CsvProcessor.cells_of
                                                        (limited max_rows raw))
                                                     "Latitude" CNone)
                                                  "Longitude" CNone)
                                               "Latitude" lat)
                                            "Longitude" lon)))))) w)
  end.
  assert (Hu : w_csv w = w_csv w) by reflexivity. revert Hu.
  generalize w at 1 4 as w1. intros w1 Hu.
  unfold CsvProcessorCases.process_planning_cases, CsvProcessorCases.load_cache.
  trail_lift.
  apply wp_bind.
  destruct max_rows as [n|]; [destruct (n =? 0)%Z eqn:Hn|].
  1,3: apply wp_ret.
  3: apply wp_bind, wp_print; apply wp_ret.
  all: cbv beta iota zeta.
  all: apply wp_bind, wp_load_cache; cbn [w_cache_file].
  all: destruct (w_cache_file w1); [ | trail_raise | ].
  all: trail_lift.
  all: match goal with
       | |- wp (bind (match ?ua with _ => _ end) _) _ _ => destruct ua as [|k0 todo]
       end.
  all: match goal with
       | |- wp (bind (ret _) _) _ _ => apply wp_bind, wp_ret
       | |- wp (bind (bind (print _) _) _) _ _ =>
           apply wp_bind_assoc, wp_bind, wp_print; apply wp_bind_assoc;
           apply wp_cases_geocode_loop_run; intros cache' n' w2 added new Hrun;
           unwritten_loop_done;
           apply wp_bind_assoc, wp_bind, wp_print; apply wp_bind, wp_ret
       end.
  all: apply wp_bind, wp_print.
  all: apply wp_bind, wp_lift.
  all: trail_lift.
  all: trail_lift.
  all: apply wp_bind, wp_print.
  all: apply wp_bind, wp_print.
  all: apply wp_bind.
  all: match goal with
       | |- wp (if ?b then _ else _) _ _ =>
           destruct b eqn:Hlen; [unfold wp, throw; cbn [fst snd]; trail_raise | apply wp_ret]
       end.
  all: apply wp_bind, wp_to_csv.
  all: destruct (env_to_csv_error e output_file); [trail_raise|].
  all: apply wp_print; intros _.
  all: cbn [w_csv].
  all: match goal with
       | Hs : select _ _ = Ok ?out |- _ =>
           exists a, out; do 2 eexists;
           split; [reflexivity|]; split; [f_equal; assumption|];
           split; [apply Nat.ltb_ge; exact Hlen|];
           rewrite (select_names _ _ _ Hs); unfold limited; rewrite ?Hn; reflexivity
       end.
Qed.

End PlanningTrail.

(** X7. When [process_planning_cases] completes on an input that has no
    column named Latitude or Longitude, the input has at least ten
    columns and the file written has the input's columns in their order
    with Latitude and Longitude inserted as the 11th and 12th. *)
Theorem planning_output_columns (e : env) (input_file output_file : string)
        (max_rows : option Z) (w : world) (raw : frame key) :
  env_read_csv_str e input_file = Ok raw ->
  "Latitude" ∉ columns raw -> "Longitude" ∉ columns raw ->
  completes (CsvProcessorCases.process_planning_cases e input_file output_file max_rows) w ->
  10 <= length (columns raw)
  /\ exists out,
       w_csv (after (CsvProcessorCases.process_planning_cases e input_file output_file
                       max_rows) w)
       = (output_file, out) :: w_csv w
       /\ columns out
          = firstn 10 (columns raw) ++ ["Latitude"; "Longitude"] ++ skipn 10 (columns raw).
Proof.
  intros Hread Hlat Hlon Hok.
  destruct (process_planning_cases_columns e _ _ _ _ Hok)
    as (raw' & out & lat & lon & Hread' & Hcsv & Hlen & Hcols).
  rewrite Hread in Hread'. injection Hread' as <-.
  rewrite planning_names in Hcols by (now rewrite columns_limited).
  rewrite columns_limited in Hcols. rewrite Hcols in Hlen.
  destruct (inserted_positions _ _ _ Hlen) as [H10 Hins].
  split; [exact H10|]. exists out. split; [exact Hcsv|]. now rewrite Hcols.
Qed.

Lemma planning_output_columns_witness :
  exists out,
    w_csv (after (CsvProcessorCases.process_planning_cases planning_env "cases.csv"
                    "out.csv" None) empty_world)
    = [("out.csv", out)]
    /\ columns out
       = ["type"; "title"; "reference"; "status"; "description"; "date_lodged";
          "date_signed"; "eiar"; "nis"; "parties"; "Latitude"; "Longitude"].
Proof.
  destruct (planning_output_columns planning_env "cases.csv" "out.csv" None empty_world
              planning_file) as (_ & out & Hcsv & Hcols).
  - reflexivity.
  - apply (bool_decide_unpack _). vm_compute. exact I.
  - apply (bool_decide_unpack _). vm_compute. exact I.
  - vm_compute. reflexivity.
  - exists out. split; assumption.
Defined.

(** ** The shape of the merged file *)

Section Rectangular.

Context {A : Type}.

Lemma lookup_col_elem (cs : list (string * list A)) (c : string) (l : list A) :
  lookup_col cs c = Some l -> (c, l) ∈ cs.
Proof.
  induction cs as [|[c' l'] cs IH]; [discriminate|].
  cbn [lookup_col]. destruct (String.eqb_spec c' c) as [->|Hne].
  - intros H. injection H as ->. left.
  - intros H. right. now apply IH.
Qed.

Lemma length_column_or_missing (d : A) (c : string) (df : frame A) :
  rectangular df -> length (column_or_missing d c df) = nrows df.
Proof.
  intros Hr. unfold column_or_missing.
  destruct (lookup_col (cols df) c) as [l|] eqn:E; [|apply repeat_length].
  apply lookup_col_elem in E. unfold rectangular in Hr.
  rewrite Forall_forall in Hr. exact (Hr (c, l) E).
Qed.

Lemma length_concat_columns (d : A) (c : string) (dfs : list (frame A)) :
  Forall rectangular dfs ->
  length (concat (map (column_or_missing d c) dfs)) = list_sum (map nrows dfs).
Proof.
  induction 1 as [|df dfs Hdf Hdfs IH]; [reflexivity|].
  cbn [map concat list_sum]. rewrite length_app, IH, length_column_or_missing by assumption.
  reflexivity.
Qed.

Lemma concat_rows_rectangular (d : A) (dfs : list (frame A)) :
  Forall rectangular dfs -> rectangular (concat_rows d dfs).
Proof.
  intros H. unfold rectangular, concat_rows, nrows. cbn [cols index].
  rewrite length_seq. apply Forall_forall. intros [c l] Hin.
  apply list_elem_of_fmap in Hin as (c' & E & _). injection E as -> ->.
  cbn [snd]. now apply length_concat_columns.
Qed.

End Rectangular.

(** X8. When [merge_csv_files] returns True and every file it could read
    has one cell per row in each column, so has the merged file: it has
    as many rows as the files read have together, its column names are
    distinct, and every column has that many cells (a file without the
    column contributes missing values). *)
Theorem merged_file_rectangular (e : env) (input_directory output_file : string)
        (w : world) (csv_files : list string) :
  env_glob_csv e input_directory = Ok csv_files ->
  fst (Merger.merge_csv_files e input_directory output_file w) = Ok true ->
  Forall rectangular (readable e csv_files) ->
  exists merged,
    w_csv (snd (Merger.merge_csv_files e input_directory output_file w))
    = (output_file, merged) :: w_csv w
    /\ nrows merged = list_sum (map nrows (readable e csv_files))
    /\ NoDup (columns merged)
    /\ rectangular merged.
Proof.
  intros Hglob Htrue Hrect. rewrite merge_csv_files_result in *. rewrite Hglob in *.
  destruct csv_files as [|file files]; [discriminate Htrue|]. cbv zeta in *.
  destruct (readable e (file :: files)) as [|df dfs] eqn:Hr; [discriminate Htrue|].
  destruct (env_to_csv_error e output_file); [discriminate Htrue|].
  exists (concat_rows CNaN (df :: dfs)). cbn [snd w_csv]. repeat split.
  - unfold nrows, concat_rows. cbn [index]. apply length_seq.
  - unfold columns, concat_rows. cbn [cols]. rewrite map_map. cbn [fst].
    rewrite map_id. apply NoDup_remove_dups.
  - now apply concat_rows_rectangular.
Qed.

Lemma merged_file_rectangular_witness :
  exists merged,
    w_csv (snd (Merger.merge_csv_files merge_env "data" "merged.csv" empty_world))
    = [("merged.csv", merged)]
    /\ nrows merged = 3
    /\ column "County" merged = [CNaN; CNaN; CStr "Dublin"].
Proof.
  destruct (merged_file_rectangular merge_env "data" "merged.csv" empty_world
              ["data/a.csv"; "data/broken.csv"; "data/b.csv"])
    as (merged & Hcsv & Hrows & _ & _).
  - reflexivity.
  - vm_compute. reflexivity.
  - repeat constructor.
  - exists merged. split; [exact Hcsv|]. split; [exact Hrows|].
    vm_compute in Hcsv. injection Hcsv as <-. reflexivity.
Defined.

(** ** The requests of the scraper *)

Section ScraperLog.

Variable e : env.

Lemma http_requests_app (a b : list event) :
  http_requests (a ++ b) = http_requests a ++ http_requests b.
Proof.
  induction a as [|ev a IH]; [reflexivity|].
  destruct ev; cbn [http_requests app]; now rewrite ?IH.
Qed.

Lemma scrape_url_log (url : string) (w : world) :
  w_cases_csv (snd (Scraper.scrape_cases_from_url e url w)) = w_cases_csv w
  /\ exists new,
       w_trace (snd (Scraper.scrape_cases_from_url e url w)) = w_trace w ++ new
       /\ http_requests new = [url].
Proof.
  unfold Scraper.scrape_cases_from_url, bind, print, emit, lift, ret.
  cbn [fst snd w_trace].
  destruct (env_http_get e _ url) as [[status body]|err]; cbn [fst snd].
  - destruct (negb (status =? 200)%nat); cbn [fst snd w_trace w_cases_csv].
    + split; [reflexivity|].
      exists [EvPrint (MsgScraping url); EvHttpGet url; EvPrint (MsgFetchFailed status)].
      split; [now rewrite <- !app_assoc | reflexivity].
    + split; [reflexivity|]. exists [EvPrint (MsgScraping url); EvHttpGet url].
      split; [now rewrite <- !app_assoc | reflexivity].
  - split; [reflexivity|]. exists [EvPrint (MsgScraping url); EvHttpGet url].
    split; [now rewrite <- !app_assoc | reflexivity].
Qed.

Lemma scrape_all_log (todo : list string) (all_cases : list case) (w : world) :
  w_cases_csv (snd (Scraper.scrape_all e todo all_cases w)) = w_cases_csv w
  /\ exists new rest,
       w_trace (snd (Scraper.scrape_all e todo all_cases w)) = w_trace w ++ new
       /\ todo = http_requests new ++ rest
       /\ (is_ok (fst (Scraper.scrape_all e todo all_cases w)) = true -> rest = []).
Proof.
  revert all_cases w. induction todo as [|url todo IH]; intros all_cases w.
  - split; [reflexivity|]. exists [], []. cbn. now rewrite app_nil_r.
  - cbn [Scraper.scrape_all]. unfold bind, emit.
    destruct (scrape_url_log url w) as (Hc & n1 & E1 & R1).
    destruct (Scraper.scrape_cases_from_url e url w) as [[cases|err] w1];
      cbn [fst snd] in *.
    + match goal with
      | |- context [Scraper.scrape_all e todo ?a ?w2] =>
          destruct (IH a w2) as (Hc2 & n2 & rest & E2 & R2 & Hok)
      end.
      cbn [w_trace w_cases_csv] in *. split; [congruence|].
      exists (n1 ++ [EvSleep 2] ++ n2), rest. repeat split.
      * rewrite E2, E1. now rewrite <- !app_assoc.
      * rewrite !http_requests_app, R1. cbn [http_requests app]. now rewrite R2.
      * exact Hok.
    + split; [exact Hc|]. exists n1, todo. rewrite R1.
      repeat split; [exact E1 | discriminate].
Qed.

End ScraperLog.

(** X9. If a request or the parsing of a page raises, [main] ends with
    that exception and leaves the cases file as it was: the cases of the
    pages scraped before are not saved. *)
Theorem scraping_failure_saves_nothing (e : env) (w : world) (err : exn) :
  fst (Scraper.scrape_all e Scraper.urls [] w) = Raise err ->
  fst (Scraper.main e w) = Raise err
  /\ w_cases_csv (snd (Scraper.main e w)) = w_cases_csv w.
Proof.
  intros H.
  assert (Hm : Scraper.main e w
               = (Raise err, snd (Scraper.scrape_all e Scraper.urls [] w))).
  { unfold Scraper.main, bind at 1.
    destruct (Scraper.scrape_all e Scraper.urls [] w) as [[all|err'] w1];
      cbn [fst snd] in *; [discriminate H|].
    now injection H as ->. }
  rewrite Hm. cbn [fst snd]. split; [reflexivity|]. apply scrape_all_log.
Qed.

Lemma scraping_failure_saves_nothing_witness :
  fst (Scraper.main offline_env empty_world) = Raise (OSError "connection refused")
  /\ w_cases_csv (snd (Scraper.main offline_env empty_world)) = None.
Proof.
  apply (scraping_failure_saves_nothing offline_env empty_world
           (OSError "connection refused")).
  reflexivity.
Defined.

(** X10. [main] requests the six URLs of its list in their order, each
    once: what it requested is an initial part of the list, and the whole
    list when [main] completes. *)
Theorem main_requests_in_order (e : env) (w : world) :
  exists new rest,
    w_trace (snd (Scraper.main e w)) = w_trace w ++ new
    /\ Scraper.urls = http_requests new ++ rest
    /\ (is_ok (fst (Scraper.main e w)) = true -> rest = []).
Proof.
  assert (Hm : Scraper.main e w =
            let (r, w1) := Scraper.scrape_all e Scraper.urls [] w in
            match r with
            | Ok all_cases =>
                match all_cases with
                | [] => ret tt
                | _ =>
                    print (MsgTotalCases (length all_cases)) ;;;
                    df <- Scraper.save_to_csv e all_cases Scraper.cases_file ;;
                    let df_unique := drop_duplicates reference df in
                    if (length df_unique <? length df)%nat
                    then
                      print (MsgRemoved (length df - length df_unique)) ;;;
                      Scraper.cases_to_csv e df_unique Scraper.cases_file ;;;
                      print (MsgUnique (length df_unique))
                    else ret tt
                end w1
            | Raise err => (Raise err, w1)
            end) by reflexivity.
  rewrite Hm. clear Hm.
  destruct (scrape_all_log e Scraper.urls [] w) as (_ & n1 & rest & E1 & R1 & Hok).
  destruct (Scraper.scrape_all e Scraper.urls [] w) as [[all|err] w1];
    cbn [fst snd] in *.
  - rewrite (Hok eq_refl) in R1. rewrite app_nil_r in R1.
    assert (Hrest : forall c : M unit,
               (exists tail, w_trace (snd (c w1)) = w_trace w1 ++ tail
                             /\ http_requests tail = []) ->
               exists new rest0,
                 w_trace (snd (c w1)) = w_trace w ++ new
                 /\ Scraper.urls = http_requests new ++ rest0
                 /\ (is_ok (fst (c w1)) = true -> rest0 = [])).
    { intros c (tail & Et & Rt). exists (n1 ++ tail), []. repeat split.
      - rewrite Et, E1. now rewrite <- app_assoc.
      - rewrite http_requests_app, Rt, !app_nil_r. exact R1. }
    apply Hrest. destruct all as [|c0 all]; [exists []; cbn; now rewrite app_nil_r|].
    unfold Scraper.save_to_csv, Scraper.cases_to_csv, bind, print, emit, ret.
    cbn [fst snd w_trace].
    destruct (env_to_csv_error e Scraper.cases_file); cbn [fst snd w_trace].
    + exists [EvPrint (MsgTotalCases (length (c0 :: all)))]. split; reflexivity.
    + destruct (_ <? _)%nat; cbn [fst snd w_trace];
        eexists; (split; [rewrite <- !app_assoc; reflexivity | reflexivity]).
  - exists n1, rest. repeat split; [exact E1 | exact R1 | discriminate].
Qed.

Local Open Scope string_scope.

(** ** Addresses without area names *)

Section NoArea.

Lemma sub_key_quiet (k0 : ascii) (K' new s : string) :
  plain_char k0 = true -> is_word k0 = true -> is_head k0 = true ->
  quiet None s = true ->
  re_sub true (CsvProcessor.word_pattern (String k0 K')) [TLit new] s = s.
Proof.
  intros Hk Hw Hh Hq. unfold re_sub.
  rewrite Nat.add_comm. cbn [Nat.add sub_loop].
  now rewrite search_quiet_all.
Qed.

End NoArea.

(** X11. An address none of whose words begins with B, C or D, in either
    letter case, is returned by [standardize_dublin_areas] as it is. *)
Theorem standardize_without_area (address : string) :
  quiet None address = true ->
  CsvProcessor.standardize_dublin_areas address = address.
Proof.
  intros Hq. unfold CsvProcessor.standardize_dublin_areas, CsvProcessor.area_mappings.
  cbn [fold_left].
  repeat (rewrite (sub_key_quiet _ _ _ address);
            [|reflexivity|reflexivity|reflexivity|exact Hq]).
  reflexivity.
Qed.

Lemma standardize_without_area_witness :
  CsvProcessor.standardize_dublin_areas "12 Main Street, Swords" = "12 Main Street, Swords".
Proof. apply (standardize_without_area "12 Main Street, Swords"). reflexivity. Defined.

(** ** The city in a cleaned address *)

Section CityTag.

Lemma str_prefix_app_l (t s u : string) :
  String.prefix t s = true -> String.prefix t (s ++ u) = true.
Proof.
  revert s. induction t as [|c t IH]; intros s H; [now destruct (s ++ u)|].
  destruct s as [|x s]; [discriminate H|].
  rewrite str_app_cons. cbn [String.prefix] in *.
  destruct (Ascii.ascii_dec c x); [now apply IH | discriminate H].
Qed.

Lemma contains_app_l (s u t : string) :
  contains s t = true -> contains (s ++ u) t = true.
Proof.
  induction s as [|c s IH]; intros H.
  - cbn [contains] in H. rewrite orb_false_r in H.
    destruct t as [|x t]; [|discriminate H].
    rewrite str_app_nil_l. destruct u; reflexivity.
  - rewrite str_app_cons. cbn [contains] in *.
    apply orb_true_iff in H as [H|H].
    + apply (str_prefix_app_l _ _ u) in H. rewrite str_app_cons in H. now rewrite H.
    + rewrite (IH H). apply orb_true_r.
Qed.

Lemma existsb_tag (s s' : string) (tags : list string) :
  (forall t, In t tags -> contains s t = true -> contains s' t = true) ->
  existsb (fun x => contains s x) tags = true ->
  existsb (fun x => contains s' x) tags = true.
Proof.
  intros H He. apply existsb_exists in He as (t & Hin & Ht).
  apply existsb_exists. exists t. split; [exact Hin | now apply H].
Qed.

Lemma city_after_strip (b : string) :
  existsb (fun x =>
             contains
               (upper
                  (strip
                     (let b1 := if negb (existsb (fun x => contains (upper b) x)
                                           CsvProcessorCases.dublin_tags)
                                then b ++ ", Dublin" else b in
                      if negb (contains (upper b1) "IRELAND")
                      then b1 ++ ", Ireland" else b1))) x)
          CsvProcessorCases.dublin_tags = true.
Proof.
  cbv zeta. set (b1 := if negb _ then _ else b).
  assert (H1 : existsb (fun x => contains (upper b1) x) CsvProcessorCases.dublin_tags = true).
  { unfold b1. destruct (existsb _ _) eqn:E; cbn [negb]; [exact E|].
    rewrite upper_app. cbn [CsvProcessorCases.dublin_tags existsb].
    rewrite (contains_app_r (upper b) (upper ", Dublin") "DUBLIN") by reflexivity.
    reflexivity. }
  rewrite upper_strip.
  eapply existsb_tag; [|exact H1]. intros t Hin Ht.
  assert (Hshape : first_is (fun c => negb (is_space c)) t = true
                   /\ last_is (fun c => negb (is_space c)) t = true).
  { cbn in Hin. repeat (destruct Hin as [<-|Hin]; [split; reflexivity|]). contradiction. }
  apply contains_strip; [apply Hshape | apply Hshape |].
  destruct (negb (contains (upper b1) "IRELAND")); [|exact Ht].
  rewrite upper_app. now apply contains_app_l.
Qed.

End CityTag.

(** X12. For every text, the address [clean_address_for_planning]
    returns names the city: upper-cased, it contains DUBLIN or one of D1
    to D9. *)
Theorem planning_address_names_city (a : string) :
  existsb (fun x =>
             contains (upper (CsvProcessorCases.clean_address_for_planning (VStr a))) x)
          CsvProcessorCases.dublin_tags = true.
Proof.
  unfold CsvProcessorCases.clean_address_for_planning. cbv zeta.
  apply city_after_strip.
Qed.

(** ** Characters a substitution can produce *)

Section Kept.

Variable P : ascii -> bool.

Lemma forall_str_app (s t : string) :
  forall_str P (s ++ t) = forall_str P s && forall_str P t.
Proof.
  induction s as [|c s IH]; [reflexivity|].
  rewrite str_app_cons. cbn [forall_str]. now rewrite IH, andb_assoc.
Qed.

Lemma rmatch_kept (r : regex) :
  forall ic prev s cs (k : cont) res,
    forall_str P s = true ->
    rmatch ic r prev s cs k = Some res ->
    exists p' s' cs', forall_str P s' = true /\ k p' s' cs' = Some res.
Proof.
  induction r as [|c|r1 IH1 r2 IH2|r1 IH1 r2 IH2|greedy r1 IH1|n r1 IH1| | |];
    intros ic prev s cs k res Hs H; cbn [rmatch] in H.
  - now exists prev, s, cs.
  - destruct s as [|x s']; [discriminate H|].
    destruct (cset_match ic c x); [|discriminate H].
    cbn [forall_str] in Hs. apply andb_true_iff in Hs as [_ Hs].
    now exists (Some x), s', cs.
  - destruct (IH1 _ _ _ _ _ _ Hs H) as (p1 & s1 & cs1 & Hs1 & H1).
    exact (IH2 _ _ _ _ _ _ Hs1 H1).
  - destruct (rmatch ic r1 prev s cs k) as [res1|] eqn:E1.
    + injection H as <-. exact (IH1 _ _ _ _ _ _ Hs E1).
    + exact (IH2 _ _ _ _ _ _ Hs H).
  - revert H. generalize (String.length s) as fuel. intros fuel.
    revert prev s cs res Hs.
    induction fuel as [|fuel IHf]; intros prev s cs res Hs H.
    + now exists prev, s, cs.
    + cbv zeta in H.
      match type of H with
      | context [rmatch ic r1 prev s cs ?k1] =>
          assert (Hiter : forall res', rmatch ic r1 prev s cs k1 = Some res' ->
                    exists p' s' cs', forall_str P s' = true /\ k p' s' cs' = Some res');
          [ intros res' Hr; destruct (IH1 _ _ _ _ _ _ Hs Hr) as (p1 & s1 & cs1 & Hs1 & H1);
            destruct (String.length s1 <? String.length s)%nat; [|discriminate H1];
            exact (IHf _ _ _ _ Hs1 H1)
          | destruct (rmatch ic r1 prev s cs k1) as [res1|] eqn:E1 ]
      end.
      * destruct greedy.
        -- injection H as <-. now apply Hiter.
        -- destruct (k prev s cs) as [res0|] eqn:E0.
           ++ injection H as <-. now exists prev, s, cs.
           ++ injection H as <-. now apply Hiter.
      * destruct greedy; [now exists prev, s, cs|].
        destruct (k prev s cs) as [res0|] eqn:E0; [|discriminate H].
        injection H as <-. now exists prev, s, cs.
  - destruct (IH1 _ _ _ _ _ _ Hs H) as (p1 & s1 & cs1 & Hs1 & H1).
    now exists p1, s1, ((n, take (String.length s - String.length s1) s) :: cs1).
  - destruct prev; [discriminate H|]. now exists None, s, cs.
  - exists prev, s, cs. split; [exact Hs|].
    destruct s as [|x s']; [exact H|].
    destruct x as [[] [] [] [] [] [] [] []]; destruct s';
      first [discriminate H | exact H].
  - destruct (xorb _ _); [|discriminate H]. now exists prev, s, cs.
Qed.

End Kept.

Section KeptBySub.

Variable P : ascii -> bool.

Lemma match_at_kept (ic : bool) (r : regex) (ma : bool) (prev : option ascii)
      (s : string) (m : mres) :
  forall_str P s = true -> match_at ic r ma prev s = Some m ->
  m_pre m = "" /\ forall_str P (m_rest m) = true.
Proof.
  intros Hs H. unfold match_at in H.
  destruct (rmatch ic r prev s nil _) as [[s' cs']|] eqn:E; [|discriminate H].
  injection H as <-. cbn [m_pre m_rest]. split; [reflexivity|].
  destruct (rmatch_kept P r _ _ _ _ _ _ Hs E) as (p1 & s1 & cs1 & Hs1 & H1).
  destruct (_ && _); [discriminate H1|]. now injection H1 as <- _.
Qed.

Lemma search_from_kept (ic : bool) (r : regex) (s : string) :
  forall ma prev m,
    forall_str P s = true -> search_from ic r ma prev s = Some m ->
    forall_str P (m_pre m) = true /\ forall_str P (m_rest m) = true.
Proof.
  induction s as [|c s IH]; intros ma prev m Hs H; cbn [search_from] in H.
  - destruct (match_at ic r ma prev "") as [m'|] eqn:E; [|discriminate H].
    injection H as <-. destruct (match_at_kept _ _ _ _ _ _ Hs E) as [-> Hr].
    now split.
  - destruct (match_at ic r ma prev (String c s)) as [m'|] eqn:E.
    + injection H as <-. destruct (match_at_kept _ _ _ _ _ _ Hs E) as [-> Hr].
      now split.
    + cbn [forall_str] in Hs. apply andb_true_iff in Hs as [Hc Hs].
      destruct (search_from ic r false (Some c) s) as [m'|] eqn:E'; [|discriminate H].
      injection H as <-. cbn [m_pre m_rest forall_str].
      destruct (IH _ _ _ Hs E') as [Hp Hr]. now rewrite Hc, Hp.
Qed.

Lemma expand_kept (tpl : list titem) (m : mres) :
  literal P tpl = true -> forall_str P (expand tpl m) = true.
Proof.
  induction tpl as [|[t|n] tpl IH]; intros H; cbn [literal expand] in *;
    [reflexivity| |discriminate H].
  apply andb_true_iff in H as [Ht H]. now rewrite forall_str_app, Ht, IH.
Qed.

Lemma sub_loop_kept (ic : bool) (r : regex) (tpl : list titem) (fuel : nat) :
  literal P tpl = true ->
  forall ma prev s,
    forall_str P s = true -> forall_str P (sub_loop fuel ic r tpl ma prev s) = true.
Proof.
  intros Ht. induction fuel as [|fuel IH]; intros ma prev s Hs; [exact Hs|].
  cbn [sub_loop]. destruct (search_from ic r ma prev s) as [m|] eqn:E; [|exact Hs].
  destruct (search_from_kept _ _ _ _ _ _ Hs E) as [Hp Hr].
  now rewrite !forall_str_app, Hp, expand_kept, IH.
Qed.

Lemma re_sub_kept (ic : bool) (r : regex) (tpl : list titem) (s : string) :
  literal P tpl = true -> forall_str P s = true ->
  forall_str P (re_sub ic r tpl s) = true.
Proof. intros Ht Hs. now apply sub_loop_kept. Qed.

Lemma prefix_kept (t s : string) :
  String.prefix t s = true -> forall_str P s = true -> forall_str P t = true.
Proof.
  revert s. induction t as [|c t IH]; intros s H Hs; [reflexivity|].
  destruct s as [|x s]; [discriminate H|]. cbn [String.prefix forall_str] in *.
  destruct (Ascii.ascii_dec c x) as [->|]; [|discriminate H].
  apply andb_true_iff in Hs as [Hx Hs]. now rewrite Hx, (IH s).
Qed.

Lemma contains_kept (s t : string) :
  contains s t = true -> forall_str P s = true -> forall_str P t = true.
Proof.
  induction s as [|c s IH]; cbn [contains]; intros H Hs.
  - rewrite orb_false_r in H. exact (prefix_kept _ _ H Hs).
  - apply orb_true_iff in H as [H|H]; [exact (prefix_kept _ _ H Hs)|].
    cbn [forall_str] in Hs. apply andb_true_iff in Hs as [_ Hs]. now apply IH.
Qed.

End KeptBySub.

Section CityInAddress.

Lemma upper_char_not_small_d (c : ascii) : not_small_d (upper_char c) = true.
Proof. destruct c as [[] [] [] [] [] [] [] []]; reflexivity. Qed.

Lemma upper_not_small_d (s : string) : forall_str not_small_d (upper s) = true.
Proof.
  unfold upper. induction s as [|c s IH]; [reflexivity|].
  cbn [map_str forall_str]. now rewrite upper_char_not_small_d, IH.
Qed.

Lemma standardized_not_small_d (address : string) :
  forall_str not_small_d address = true ->
  forall_str not_small_d (CsvProcessor.standardize_dublin_areas address) = true.
Proof.
  unfold CsvProcessor.standardize_dublin_areas.
  assert (Hall : Forall (fun on => forall_str not_small_d (snd on) = true)
                        CsvProcessor.area_mappings)
    by (repeat constructor).
  revert address. induction Hall as [|[old new] l Hnew Hl IH]; intros address Ha;
    [exact Ha|].
  cbn [fold_left]. apply IH, re_sub_kept; [|exact Ha].
  cbn [literal snd] in *. now rewrite Hnew.
Qed.

Lemma cleaned_not_small_d (a : string) :
  forall_str not_small_d
    (CsvProcessor.standardize_dublin_areas
       (re_sub false (rplus rspace) [TLit " "]
          (re_sub false (rcat [rplus rspace; chr ","; rplus rspace]) [TLit ", "]
             (fold_left (fun address '(abbr, full) =>
                           re_sub false (CsvProcessor.word_pattern abbr) [TLit full] address)
                        CsvProcessor.replacements
                        (fold_left (fun address prefix => re_sub true prefix [] address)
                                   CsvProcessor.prefixes_to_remove (upper a)))))) = true.
Proof.
  apply standardized_not_small_d.
  apply re_sub_kept; [reflexivity|]. apply re_sub_kept; [reflexivity|].
  assert (H0 : forall_str not_small_d
                 (fold_left (fun address prefix => re_sub true prefix [] address)
                            CsvProcessor.prefixes_to_remove (upper a)) = true).
  { generalize (upper_not_small_d a). generalize (upper a) as s.
    induction CsvProcessor.prefixes_to_remove as [|p l IH]; intros s Hs; [exact Hs|].
    cbn [fold_left]. apply IH, re_sub_kept; [reflexivity | exact Hs]. }
  revert H0. generalize (fold_left (fun address prefix => re_sub true prefix [] address)
                                   CsvProcessor.prefixes_to_remove (upper a)) as s.
  assert (Hall : Forall (fun af => forall_str not_small_d (snd af) = true)
                        CsvProcessor.replacements)
    by (repeat constructor).
  induction Hall as [|[abbr full] l Hfull Hl IH]; intros s Hs; [exact Hs|].
  cbn [fold_left]. apply IH, re_sub_kept; [|exact Hs].
  cbn [literal snd] in *. now rewrite Hfull.
Qed.

Lemma city_after_title (b : string) :
  forall_str not_small_d b = true ->
  contains
    (upper
       (title
          (let b1 := if negb (contains b "DUBLIN") && negb (contains b "D\d{1,2}")
                     then b ++ ", DUBLIN" else b in
           if negb (contains b1 "IRELAND") then b1 ++ ", IRELAND" else b1)))
    "DUBLIN" = true.
Proof.
  intros Hb. cbv zeta. unfold title. rewrite upper_title_from.
  apply (contains_map upper_char _ "DUBLIN").
  assert (Hlit : contains b "D\d{1,2}" = false).
  { destruct (contains b "D\d{1,2}") eqn:E; [|reflexivity].
    pose proof (contains_kept not_small_d _ _ E Hb) as H. discriminate H. }
  rewrite Hlit. cbn [negb]. rewrite andb_true_r.
  set (b1 := if negb (contains b "DUBLIN") then _ else b).
  assert (H1 : contains b1 "DUBLIN" = true).
  { unfold b1. destruct (contains b "DUBLIN") eqn:E; cbn [negb]; [exact E|].
    apply contains_app_r. reflexivity. }
  destruct (negb (contains b1 "IRELAND")); [now apply contains_app_l | exact H1].
Qed.

End CityInAddress.

(** X13. For every text, the address [clean_address] returns names the
    city: upper-cased, it contains DUBLIN.  The test for a postal code,
    D followed by digits, is made on the literal text of that pattern,
    which no address contains at that point, so ", DUBLIN" is appended
    whenever DUBLIN is absent, also after an area was abbreviated to its
    postal code. *)
Theorem clean_address_names_city (a : string) :
  contains (upper (CsvProcessor.clean_address (VStr a))) "DUBLIN" = true.
Proof.
  unfold CsvProcessor.clean_address. cbv zeta.
  apply city_after_title, cleaned_not_small_d.
Qed.

(** ** Labels in the text of a span *)

Section Labels.

Variable P : ascii -> bool.

Lemma last_is_not_all (m : string) :
  last_is (fun c => negb (P c)) m = true -> forall_str P m = false.
Proof.
  induction m as [|a m IH]; [discriminate|].
  cbn [last_is forall_str]. destruct m as [|b m'].
  - intros H. apply negb_true_iff in H. now rewrite H.
  - intros H. rewrite (IH H). apply andb_false_r.
Qed.

Lemma prefix_app_last (m x v : string) :
  forall_str P v = true -> last_is (fun c => negb (P c)) m = true ->
  String.prefix m (x ++ v) = String.prefix m x.
Proof.
  intros Hv. revert x. induction m as [|a m IH]; intros x Hm; [discriminate Hm|].
  destruct x as [|b x].
  - rewrite str_app_nil_l. cbn [String.prefix].
    destruct (String.prefix (String a m) v) eqn:E; [|now destruct v].
    pose proof (prefix_kept P _ _ E Hv) as Hall.
    rewrite (last_is_not_all _ Hm) in Hall. discriminate Hall.
  - rewrite str_app_cons. cbn [String.prefix].
    destruct (Ascii.ascii_dec a b); [|reflexivity].
    destruct m as [|a' m']; [transitivity true; [now destruct (x ++ v) | now destruct x]|].
    apply IH. exact Hm.
Qed.

Lemma contains_app_last (l v m : string) :
  forall_str P v = true -> last_is (fun c => negb (P c)) m = true ->
  contains (l ++ v) m = contains l m.
Proof.
  intros Hv Hm. induction l as [|c l IH].
  - rewrite str_app_nil_l. cbn [contains].
    destruct (contains v m) eqn:E.
    + pose proof (contains_kept P _ _ E Hv) as Hall.
      rewrite (last_is_not_all _ Hm) in Hall. discriminate Hall.
    + destruct m; [discriminate Hm | reflexivity].
  - rewrite str_app_cons. cbn [contains]. rewrite IH.
    rewrite <- str_app_cons. now rewrite prefix_app_last.
Qed.

Lemma contains_free (v m : string) :
  forall_str P v = true -> forall_str P m = false -> contains v m = false.
Proof.
  intros Hv Hm. destruct (contains v m) eqn:E; [|reflexivity].
  pose proof (contains_kept P _ _ E Hv) as Hall. congruence.
Qed.

End Labels.

Section Splitting.

Import ScraperDetails.

Lemma find_sep_none (sep s : string) :
  contains s sep = false -> find_sep sep s = None.
Proof.
  induction s as [|c s IH]; cbn [contains find_sep]; intros H.
  - apply orb_false_iff in H as [-> _]. reflexivity.
  - apply orb_false_iff in H as [-> H]. now rewrite IH.
Qed.

Lemma drop_length_app (l v : string) : drop (String.length l) (l ++ v) = v.
Proof. induction l as [|c l IH]; [now destruct v|]. rewrite str_app_cons. exact IH. Qed.

Lemma find_sep_here (sep v : string) : find_sep sep (sep ++ v) = Some ("", v).
Proof.
  destruct sep as [|c sep].
  - rewrite str_app_nil_l. destruct v; reflexivity.
  - rewrite str_app_cons. cbn [find_sep]. rewrite <- str_app_cons.
    now rewrite prefix_refl_app, drop_length_app.
Qed.

Lemma split_fuel_none (fuel : nat) (sep s : string) :
  contains s sep = false -> split_fuel fuel sep s = [s].
Proof. intros H. destruct fuel; cbn [split_fuel]; [|rewrite find_sep_none]; trivial. Qed.

Lemma split_label_first (label v : string) :
  label <> "" -> contains v label = false ->
  split label (label ++ v) = [""; v].
Proof.
  intros Hl Hv. unfold split. rewrite str_length_app.
  destruct label as [|c label]; [congruence|].
  cbn [String.length Nat.add split_fuel]. rewrite find_sep_here.
  now rewrite split_fuel_none.
Qed.

Lemma after_label_first (label v : string) :
  label <> "" -> contains v label = false ->
  after_label label (label ++ v) = Ok (strip v).
Proof. intros Hl Hv. unfold after_label. now rewrite split_label_first. Qed.

End Splitting.

Section SplittingAfter.

Import ScraperDetails.

Variable P : ascii -> bool.

Lemma prefix_long (m x y : string) :
  String.length m <= String.length x ->
  String.prefix m (x ++ y) = String.prefix m x.
Proof.
  revert x. induction m as [|a m IH]; intros x H.
  - transitivity true; [now destruct (x ++ y) | now destruct x].
  - destruct x as [|b x]; [cbn in H; lia|].
    rewrite str_app_cons. cbn [String.prefix].
    destruct (Ascii.ascii_dec a b); [|reflexivity].
    apply IH. cbn [String.length] in H. lia.
Qed.

Lemma find_sep_after (sep0 : string) (x : ascii) (pre v : string) :
  forall_str P pre = true -> forall_str P sep0 = true -> P x = false ->
  find_sep (sep0 ++ String x "") (pre ++ (sep0 ++ String x "") ++ v) = Some (pre, v).
Proof.
  intros Hpre Hsep Hx. induction pre as [|c pre IH].
  - rewrite str_app_nil_l. apply find_sep_here.
  - cbn [forall_str] in Hpre. apply andb_true_iff in Hpre as [Hc Hpre].
    rewrite str_app_cons. cbn [find_sep]. rewrite (IH Hpre).
    rewrite <- str_app_cons.
    assert (Hno : String.prefix (sep0 ++ String x "")
                    (String c pre ++ (sep0 ++ String x "") ++ v) = false).
    { rewrite (str_app_assoc sep0), <- (str_app_assoc (String c pre) sep0).
      rewrite prefix_long.
      - destruct (String.prefix _ _) eqn:E; [|reflexivity].
        apply (prefix_kept P) in E.
        + rewrite forall_str_app in E. cbn [forall_str] in E.
          rewrite Hx, andb_false_r in E. discriminate E.
        + rewrite forall_str_app. cbn [forall_str]. now rewrite Hc, Hpre, Hsep.
      - rewrite !str_length_app. cbn [String.length]. lia. }
    now rewrite Hno.
Qed.

Lemma split_label_after (sep0 : string) (x : ascii) (pre v : string) :
  forall_str P pre = true -> forall_str P sep0 = true -> P x = false ->
  forall_str P v = true ->
  split (sep0 ++ String x "") (pre ++ (sep0 ++ String x "") ++ v) = [pre; v].
Proof.
  intros Hpre Hsep Hx Hv. unfold split. rewrite !str_length_app.
  cbn [String.length]. replace (_ + _) with
    (S (String.length pre + (String.length sep0 + String.length v))) by lia.
  cbn [split_fuel]. rewrite find_sep_after by assumption.
  rewrite split_fuel_none; [reflexivity|].
  apply (contains_free P); [exact Hv|].
  rewrite forall_str_app. cbn [forall_str]. now rewrite Hx, andb_false_r.
Qed.

End SplittingAfter.

Section Semicolons.

Import ScraperDetails.

Lemma split_semicolon (a b : string) :
  forall_str not_semicolon a = true -> forall_str not_semicolon b = true ->
  split ";" (a ++ ";" ++ b) = [a; b].
Proof.
  intros Ha Hb.
  exact (split_label_after not_semicolon "" ";" a b Ha eq_refl eq_refl Hb).
Qed.

Lemma split_no_semicolon (a : string) :
  forall_str not_semicolon a = true -> split ";" a = [a].
Proof.
  intros Ha. unfold split. apply split_fuel_none.
  now apply (contains_free not_semicolon).
Qed.

Lemma contains_label_first (label v : string) : contains (label ++ v) label = true.
Proof.
  destruct label as [|c label]; [now destruct v|].
  rewrite str_app_cons. cbn [contains]. rewrite <- str_app_cons.
  now rewrite prefix_refl_app.
Qed.

End Semicolons.

Ltac label_tests Hv :=
  repeat match goal with
         | |- context [contains (?l ++ ?v) ?m] =>
             rewrite (contains_app_last not_colon l v m Hv eq_refl);
             let b := eval vm_compute in (contains l m) in
             change (contains l m) with b
         end;
  cbv iota.

Ltac label_value Hv :=
  unfold ScraperDetails.set_after; rewrite after_label_first;
  [ reflexivity
  | discriminate
  | apply (contains_free not_colon); [exact Hv | reflexivity] ].

(** X14. A details span whose text, stripped, is one of the labels Case
    reference:, Status:, Description:, EIAR: or NIS: followed by a value
    without a colon sets the key of that label to the stripped value and
    leaves the other keys as they are (for ASCII text). *)
Theorem labelled_span_sets_key (c : case) (span_text v : string) :
  is_ascii span_text = true ->
  forall_str not_colon v = true ->
  (strip span_text = "Case reference:" ++ v ->
   ScraperDetails.read_details_span c span_text
   = Ok (ScraperDetails.set_reference c (strip v)))
  /\ (strip span_text = "Status:" ++ v ->
      ScraperDetails.read_details_span c span_text
      = Ok (ScraperDetails.set_status c (strip v)))
  /\ (strip span_text = "Description:" ++ v ->
      ScraperDetails.read_details_span c span_text
      = Ok (ScraperDetails.set_description c (strip v)))
  /\ (strip span_text = "EIAR:" ++ v ->
      ScraperDetails.read_details_span c span_text
      = Ok (ScraperDetails.set_eiar c (strip v)))
  /\ (strip span_text = "NIS:" ++ v ->
      ScraperDetails.read_details_span c span_text
      = Ok (ScraperDetails.set_nis c (strip v))).
Proof.
  intros _ Hv. unfold ScraperDetails.read_details_span. cbv zeta.
  repeat split; intros ->; label_tests Hv; label_value Hv.
Qed.

Lemma labelled_span_sets_key_witness :
  ScraperDetails.read_details_span (sample_case "first") "  Status: Decided "
  = Ok (ScraperDetails.set_status (sample_case "first") "Decided").
Proof.
  apply (labelled_span_sets_key (sample_case "first") "  Status: Decided " " Decided");
    reflexivity.
Defined.

(** X15. A details span whose text holds no colon sets no key (for ASCII
    text): every label the loop looks for ends with a colon. *)
Theorem unlabelled_span_ignored (c : case) (span_text : string) :
  is_ascii span_text = true ->
  forall_str not_colon (strip span_text) = true ->
  ScraperDetails.read_details_span c span_text = Ok c.
Proof.
  intros _ H. unfold ScraperDetails.read_details_span. cbv zeta.
  rewrite !(contains_free not_colon _ _ H) by reflexivity. reflexivity.
Qed.

Lemma unlabelled_span_ignored_witness :
  ScraperDetails.read_details_span (sample_case "first") " Strategic Housing "
  = Ok (sample_case "first").
Proof.
  apply (unlabelled_span_ignored (sample_case "first") " Strategic Housing "); reflexivity.
Defined.

Section Dates.

Import ScraperDetails.

Lemma date_tests (c : case) (span_text : string) :
  contains (strip span_text) "Case reference:" = false ->
  contains (strip span_text) "Status:" = false ->
  contains (strip span_text) "Description:" = false ->
  contains (strip span_text) "Date lodged:" = true ->
  read_details_span c span_text =
  match (match split ";" (strip span_text) with
         | part :: _ => set_after set_date_lodged c "Date lodged:" part
         | [] => Ok c
         end) with
  | Raise e => Raise e
  | Ok c1 =>
      match split ";" (strip span_text) with
      | _ :: part :: _ => set_after set_date_signed c1 "Signed:" part
      | _ => Ok c1
      end
  end.
Proof.
  intros H1 H2 H3 H4. unfold read_details_span. cbv zeta.
  now rewrite H1, H2, H3, H4.
Qed.

Lemma lodged_value (c : case) (d1 : string) :
  forall_str not_colon d1 = true ->
  set_after set_date_lodged c "Date lodged:" ("Date lodged:" ++ d1)
  = Ok (set_date_lodged c (strip d1)).
Proof. intros Hv. label_value Hv. Qed.

Lemma label_semicolon_free (d1 : string) :
  forall_str not_semicolon d1 = true ->
  forall_str not_semicolon ("Date lodged:" ++ d1) = true.
Proof. intros H. now rewrite forall_str_app, H. Qed.

End Dates.

(** X16. A details span with the dates (ASCII text that holds none of
    the labels Case reference:, Status:, Description:): when its stripped
    text is Date lodged: and a date, the span sets date_lodged to the
    stripped date; when a semicolon, the label Signed: and a second date
    follow, it sets date_signed to the stripped second date as well (the
    dates hold no colon and no semicolon). *)
Theorem date_span_sets_dates (c : case) (span_text d1 : string) :
  is_ascii span_text = true ->
  forall_str not_colon d1 = true -> forall_str not_semicolon d1 = true ->
  contains (strip span_text) "Case reference:" = false ->
  contains (strip span_text) "Status:" = false ->
  contains (strip span_text) "Description:" = false ->
  (strip span_text = "Date lodged:" ++ d1 ->
   ScraperDetails.read_details_span c span_text
   = Ok (ScraperDetails.set_date_lodged c (strip d1)))
  /\ (forall mid d2,
        forall_str not_colon mid = true -> forall_str not_semicolon mid = true ->
        forall_str not_colon d2 = true -> forall_str not_semicolon d2 = true ->
        strip span_text = ("Date lodged:" ++ d1) ++ ";" ++ mid ++ "Signed:" ++ d2 ->
        ScraperDetails.read_details_span c span_text
        = Ok (ScraperDetails.set_date_signed
                (ScraperDetails.set_date_lodged c (strip d1)) (strip d2))).
Proof.
  intros _ Hc1 Hs1 A1 A2 A3. split.
  - intros E. rewrite date_tests; try assumption;
      [|rewrite E; apply contains_label_first].
    rewrite E, split_no_semicolon by now apply label_semicolon_free.
    now rewrite lodged_value.
  - intros mid d2 Hcm Hsm Hc2 Hs2 E. rewrite date_tests; try assumption;
      [|rewrite E, str_app_assoc; apply contains_label_first].
    rewrite E, split_semicolon.
    + rewrite lodged_value by assumption.
      unfold ScraperDetails.set_after, ScraperDetails.after_label.
      pose proof (split_label_after not_colon "Signed" ":" mid d2 Hcm eq_refl eq_refl Hc2)
        as Hsplit.
      change ("Signed" ++ ":") with "Signed:" in Hsplit. now rewrite Hsplit.
    + now apply label_semicolon_free.
    + rewrite !forall_str_app, Hsm, Hs2. reflexivity.
Qed.

Lemma date_span_sets_dates_witness :
  ScraperDetails.read_details_span (sample_case "first")
    "Date lodged: 01/02/2023; Signed: 03/04/2023"
  = Ok (ScraperDetails.set_date_signed
          (ScraperDetails.set_date_lodged (sample_case "first") "01/02/2023")
          "03/04/2023").
Proof.
  apply (proj2 (date_span_sets_dates (sample_case "first")
                  "Date lodged: 01/02/2023; Signed: 03/04/2023" " 01/02/2023"
                  eq_refl eq_refl eq_refl eq_refl eq_refl eq_refl)
               " " " 03/04/2023");
    reflexivity.
Defined.

(** X17. A details span with Date lodged: whose text goes on after a
    semicolon without the label Signed: raises IndexError (ASCII text that
    holds none of the labels Case reference:, Status:, Description:); the
    loop over the spans does not catch it. *)
Theorem date_span_without_signed (c : case) (span_text d1 rest : string)
        (spans : list string) :
  is_ascii span_text = true ->
  forall_str not_colon d1 = true -> forall_str not_semicolon d1 = true ->
  forall_str not_semicolon rest = true -> contains rest "Signed:" = false ->
  contains (strip span_text) "Case reference:" = false ->
  contains (strip span_text) "Status:" = false ->
  contains (strip span_text) "Description:" = false ->
  strip span_text = ("Date lodged:" ++ d1) ++ ";" ++ rest ->
  ScraperDetails.read_details_span c span_text
  = Raise (IndexError "list index out of range")
  /\ ScraperDetails.read_details_spans c (span_text :: spans)
     = Raise (IndexError "list index out of range").
Proof.
  intros _ Hc1 Hs1 Hsr Hr A1 A2 A3 E.
  assert (H : ScraperDetails.read_details_span c span_text
              = Raise (IndexError "list index out of range")).
  { rewrite date_tests; try assumption;
      [|rewrite E, str_app_assoc; apply contains_label_first].
    rewrite E, split_semicolon by (assumption || now apply label_semicolon_free).
    rewrite lodged_value by assumption.
    unfold ScraperDetails.set_after, ScraperDetails.after_label, ScraperDetails.split.
    now rewrite split_fuel_none. }
  split; [exact H|]. cbn [ScraperDetails.read_details_spans]. now rewrite H.
Qed.

Lemma date_span_without_signed_witness :
  ScraperDetails.read_details_spans (sample_case "first")
    ["Date lodged: 01/02/2023; not yet signed"; "EIAR: No"]
  = Raise (IndexError "list index out of range").
Proof.
  apply (date_span_without_signed (sample_case "first")
           "Date lodged: 01/02/2023; not yet signed" " 01/02/2023" " not yet signed"
           ["EIAR: No"]);
    reflexivity.
Defined.

Local Open Scope list_scope.

(** ** The lookups of any run *)

Section LookedUp.

Lemma looked_up_quietly (w w' : world) : quietly w w' -> looked_up w w'.
Proof.
  intros (new & E & [S C] & _). exists new. rewrite S, C.
  repeat split; try assumption; try constructor; inversion H.
Qed.

Lemma looked_up_run (todo : list key) (w w1 w2 w3 : world) (cache' : dict)
      (added : dict) (new : list event) :
  quietly w w1 ->
  loop_run todo (loaded w) w1 cache' w2 added new ->
  quietly w2 w3 ->
  looked_up w w3.
Proof.
  intros (n1 & E1 & [S1 C1] & F1) Hrun (n3 & E3 & [S3 C3] & F3).
  destruct Hrun as [_ Htrace _ _ _ Hsaves Hcalls Hnodup Hfresh _].
  exists (n1 ++ new ++ n3).
  rewrite !call_log_app, !saved_contents_app, S1, S3, C1, C3, Hcalls, Hsaves, !app_nil_r.
  cbn [app]. repeat split.
  - rewrite E3, Htrace, E1. now rewrite <- !app_assoc.
  - exact Hnodup.
  - clear. generalize (loaded w) as cache. induction added as [|entry added IH];
      intros cache; [reflexivity|]. cbn [snapshots dict_keys map length]. f_equal. apply IH.
  - now destruct (Hfresh k H) as (_ & _ & ?).
  - now destruct (Hfresh k H) as (? & _ & _).
Qed.

End LookedUp.

Section LookedUpRuns.

Variable e : env.

Lemma wp_cases_geocode_loop_looked_up {A} (todo : list key) (n : nat) (w0 w1 : world)
      (k : dict * nat -> M A) (Q : result A -> world -> Prop) :
  quietly w0 w1 ->
  (forall r, keeps quietly (k r)) ->
  (forall r w3, looked_up w0 w3 -> Q r w3) ->
  wp (bind (CsvProcessorCases.geocode_loop e todo (loaded w0) n) k) Q w1.
Proof.
  intros Hq Hk HQ. unfold wp, bind.
  destruct (cases_geocode_loop_run e todo (loaded w0) n w1)
    as (cache' & n' & w2 & added & new & E & Hrun).
  rewrite E. apply HQ. eapply looked_up_run; [exact Hq | exact Hrun | apply Hk].
Qed.

Lemma wp_quiet_rest_looked_up {A} (c : M A) (w0 w1 : world) :
  quietly w0 w1 -> keeps quietly c ->
  wp c (fun r w' => is_ok r = true -> looked_up w0 w') w1.
Proof.
  intros Hq Hc. apply (wp_keeps quietly); [exact Hc|].
  intros _ w' Hq' _. apply looked_up_quietly. eapply quietly_trans; eassumption.
Qed.

End LookedUpRuns.

Ltac lookup_lift :=
  apply wp_bind, wp_lift;
  match goal with
  | |- match ?r with Ok _ => _ | Raise _ => _ end =>
      destruct r as [?|?]; [|ok_raise]
  end.

(** X18. In a run of [process_planning_cases] that completes,
    [get_coordinates] is called at most once per address, only for
    addresses that are not empty and were not in the cache at the start,
    and the cache file is written exactly once per call. *)
Theorem planning_lookups (e : env) (input_file output_file : string)
        (max_rows : option Z) (w : world) :
  completes (CsvProcessorCases.process_planning_cases e input_file output_file max_rows) w ->
  looked_up w
    (after (CsvProcessorCases.process_planning_cases e input_file output_file max_rows) w).
Proof.
  unfold completes, after.
  change (wp (CsvProcessorCases.process_planning_cases e input_file output_file max_rows)
             (fun r w' => is_ok r = true -> looked_up w w') w).
  pose proof (quietly_refl w) as Hq. revert Hq. generalize w at 2 4 as w1.
  intros w1 Hq.
  unfold CsvProcessorCases.process_planning_cases, CsvProcessorCases.load_cache.
  lookup_lift.
  apply wp_bind.
  destruct max_rows as [n|]; [destruct (n =? 0)%Z|].
  1,3: apply wp_ret.
  3: step_print; apply wp_ret.
  all: cbv beta iota zeta.
  all: apply wp_bind, wp_load_cache.
  all: rewrite (loaded_quietly w w1 Hq).
  all: destruct (w_cache_file w1); [ | ok_raise | ].
  all: lookup_lift.
  all: match goal with
       | |- wp (bind (match ?ua with _ => _ end) _) _ _ => destruct ua
       end.
  all: match goal with
       | |- wp (bind (ret _) _) _ _ =>
           apply wp_quiet_rest_looked_up; [exact Hq | quiet_steps]
       | |- wp (bind (bind (print _) _) _) _ _ =>
           apply wp_bind_assoc; step_print; apply wp_bind_assoc;
           apply wp_cases_geocode_loop_looked_up;
           [exact Hq | intros ?; quiet_steps | intros ? ? Hl _; exact Hl]
       end.
Qed.

Lemma planning_lookups_witness :
  looked_up empty_world
    (after (CsvProcessorCases.process_planning_cases planning_env "cases.csv"
              "out.csv" None) empty_world).
Proof.
  apply (planning_lookups planning_env "cases.csv" "out.csv" None empty_world).
  vm_compute. reflexivity.
Defined.
